(** * netphys: the ping measurement stream and the multi-host ping ledger

    A shallow embedding of [ping.py] (class [Ping], [find_starting_item])
    and [pingtest.py] (class [PingTest]) and the properties of the
    streaming measurement pipeline that are stated about them.

    Conventions of the embedding.
    - Python [bytes] are [list byte]; Python [str] is [string].  The two are
      different Python types: a [str] never compares equal to a [bytes].
    - Python [int] is [Z]; a Python [float] is modelled by the rational
      number it denotes ([Q]); [None] in a slot that may hold a float is
      [option Q].
    - An exception is a value of [exn]; a computation that mutates objects
      is a function from the store to a [result], which either returns a
      value, raises, or never terminates ([Diverge], observed as fuel
      running out in a [while] loop).
    - The interpreter is Python 3.7 or later: a [StopIteration] raised
      inside the body of a generator reaches the caller of [next] as
      [RuntimeError].
    - [statistics.mean] sums its items exactly and converts the quotient to
      the nearest float ([float_of_fraction]).
    - The built-in conversions [int()] and [float()], the platform, the
      resolver and the bytes the external [ping] process writes are the
      environment [Env]: every theorem holds for all environments. *)

From Stdlib Require Import ZArith QArith Qabs Qround Qpower Lia Lqa.
From Stdlib Require Import Strings.Byte Strings.String.
From stdpp Require Import base option list strings.

Local Open Scope Z_scope.

(* ================================================================= *)
(** ** Python values, exceptions, results *)

Definition bytes := list byte.

(** [B "time="] is the bytes literal [b'time=']. *)
Definition B (s : string) : bytes := list_byte_of_string s.

#[global] Instance byte_eq_dec : EqDecision byte := Byte.byte_eq_dec.

Inductive exn :=
| TypeError | ValueError | IndexError | AttributeError
| StopIteration | RuntimeError | NotImplementedError | FindAddressError
| StatisticsError | OverflowError | SystemError.

#[global] Instance exn_eq_dec : EqDecision exn.
Proof. solve_decision. Defined.

(** A pure step that may raise. *)
Inductive outcome (A : Type) :=
| Val (a : A)
| Exc (e : exn)
| Loop.
Arguments Val {A} a.
Arguments Exc {A} e.
Arguments Loop {A}.

Definition obind {A C} (m : outcome A) (k : A -> outcome C) : outcome C :=
  match m with
  | Val a => k a
  | Exc e => Exc e
  | Loop => Loop
  end.

(** A step over a mutable store [S]: the store after the step is part of
    the result also when the step raises, because the caller can catch the
    exception and go on using the objects. *)
Inductive result (S A : Type) :=
| Ret (a : A) (s : S)
| Raise (e : exn) (s : S)
| Diverge.
Arguments Ret {S A} a s.
Arguments Raise {S A} e s.
Arguments Diverge {S A}.

Definition M (S A : Type) := S -> result S A.

Definition ret {S A} (a : A) : M S A := fun s => Ret a s.
Definition raise {S A} (e : exn) : M S A := fun s => Raise e s.
Definition bind {S A C} (m : M S A) (k : A -> M S C) : M S C :=
  fun s => match m s with
           | Ret a s' => k a s'
           | Raise e s' => Raise e s'
           | Diverge => Diverge
           end.
Definition lift {S A} (o : outcome A) : M S A :=
  fun s => match o with
           | Val a => Ret a s
           | Exc e => Raise e s
           | Loop => Diverge
           end.
Definition get_store {S} : M S S := fun s => Ret s s.
Definition put_store {S} (s : S) : M S unit := fun _ => Ret tt s.

(** [try: m except e: h] *)
Definition try_except {S A} (m : M S A) (e : exn) (h : M S A) : M S A :=
  fun s => match m s with
           | Raise e' s' => if decide (e' = e) then h s' else Raise e' s'
           | r => r
           end.

Notation "'do' x <- m ; k" := (bind m (fun x => k))
  (at level 10, x name, m at level 100, k at level 200).
Notation "'do' ' p <- m ; k" := (bind m (fun x => let 'p := x in k))
  (at level 10, p pattern, m at level 100, k at level 200).
Notation "m ;; k" := (bind m (fun _ => k))
  (at level 100, k at level 200, right associativity).

(** The store after a step, when there is one. *)
Definition store_after {S A} (r : result S A) : option S :=
  match r with
  | Ret _ s => Some s
  | Raise _ s => Some s
  | Diverge => None
  end.

(* ================================================================= *)
(** ** Operations on [bytes] *)

Definition byte_isdigit (c : byte) : bool :=
  let n := Byte.to_N c in ((48 <=? n) && (n <=? 57))%N.

(** ASCII whitespace, the separators of [bytes.split()]. *)
Definition byte_isspace (c : byte) : bool :=
  let n := Byte.to_N c in
  (((9 <=? n) && (n <=? 13)) || (n =? 32))%N.

Definition newline : byte := x0a.

(** [item.startswith(prefix)] *)
Fixpoint startswith (item prefix : bytes) : bool :=
  match prefix, item with
  | [], _ => true
  | p :: ps, c :: cs => Byte.eqb c p && startswith cs ps
  | _ :: _, [] => false
  end.

(** [bytes.isdigit(b)]: every byte is an ASCII digit and there is one. *)
Definition isdigit (b : bytes) : bool :=
  match b with
  | [] => false
  | _ => forallb byte_isdigit b
  end.

(** [b[-1:]] and [b[:-1]] *)
Definition last_slice (b : bytes) : bytes :=
  match List.rev b with
  | [] => []
  | c :: _ => [c]
  end.
Definition drop_last (b : bytes) : bytes := removelast b.

(** [b.count(b'\n')] *)
Definition count_newlines (b : bytes) : nat :=
  List.length (List.filter (Byte.eqb newline) b).

(** [b.split()]: maximal runs of non-whitespace bytes.  [cur] is the token
    being read, in reverse. *)
Fixpoint split_from (cur : bytes) (b : bytes) : list bytes :=
  match b with
  | [] => match cur with [] => [] | _ => [List.rev cur] end
  | c :: rest =>
      if byte_isspace c
      then match cur with
           | [] => split_from [] rest
           | _ => List.rev cur :: split_from [] rest
           end
      else split_from (c :: cur) rest
  end.
Definition split (b : bytes) : list bytes := split_from [] b.

Definition has_digit (b : bytes) : bool := existsb byte_isdigit b.

(* ================================================================= *)
(** ** Tokens: the objects a line holds *)

Inductive pyval :=
| PyBytes (b : bytes)
| PyStr (s : string).

(** [type(a) == type(b)] *)
Definition same_type (a b : pyval) : bool :=
  match a, b with
  | PyBytes _, PyBytes _ => true
  | PyStr _, PyStr _ => true
  | _, _ => false
  end.

(** [a == b]: objects of different types are never equal. *)
Definition py_eqb (a b : pyval) : bool :=
  match a, b with
  | PyBytes x, PyBytes y => bool_decide (x = y)
  | PyStr x, PyStr y => bool_decide (x = y)
  | _, _ => false
  end.

(** [x in line] for a list [line] *)
Definition py_in (x : pyval) (line : list pyval) : bool :=
  existsb (fun item => py_eqb item x) line.

(** [item.startswith(term)] for two objects of the same type. *)
Definition py_startswith (item term : pyval) : bool :=
  match item, term with
  | PyBytes x, PyBytes y => startswith x y
  | PyStr x, PyStr y => startswith (B x) (B y)
  | _, _ => false
  end.

(** [readline().split()]: a list of [bytes] objects. *)
Definition py_split (raw : bytes) : list pyval := map PyBytes (split raw).

(** [find_starting_item(iterable, search_term)]: the first item of the type
    of [search_term] that starts with it; [None] when the loop falls off the
    end of the function. *)
Fixpoint find_starting_item (iterable : list pyval) (search_term : pyval)
  : option pyval :=
  match iterable with
  | [] => None
  | item :: rest =>
      if negb (same_type item search_term)
      then find_starting_item rest search_term
      else if py_startswith item search_term
           then Some item
           else find_starting_item rest search_term
  end.

(** [x[n:]] where [x] may be [None] (not subscriptable). *)
Definition slice_from (x : option pyval) (n : nat) : outcome pyval :=
  match x with
  | None => Exc TypeError
  | Some (PyBytes b) => Val (PyBytes (List.skipn n b))
  | Some (PyStr s) => Val (PyStr (String.substring n (String.length s - n)%nat s))
  end.

(* ================================================================= *)
(** ** The environment *)

(** What the code takes from outside: the conversions [int()] and
    [float()] on [bytes], [platform.system() == 'Windows'],
    [socket.getaddrinfo] (the first address for a host and family, or
    [gaierror]), whether an address is an [IPv6Address], and, for the
    process started by the [Ping] object with a given identity, the chunks
    its standard output delivers, one per read of the pipe. *)
Record Env := {
  int_of_bytes : bytes -> option Z;
  float_of_bytes : bytes -> option Q;
  platform_windows : bool;
  getaddrinfo : string -> option bool -> option string;
  ip_is_v6 : string -> bool;
  ping_output : nat -> list bytes
}.

(** [int(x)] and [float(x)]: [ValueError] on a malformed literal. *)
Definition py_int (E : Env) (x : pyval) : outcome Z :=
  let b := match x with PyBytes b => b | PyStr s => B s end in
  match int_of_bytes E b with
  | Some z => Val z
  | None => Exc ValueError
  end.

Definition py_float (E : Env) (x : pyval) : outcome Q :=
  let b := match x with PyBytes b => b | PyStr s => B s end in
  match float_of_bytes E b with
  | Some q => Val q
  | None => Exc ValueError
  end.

(* ================================================================= *)
(** ** Parsing one line ([Ping.ping], the body after the line is read) *)

Notation "'let*' x := m 'in' k" := (obind m (fun x => k))
  (at level 10, x name, m at level 100, k at level 200).

(** A sample: the ICMP sequence number and the round trip time. *)
Definition sample := (Z * option Q)%type.

(** [while not bytes.isdigit(time[-1:]): time = time[:-1]] *)
Fixpoint strip_units (fuel : nat) (time : bytes) : outcome bytes :=
  match fuel with
  | O => Loop
  | S fuel' =>
      if negb (isdigit (last_slice time))
      then strip_units fuel' (drop_last time)
      else Val time
  end.

(** Lines 165 to 174 of [ping.py]. *)
Definition parse_line (E : Env) (fuel : nat) (line : list pyval)
  : outcome sample :=
  let* tok := slice_from (find_starting_item line (PyBytes (B "icmp_seq="))) 9 in
  let* icmp_seq := py_int E tok in
  if py_in (PyStr "Unreachable") line
  then Val (icmp_seq, None)
  else
    let* t := slice_from (find_starting_item line (PyBytes (B "time="))) 5 in
    match t with
    | PyStr _ => Exc TypeError (* bytes.isdigit applied to a str *)
    | PyBytes time =>
        let* time := strip_units fuel time in
        let* time := py_float E (PyBytes time) in
        Val (icmp_seq, Some time)
    end.

(** The two tokens the parse looks for, on a line of [bytes] tokens. *)
Definition seq_token (toks : list bytes) : option pyval :=
  find_starting_item (map PyBytes toks) (PyBytes (B "icmp_seq=")).
Definition time_token (toks : list bytes) : option pyval :=
  find_starting_item (map PyBytes toks) (PyBytes (B "time=")).

(** What the stripping loop leaves when it stops: the bytes up to the last
    digit. *)
Fixpoint rstrip_rev (r : bytes) : bytes :=
  match r with
  | [] => []
  | c :: r' => if byte_isdigit c then r else rstrip_rev r'
  end.
Definition rstrip_nondigit (b : bytes) : bytes :=
  List.rev (rstrip_rev (List.rev b)).

(* ================================================================= *)
(** ** The process and its standard output *)

(** A [BufferedReader] over the pipe: the bytes already buffered and the
    chunks later reads of the pipe will deliver ([[]]: end of file). *)
Record BufferedReader := {
  buffered : bytes;
  raw : list bytes
}.

(** The first line of [b] with its newline, and the rest. *)
Fixpoint cut_line (b : bytes) : option (bytes * bytes) :=
  match b with
  | [] => None
  | c :: rest =>
      if Byte.eqb c newline then Some ([c], rest)
      else match cut_line rest with
           | Some (l, r) => Some (c :: l, r)
           | None => None
           end
  end.

(** [readline()]: up to and including the next newline, reading the pipe
    while the buffer holds none; at end of file, what is left. *)
Fixpoint readline_from (buf : bytes) (chunks : list bytes)
  : bytes * BufferedReader :=
  match cut_line buf with
  | Some (l, rest) => (l, {| buffered := rest; raw := chunks |})
  | None =>
      match chunks with
      | [] => (buf, {| buffered := []; raw := [] |})
      | chunk :: chunks' => readline_from (buf ++ chunk) chunks'
      end
  end.
Definition readline (r : BufferedReader) : bytes * BufferedReader :=
  readline_from (buffered r) (raw r).

(** [peek()]: the buffered bytes, without consuming them; one read of the
    pipe when the buffer is empty. *)
Definition peek (r : BufferedReader) : bytes * BufferedReader :=
  match buffered r with
  | [] =>
      match raw r with
      | [] => ([], r)
      | chunk :: chunks' => (chunk, {| buffered := chunk; raw := chunks' |})
      end
  | b => (b, r)
  end.

(** A [subprocess.Popen] object. *)
Record Popen := {
  stdout : BufferedReader;
  running : bool
}.

Definition kill (c : Popen) : Popen :=
  {| stdout := stdout c; running := false |}.

(* ================================================================= *)
(** ** [class Ping] *)

(** A [Ping] object; [ping_command = None] is the attribute not being set. *)
Record Ping := {
  host : string;
  ipv6 : bool;
  adaptive : bool;
  timestamp : bool;
  ping_command : option Popen
}.

Definition with_ping_command (p : Ping) (c : Popen) : Ping :=
  {| host := host p; ipv6 := ipv6 p; adaptive := adaptive p;
     timestamp := timestamp p; ping_command := Some c |}.

(** The objects: a [Ping] is referred to by its position. *)
Abbreviation heap := (list Ping).

(** [Ping.__init__] *)
Definition Ping_init (E : Env) (host_arg : string) (ipv6_arg : option bool)
    (adaptive_arg timestamp_arg : bool) : M heap nat :=
  fun h =>
    match getaddrinfo E host_arg ipv6_arg with
    | None => Raise FindAddressError h
    | Some ip =>
        Ret (List.length h)
            (h ++ [{| host := ip; ipv6 := ip_is_v6 E ip;
                      adaptive := adaptive_arg; timestamp := timestamp_arg;
                      ping_command := None |}])
    end.

(** Following a reference.  A reference to no object cannot arise in
    Python; the model gives it [SystemError]. *)
Definition deref (self : nat) : M heap Ping :=
  fun h => match h !! self with
           | Some p => Ret p h
           | None => Raise SystemError h
           end.

(** [self.ping_command = c] *)
Definition set_ping_command (self : nat) (c : Popen) : M heap unit :=
  do p <- deref self;
  fun h => Ret tt (<[self := with_ping_command p c]> h).

(** [self.ping_command] *)
Definition get_ping_command (self : nat) : M heap Popen :=
  do p <- deref self;
  match ping_command p with
  | Some c => ret c
  | None => raise AttributeError
  end.

(** [self.ping_command.stdout.readline()] *)
Definition stdout_readline (self : nat) : M heap bytes :=
  do c <- get_ping_command self;
  let '(l, r) := readline (stdout c) in
  set_ping_command self {| stdout := r; running := running c |} ;;
  ret l.

(** [self.ping_command.stdout.peek()] *)
Definition stdout_peek (self : nat) : M heap bytes :=
  do c <- get_ping_command self;
  let '(data, r) := peek (stdout c) in
  set_ping_command self {| stdout := r; running := running c |} ;;
  ret data.

(** [Ping.__run_ping]: the process started by object [self]. *)
Definition run_ping (E : Env) (self : nat) (count : option Z) : M heap Popen :=
  if platform_windows E then raise NotImplementedError
  else ret {| stdout := {| buffered := []; raw := ping_output E self |};
              running := true |}.

(** The generator object made by [Ping.ping(packets, latest)]. *)
Inductive counter :=
| Count               (* itertools.count() *)
| Range (left : nat). (* what is left of range(packets) *)

Inductive gen_pc :=
| Created
| Suspended (c : counter)
| Finished.

Record generator := {
  gen_self : nat;
  packets : option Z;
  latest : bool;
  pc : gen_pc
}.

Definition with_pc (g : generator) (p : gen_pc) : generator :=
  {| gen_self := gen_self g; packets := packets g; latest := latest g;
     pc := p |}.

(** [self.ping(packets, latest)]: nothing runs before the first [next]. *)
Definition ping (self : nat) (packets_arg : option Z) (latest_arg : bool)
  : generator :=
  {| gen_self := self; packets := packets_arg; latest := latest_arg;
     pc := Created |}.

(** Lines 161 and 162: [while peek().count(b'\n') > 1: line = readline().split()] *)
Fixpoint skip_stale (fuel : nat) (self : nat) (line : list pyval)
  : M heap (list pyval) :=
  match fuel with
  | O => fun _ => Diverge
  | S fuel' =>
      do data <- stdout_peek self;
      if (1 <? count_newlines data)%nat
      then do l <- stdout_readline self; skip_stale fuel' self (py_split l)
      else ret line
  end.

(** Lines 159 to 164: the line this iteration parses. *)
Definition read_line (fuel : nat) (g : generator) : M heap (list pyval) :=
  if bool_decide (packets g = None) && latest g
  then do l <- stdout_readline (gen_self g);
       skip_stale fuel (gen_self g) (py_split l)
  else do l <- stdout_readline (gen_self g); ret (py_split l).

(** Lines 152 to 157: what runs once, at the first [next]. *)
Definition gen_start (E : Env) (g : generator) : M heap counter :=
  do c <- run_ping E (gen_self g) (packets g);
  set_ping_command (gen_self g) c ;;
  stdout_readline (gen_self g) ;;
  ret (match packets g with
       | None => Count
       | Some k => Range (Z.to_nat k)
       end).

(** One turn of [for _ in counter], up to the [yield]; line 175,
    [raise StopIteration()], when the counter is used up. *)
Definition gen_iteration (E : Env) (fuel : nat) (g : generator) (c : counter)
  : M heap (sample * counter) :=
  match c with
  | Range O => raise StopIteration
  | Range (S n) =>
      do line <- read_line fuel g;
      do s <- lift (parse_line E fuel line);
      ret (s, Range n)
  | Count =>
      do line <- read_line fuel g;
      do s <- lift (parse_line E fuel line);
      ret (s, Count)
  end.

(** The body from where the generator stands, up to its next [yield]. *)
Definition gen_body (E : Env) (fuel : nat) (g : generator)
  : M heap (sample * counter) :=
  match pc g with
  | Created => do c <- gen_start E g; gen_iteration E fuel g c
  | Suspended c => gen_iteration E fuel g c
  | Finished => raise StopIteration
  end.

(** An exception that leaves the body of a generator: the interpreter
    (Python 3.7 and later) hands a [StopIteration] raised inside the body to
    the caller as [RuntimeError: generator raised StopIteration]; any other
    exception passes as it is. *)
Definition leaving_body (e : exn) : exn :=
  if decide (e = StopIteration) then RuntimeError else e.

(** [g.__next__()]: a finished generator raises [StopIteration]; otherwise
    the body runs to its next [yield], and an exception leaving the body
    finishes the generator. *)
Definition next (E : Env) (fuel : nat) : M (heap * generator) sample :=
  fun '(h, g) =>
    match pc g with
    | Finished => Raise StopIteration (h, with_pc g Finished)
    | _ =>
        match gen_body E fuel g h with
        | Ret (s, c) h' => Ret s (h', with_pc g (Suspended c))
        | Raise e h' => Raise (leaving_body e) (h', with_pc g Finished)
        | Diverge => Diverge
        end
    end.

(** [Ping.stop] *)
Definition Ping_stop (self : nat) : M heap unit :=
  try_except
    (do c <- get_ping_command self; set_ping_command self (kill c))
    AttributeError
    (ret tt).

(** The reader after [j] calls of [readline], and the line the next call
    returns. *)
Definition reader_after (j : nat) (r : BufferedReader) : BufferedReader :=
  Nat.iter j (fun r' => snd (readline r')) r.
Definition nth_line (j : nat) (r : BufferedReader) : bytes :=
  fst (readline (reader_after j r)).

(** The standard output of the process of object [self], if it has one. *)
Definition stdout_of (self : nat) (h : heap) : option BufferedReader :=
  match h !! self with
  | Some p => option_map stdout (ping_command p)
  | None => None
  end.

(** The process of object [self] is not running (or there is none). *)
Definition no_running_process (self : nat) (h : heap) : Prop :=
  forall p c, h !! self = Some p -> ping_command p = Some c -> running c = false.

(* ================================================================= *)
(** ** Python lists: indexing, [pop], [index] *)

(** The position an index denotes in a list of length [n]: negative
    indices count from the end. *)
Definition norm_index (n : nat) (i : Z) : option nat :=
  if (0 <=? i) && (i <? Z.of_nat n) then Some (Z.to_nat i)
  else if (- Z.of_nat n <=? i) && (i <? 0) then Some (Z.to_nat (Z.of_nat n + i))
  else None.

(** [l[i]] *)
Definition py_getitem {A} (l : list A) (i : Z) : outcome (nat * A) :=
  match norm_index (List.length l) i with
  | Some k => match l !! k with
              | Some x => Val (k, x)
              | None => Exc IndexError
              end
  | None => Exc IndexError
  end.

(** [l.pop(i)]: the list without the element. *)
Definition py_pop {A} (l : list A) (i : Z) : outcome (list A) :=
  match norm_index (List.length l) i with
  | Some k => Val (delete k l)
  | None => Exc IndexError
  end.

(** [l.index(x)] for a list of strings. *)
Fixpoint index_of (x : string) (l : list string) : option nat :=
  match l with
  | [] => None
  | y :: rest => if bool_decide (y = x) then Some O
                 else option_map S (index_of x rest)
  end.

(* ================================================================= *)
(** ** [class PingTest] *)

(** What an [address] argument can hold: [None], an [int], a [str], and,
    after [__get_address_index], a [float]. *)
Inductive pyobj :=
| ONone
| OInt (i : Z)
| OStr (s : string)
| OFloat (q : Q).

Definition obj_of_time (t : option Q) : pyobj :=
  match t with
  | Some q => OFloat q
  | None => ONone
  end.

(** [self.__times] holds the generators, [self.__pings] the [Ping]
    objects the generators were made from. *)
Record PingTest := {
  addresses : list string;
  times : list generator;
  pings : list nat;
  responses : list (list (option Q))
}.

Record world := {
  objects : heap;
  ledger : PingTest
}.

Definition set_objects (h : heap) (w : world) : world :=
  {| objects := h; ledger := ledger w |}.
Definition set_addresses (l : list string) (w : world) : world :=
  {| objects := objects w;
     ledger := {| addresses := l; times := times (ledger w);
                  pings := pings (ledger w);
                  responses := responses (ledger w) |} |}.
Definition set_times (l : list generator) (w : world) : world :=
  {| objects := objects w;
     ledger := {| addresses := addresses (ledger w); times := l;
                  pings := pings (ledger w);
                  responses := responses (ledger w) |} |}.
Definition set_pings (l : list nat) (w : world) : world :=
  {| objects := objects w;
     ledger := {| addresses := addresses (ledger w);
                  times := times (ledger w); pings := l;
                  responses := responses (ledger w) |} |}.
Definition set_responses (l : list (list (option Q))) (w : world) : world :=
  {| objects := objects w;
     ledger := {| addresses := addresses (ledger w);
                  times := times (ledger w); pings := pings (ledger w);
                  responses := l |} |}.

(** A step on the objects, run in the world. *)
Definition on_objects {A} (m : M heap A) : M world A :=
  fun w => match m (objects w) with
           | Ret a h => Ret a (set_objects h w)
           | Raise e h => Raise e (set_objects h w)
           | Diverge => Diverge
           end.

(** [PingTest.__init__]: the loop over [addresses]. *)
Fixpoint init_loop (E : Env) (latest_arg : bool) (addrs : list string)
  : M world unit :=
  match addrs with
  | [] => ret tt
  | address :: rest =>
      do p <- on_objects (Ping_init E address None true false);
      (fun w => Ret tt (set_pings (pings (ledger w) ++ [p]) w)) ;;
      (fun w => Ret tt (set_times (times (ledger w) ++ [ping p None latest_arg]) w)) ;;
      (fun w => Ret tt (set_responses (responses (ledger w) ++ [[]]) w)) ;;
      init_loop E latest_arg rest
  end.

Definition PingTest_init (E : Env) (addrs : list string) (latest_arg : bool)
  : M heap PingTest :=
  fun h =>
    match init_loop E latest_arg addrs
            {| objects := h;
               ledger := {| addresses := addrs; times := []; pings := [];
                            responses := [] |} |} with
    | Ret _ w => Ret (ledger w) (objects w)
    | Raise e w => Raise e (objects w)
    | Diverge => Diverge
    end.

(** [self.__times[address].__next__()] *)
Definition advance (E : Env) (fuel : nat) (address : Z) : M world sample :=
  fun w =>
    match py_getitem (times (ledger w)) address with
    | Val (k, g) =>
        match next E fuel (objects w, g) with
        | Ret s (h, g') =>
            Ret s (set_times (<[k := g']> (times (ledger w))) (set_objects h w))
        | Raise e (h, g') =>
            Raise e (set_times (<[k := g']> (times (ledger w))) (set_objects h w))
        | Diverge => Diverge
        end
    | Exc e => Raise e w
    | Loop => Diverge
    end.

(** [self.responses[address].append(response)] *)
Definition record_response (address : Z) (response : option Q) : M world unit :=
  fun w =>
    match py_getitem (responses (ledger w)) address with
    | Val (k, hist) =>
        Ret tt (set_responses (<[k := hist ++ [response]]> (responses (ledger w))) w)
    | Exc e => Raise e w
    | Loop => Diverge
    end.

(** [PingTest.get(address)] for an [int]: [__get_address_index] returns it
    as it is and the [isinstance(address, int)] branch runs (lines 73 to
    76). *)
Definition get_int (E : Env) (fuel : nat) (address : Z) : M world (option Q) :=
  do s <- advance E fuel address;
  let response := snd s in
  record_response address response ;;
  ret response.

(** [self.addresses.index(address)] *)
Definition addresses_index (address : pyobj) : M world Z :=
  fun w =>
    match address with
    | OStr s => match index_of s (addresses (ledger w)) with
                | Some k => Ret (Z.of_nat k) w
                | None => Raise ValueError w
                end
    | _ => Raise ValueError w
    end.

(** [PingTest.__get_address_index]: line 60 returns [self.get(...)] of the
    index found, not the index. *)
Definition get_address_index (E : Env) (fuel : nat) (address : pyobj)
  : M world pyobj :=
  match address with
  | ONone | OInt _ => ret address
  | _ =>
      do idx <- addresses_index address;
      do r <- get_int E fuel idx;
      ret (obj_of_time r)
  end.

(** What [get] and the statistics return: one value or a list. *)
Inductive reply :=
| One (t : option Q)
| Many (l : list (option Q)).

(** Lines 77 to 80: [for index in range(...): answer.append(self.get(index))] *)
Fixpoint get_each (E : Env) (fuel : nat) (indices : list nat)
  : M world (list (option Q)) :=
  match indices with
  | [] => ret []
  | index :: rest =>
      do r <- get_int E fuel (Z.of_nat index);
      do answer <- get_each E fuel rest;
      ret (r :: answer)
  end.

(** [PingTest.get] *)
Definition get (E : Env) (fuel : nat) (address : pyobj) : M world reply :=
  do address <- get_address_index E fuel address;
  match address with
  | OInt i => do r <- get_int E fuel i; ret (One r)
  | _ =>
      do w <- get_store;
      do answer <- get_each E fuel (seq 0 (List.length (times (ledger w))));
      ret (Many answer)
  end.

(** ** Statistics *)

Definition Qltb (x y : Q) : bool := negb (Qle_bool y x).

(** [a < b] on values that may be [None]. *)
Definition py_lt (a b : option Q) : outcome bool :=
  match a, b with
  | Some x, Some y => Val (Qltb x y)
  | _, _ => Exc TypeError
  end.

(** [min(l)]: keeps the first least item. *)
Fixpoint min_loop (cur : option Q) (rest : list (option Q))
  : outcome (option Q) :=
  match rest with
  | [] => Val cur
  | item :: rest' =>
      let* b := py_lt item cur in
      min_loop (if b then item else cur) rest'
  end.
Definition py_min (l : list (option Q)) : outcome (option Q) :=
  match l with
  | [] => Exc ValueError
  | x :: rest => min_loop x rest
  end.

(** [max(l)]: keeps the first greatest item. *)
Fixpoint max_loop (cur : option Q) (rest : list (option Q))
  : outcome (option Q) :=
  match rest with
  | [] => Val cur
  | item :: rest' =>
      let* b := py_lt cur item in
      max_loop (if b then item else cur) rest'
  end.
Definition py_max (l : list (option Q)) : outcome (option Q) :=
  match l with
  | [] => Exc ValueError
  | x :: rest => max_loop x rest
  end.

(** [round(x)] on a fraction: the nearest integer, the even one of the two
    when [x] lies half way. *)
Definition round_half_even (x : Q) : Z :=
  let f := Qfloor x in
  match (x - inject_Z f ?= 1 # 2)%Q with
  | Lt => f
  | Gt => f + 1
  | Eq => if Z.even f then f else f + 1
  end.

(** For [0 < q], the exponent [e] with [2^e <= q < 2^(e+1)]. *)
Definition binade (q : Q) : Z :=
  let e := Z.log2 (Qnum q) - Z.log2 (Zpos (Qden q)) in
  if Qle_bool (2 ^ e) q then e else e - 1.

(** [float(q)] for a [Fraction] [q], that is [numerator / denominator] on
    [int]s: the binary64 number nearest to the quotient, with 53 bits
    above the unit [2^e] of the last place, [e] not below [-1074], the even
    one of two at the same distance; [OverflowError] when that is [2^1024]
    or more.  A float is modelled by the rational it denotes. *)
Definition float_of_fraction (q : Q) : outcome Q :=
  if Qeq_bool q 0 then Val 0%Q
  else
    let e := Z.max (binade (Qabs q) - 52) (-1074) in
    let r := (inject_Z (round_half_even (q / 2 ^ e)) * 2 ^ e)%Q in
    if Qle_bool (2 ^ 1024) (Qabs r) then Exc OverflowError else Val (Qred r).

(** [statistics.mean(l)]: the exact sum of the items as fractions, over
    their number, converted back to a [float]. *)
Fixpoint exact_sum (l : list (option Q)) : outcome Q :=
  match l with
  | [] => Val 0%Q
  | None :: _ => Exc TypeError
  | Some x :: rest => let* s := exact_sum rest in Val (x + s)%Q
  end.
Definition py_mean (l : list (option Q)) : outcome (option Q) :=
  match l with
  | [] => Exc StatisticsError
  | _ => let* total := exact_sum l in
         let* r := float_of_fraction
                     (total / inject_Z (Z.of_nat (List.length l))) in
         Val (Some r)
  end.

(** [PingTest._do_stat(stat, address)] for an [int] (line 91). *)
Definition do_stat_int (stat : list (option Q) -> outcome (option Q))
    (address : Z) : M world (option Q) :=
  fun w =>
    match py_getitem (responses (ledger w)) address with
    | Val (_, hist) => lift (stat hist) w
    | Exc e => Raise e w
    | Loop => Diverge
    end.

Fixpoint do_stat_each (stat : list (option Q) -> outcome (option Q))
    (indices : list nat) : M world (list (option Q)) :=
  match indices with
  | [] => ret []
  | index :: rest =>
      do r <- do_stat_int stat (Z.of_nat index);
      do answers <- do_stat_each stat rest;
      ret (r :: answers)
  end.

(** [PingTest._do_stat] *)
Definition do_stat (E : Env) (fuel : nat)
    (stat : list (option Q) -> outcome (option Q)) (address : pyobj)
  : M world reply :=
  do address <- get_address_index E fuel address;
  match address with
  | OInt i => do r <- do_stat_int stat i; ret (One r)
  | _ =>
      do w <- get_store;
      do answers <- do_stat_each stat (seq 0 (List.length (times (ledger w))));
      ret (Many answers)
  end.

Definition fastest (E : Env) (fuel : nat) (address : pyobj) : M world reply :=
  do_stat E fuel py_min address.
Definition slowest (E : Env) (fuel : nat) (address : pyobj) : M world reply :=
  do_stat E fuel py_max address.
Definition mean (E : Env) (fuel : nat) (address : pyobj) : M world reply :=
  do_stat E fuel py_mean address.

(** [PingTest.stop] *)
Fixpoint stop_each (l : list nat) : M heap unit :=
  match l with
  | [] => ret tt
  | p :: rest => Ping_stop p ;; stop_each rest
  end.
Definition stop : M world unit :=
  fun w => on_objects (stop_each (pings (ledger w))) w.

(** [l.pop(index)] and [l[index]] where [index] is any object: only an
    [int] is an index. *)
Definition pop_at {A} (l : list A) (index : pyobj) : outcome (list A) :=
  match index with
  | OInt i => py_pop l i
  | _ => Exc TypeError
  end.
Definition item_at {A} (l : list A) (index : pyobj) : outcome A :=
  match index with
  | OInt i => let* kx := py_getitem l i in Val (snd kx)
  | _ => Exc TypeError
  end.

(** Lines 133 to 137 of [pingtest.py]: the body of [remove] once [index] is
    bound. *)
Definition remove_at (index : pyobj) : M world unit :=
  (fun w => match pop_at (addresses (ledger w)) index with
            | Val l => Ret tt (set_addresses l w)
            | Exc e => Raise e w
            | Loop => Diverge
            end) ;;
  (fun w => match pop_at (times (ledger w)) index with
            | Val l => Ret tt (set_times l w)
            | Exc e => Raise e w
            | Loop => Diverge
            end) ;;
  do p <- (fun w => lift (item_at (pings (ledger w)) index) w);
  on_objects (Ping_stop p) ;;
  (fun w => match pop_at (pings (ledger w)) index with
            | Val l => Ret tt (set_pings l w)
            | Exc e => Raise e w
            | Loop => Diverge
            end) ;;
  (fun w => match pop_at (responses (ledger w)) index with
            | Val l => Ret tt (set_responses l w)
            | Exc e => Raise e w
            | Loop => Diverge
            end).

(** [PingTest.remove] *)
Definition remove (E : Env) (fuel : nat) (address : pyobj) : M world unit :=
  do index <- get_address_index E fuel address;
  remove_at index.

(** The sum of a history of times, and their arithmetic mean. *)
Definition Qsum (qs : list Q) : Q := fold_right Qplus 0%Q qs.
Definition arithmetic_mean (qs : list Q) : Q :=
  (Qsum qs / inject_Z (Z.of_nat (List.length qs)))%Q.

(** The rationals that are binary64 numbers: [m * 2^e] with [|m| < 2^53]
    and [-1074 <= e <= 971]; the largest of them. *)
Definition is_float (d : Q) : Prop :=
  exists m e : Z,
    Z.abs m < 2 ^ 53 /\ -1074 <= e <= 971 /\ (d == inject_Z m * 2 ^ e)%Q.
Definition max_float : Q := (inject_Z (2 ^ 53 - 1) * 2 ^ 971)%Q.

(** The lines [next] parses are the result of [split]. *)
Definition is_split (line : list pyval) : Prop :=
  exists raw_line, line = py_split raw_line.

(** Every recorded time is a number. *)
Definition history_ok (w : world) : Prop :=
  Forall (Forall (fun t : option Q => is_Some t)) (responses (ledger w)).

(** The four lists of the ledger have one length, the [Ping] objects
    exist, and the generator of an entry is the one of its [Ping] object. *)
Definition ledger_wf (w : world) : Prop :=
  let n := List.length (addresses (ledger w)) in
  List.length (times (ledger w)) = n
  /\ List.length (pings (ledger w)) = n
  /\ List.length (responses (ledger w)) = n
  /\ Forall (fun p => (p < List.length (objects w))%nat) (pings (ledger w))
  /\ (forall k g p, times (ledger w) !! k = Some g ->
                    pings (ledger w) !! k = Some p -> gen_self g = p).

(** Between [w] and [w'] nothing changed but the entry at position [k] and
    the object [p]: the addresses and the [Ping] objects of the ledger are
    the same, and so are the streams and histories of the other entries and
    the other objects. *)
Definition only_entry_changed (k p : nat) (w w' : world) : Prop :=
  addresses (ledger w') = addresses (ledger w)
  /\ pings (ledger w') = pings (ledger w)
  /\ (forall j, j <> k ->
        times (ledger w') !! j = times (ledger w) !! j
        /\ responses (ledger w') !! j = responses (ledger w) !! j)
  /\ (forall q, q <> p -> objects w' !! q = objects w !! q).

(** A generator made without a packet count, wherever it stands. *)
Definition unbounded_gen (g : generator) : Prop :=
  packets g = None
  /\ (pc g = Created \/ pc g = Suspended Count \/ pc g = Finished).

(** The number of objects. *)
Definition has_length (n : nat) (h : heap) : Prop := List.length h = n.

(** The objects when the process of [self], an object [p] of [h0], runs
    with reader [r]. *)
Definition running_with (h0 : heap) (self : nat) (p : Ping)
    (r : BufferedReader) : heap :=
  <[self := with_ping_command p {| stdout := r; running := true |}]> h0.

(** Where a generator made with packet count [K] can be after [j] calls. *)
Definition bounded_inv (g0 : generator) (K j : nat) (st : heap * generator)
  : Prop :=
  (j = O /\ snd st = g0)
  \/ pc (snd st) = Finished
  \/ pc (snd st) = Suspended (Range (K - j)).

(** What a step can return, and what it keeps true of the store. *)
Definition yields {S A} (m : M S A) (Q : A -> Prop) : Prop :=
  forall s a s', m s = Ret a s' -> Q a.
Definition keeps {S A} (P : S -> Prop) (m : M S A) : Prop :=
  forall s, P s -> forall s', store_after (m s) = Some s' -> P s'.
Definition unchanged {S A} (m : M S A) : Prop :=
  forall s s', store_after (m s) = Some s' -> s' = s.

(** ** The states a ledger can reach *)

Inductive operation :=
| OpGet (address : pyobj)
| OpFastest (address : pyobj)
| OpSlowest (address : pyobj)
| OpMean (address : pyobj)
| OpStop
| OpRemove (address : pyobj).

Definition run (E : Env) (fuel : nat) (o : operation) (w : world)
  : option world :=
  match o with
  | OpGet a => store_after (get E fuel a w)
  | OpFastest a => store_after (fastest E fuel a w)
  | OpSlowest a => store_after (slowest E fuel a w)
  | OpMean a => store_after (mean E fuel a w)
  | OpStop => store_after (stop w)
  | OpRemove a => store_after (remove E fuel a w)
  end.

(** A world is reachable when a ledger was constructed and operations were
    called on it, each returning or raising. *)
Inductive reachable (E : Env) : world -> Prop :=
| reach_init addrs latest_arg h0 pt h :
    PingTest_init E addrs latest_arg h0 = Ret pt h ->
    reachable E {| objects := h; ledger := pt |}
| reach_step w fuel o w' :
    reachable E w ->
    run E fuel o w = Some w' ->
    reachable E w'.

(* ================================================================= *)
(** ** A concrete environment, for evaluating the code on examples *)

Module Example.

Definition digit_val (c : byte) : Z := Z.of_N (Byte.to_N c) - 48.

Fixpoint digits_val (acc : Z) (b : bytes) : option Z :=
  match b with
  | [] => Some acc
  | c :: rest =>
      if byte_isdigit c then digits_val (10 * acc + digit_val c) rest
      else None
  end.

Definition dec_nat (b : bytes) : option Z :=
  match b with
  | [] => None
  | _ => digits_val 0 b
  end.

(** Decimal integer literals with an optional sign. *)
Definition dec_int (b : bytes) : option Z :=
  match b with
  | c :: rest =>
      if Byte.eqb c x2d then option_map Z.opp (dec_nat rest)
      else if Byte.eqb c x2b then dec_nat rest
      else dec_nat b
  | [] => None
  end.

Fixpoint cut_dot (b : bytes) : bytes * option bytes :=
  match b with
  | [] => ([], None)
  | c :: rest =>
      if Byte.eqb c x2e then ([], Some rest)
      else let '(i, f) := cut_dot rest in (c :: i, f)
  end.

(** Decimal literals [digits], [digits.digits] with an optional sign. *)
Definition dec_unsigned (b : bytes) : option Q :=
  match cut_dot b with
  | (i, None) => option_map inject_Z (dec_nat i)
  | (i, Some f) =>
      match digits_val 0 i, digits_val 0 f with
      | Some iv, Some fv =>
          if (List.length i + List.length f =? 0)%nat then None
          else
            let scale := 10 ^ Z.of_nat (List.length f) in
            Some (Qred (Qmake (iv * scale + fv) (Z.to_pos scale)))
      | _, _ => None
      end
  end.

Definition dec_float (b : bytes) : option Q :=
  match b with
  | c :: rest =>
      if Byte.eqb c x2d then option_map Qopp (dec_unsigned rest)
      else if Byte.eqb c x2b then dec_unsigned rest
      else dec_unsigned b
  | [] => None
  end.

(** Every process writes [script], in one chunk per element. *)
Definition env (script : nat -> list bytes) : Env :=
  {| int_of_bytes := dec_int;
     float_of_bytes := dec_float;
     platform_windows := false;
     getaddrinfo := fun h _ => Some h;
     ip_is_v6 := fun _ => false;
     ping_output := script |}.

Definition banner : bytes :=
  B "PING 10.0.0.1 (10.0.0.1) 56(84) bytes of data." ++ [newline].
Definition reply_line (n t : string) : bytes :=
  B "64 bytes from 10.0.0.1: icmp_seq=" ++ B n ++ B " ttl=64 time="
    ++ B t ++ B " ms" ++ [newline].
Definition unreachable_line (n : string) : bytes :=
  B "From 10.0.0.7 icmp_seq=" ++ B n ++ B " Destination Host Unreachable"
    ++ [newline].

(** A started [Ping] object whose process has [buf] buffered and [chunks]
    still to come. *)
Definition started (buf : bytes) (chunks : list bytes) : Ping :=
  {| host := "10.0.0.1"; ipv6 := false; adaptive := true;
     timestamp := false;
     ping_command := Some {| stdout := {| buffered := buf; raw := chunks |};
                             running := true |} |}.

(** A [Ping] object whose [ping()] has not run yet. *)
Definition unstarted : Ping :=
  {| host := "10.0.0.1"; ipv6 := false; adaptive := true;
     timestamp := false; ping_command := None |}.

(** A process that writes the banner and two replies at once. *)
Definition two_replies : Env :=
  env (fun _ => [banner ++ reply_line "1" "10.5" ++ reply_line "2" "20.25"]).
Definition two_samples (j : nat) : sample :=
  match j with
  | O => (1, Some (21 # 2)%Q)
  | _ => (2, Some (81 # 4)%Q)
  end.

(** Two hosts answering at different speeds. *)
Definition two_hosts : Env :=
  env (fun self =>
         match self with
         | O => [banner ++ reply_line "1" "10.5" ++ reply_line "2" "20.25"
                   ++ reply_line "3" "30.75"]
         | _ => [banner ++ reply_line "1" "7.5" ++ reply_line "2" "8.5"
                   ++ reply_line "3" "9.5"]
         end).

(** A ledger with one entry and three recorded times. *)
Definition one_entry : world :=
  {| objects := [unstarted];
     ledger := {| addresses := ["a"]; times := [ping 0 None false];
                  pings := [0%nat];
                  responses := [map Some [10; 20; 30]%Q] |} |}.

(** The ledger [PingTest(["a", "b"])] after [get(0)]. *)
Definition two_entries : world :=
  match PingTest_init two_hosts ["a"; "b"] false [] with
  | Ret pt h => {| objects := h; ledger := pt |}
  | _ => one_entry
  end.
(** The ledger [PingTest(["a", "b", "c"])] before any call. *)
Definition three_entries : world :=
  match PingTest_init two_hosts ["a"; "b"; "c"] false [] with
  | Ret pt h => {| objects := h; ledger := pt |}
  | _ => one_entry
  end.
Definition after_get : world :=
  match get two_hosts 20 (OInt 0) two_entries with
  | Ret _ w => w
  | _ => two_entries
  end.

(** An unbounded latest-only generator of object 0, suspended at its
    [yield]. *)
Definition latest_gen : generator :=
  with_pc (ping 0 None true) (Suspended Count).

(** The same on Windows. *)
Definition on_windows : Env :=
  {| int_of_bytes := dec_int;
     float_of_bytes := dec_float;
     platform_windows := true;
     getaddrinfo := fun h _ => Some h;
     ip_is_v6 := fun _ => false;
     ping_output := fun _ => [] |}.

(** A resolver that knows every host but ["nowhere"]. *)
Definition one_unknown : Env :=
  {| int_of_bytes := dec_int;
     float_of_bytes := dec_float;
     platform_windows := false;
     getaddrinfo := fun h _ => if bool_decide (h = "nowhere") then None
                               else Some h;
     ip_is_v6 := fun _ => false;
     ping_output := fun _ => [] |}.

(** A process that writes, after its banner, a line that is no reply. *)
Definition garbled : Env :=
  env (fun _ => [banner ++ B "ping: sendmsg: Network is unreachable"
                   ++ [newline]]).

End Example.

(* ================================================================= *)
(** * Properties *)

(** ** Reasoning about steps *)

Lemma yields_bind {S A C} (m : M S A) (k : A -> M S C) (Q1 : A -> Prop)
    (Q : C -> Prop) :
  yields m Q1 -> (forall a, Q1 a -> yields (k a) Q) -> yields (bind m k) Q.
Proof.
  intros Hm Hk s c s'. unfold bind.
  destruct (m s) as [a s1|e s1|] eqn:Hms; try done.
  intros H. eapply Hk; eauto.
Qed.

Lemma yields_any {S A} (m : M S A) : yields m (fun _ => True).
Proof. by intros s a s' _. Qed.

Lemma yields_ret {S A} (a : A) (Q : A -> Prop) : Q a -> yields (@ret S A a) Q.
Proof. intros Ha s a' s'. unfold ret. by intros [= <- _]. Qed.

Lemma yields_raise {S A} (e : exn) (Q : A -> Prop) : yields (@raise S A e) Q.
Proof. by intros s a s'. Qed.

Lemma yields_lift {S A} (o : outcome A) (Q : A -> Prop) :
  (forall a, o = Val a -> Q a) -> yields (@lift S A o) Q.
Proof.
  intros Ho s a s'. unfold lift. destruct o as [a'| |]; try done.
  intros [= <- _]. by apply Ho.
Qed.

Lemma keeps_bind {S A C} (P : S -> Prop) (m : M S A) (k : A -> M S C) :
  keeps P m -> (forall a, keeps P (k a)) -> keeps P (bind m k).
Proof.
  intros Hm Hk s Hs s'. unfold bind.
  destruct (m s) as [a s1|e s1|] eqn:Hms.
  - intros H. eapply Hk; [|exact H]. eapply Hm; [exact Hs|]. by rewrite Hms.
  - simpl. intros [= <-]. eapply Hm; [exact Hs|]. by rewrite Hms.
  - done.
Qed.

Lemma keeps_unchanged {S A} (P : S -> Prop) (m : M S A) :
  unchanged m -> keeps P m.
Proof. intros Hm s Hs s' Hs'. by rewrite (Hm s s' Hs'). Qed.

Lemma unchanged_ret {S A} (a : A) : unchanged (@ret S A a).
Proof. intros s s'. simpl. by intros [= <-]. Qed.

Lemma unchanged_raise {S A} (e : exn) : unchanged (@raise S A e).
Proof. intros s s'. simpl. by intros [= <-]. Qed.

Lemma unchanged_lift {S A} (o : outcome A) : unchanged (@lift S A o).
Proof. intros s s'. unfold lift. destruct o; simpl; by intros [= <-]. Qed.

Lemma unchanged_bind {S A C} (m : M S A) (k : A -> M S C) :
  unchanged m -> (forall a, unchanged (k a)) -> unchanged (bind m k).
Proof.
  intros Hm Hk s s'. unfold bind.
  destruct (m s) as [a s1|e s1|] eqn:Hms.
  - intros H. rewrite (Hk a s1 s' H). apply Hm. by rewrite Hms.
  - simpl. intros [= <-]. apply Hm. by rewrite Hms.
  - done.
Qed.

Lemma keeps_ret {S A} (P : S -> Prop) (a : A) : keeps P (ret a).
Proof. apply keeps_unchanged, unchanged_ret. Qed.

Lemma keeps_try_except {S A} (P : S -> Prop) (m h : M S A) (e : exn) :
  keeps P m -> keeps P h -> keeps P (try_except m e h).
Proof.
  intros Hm Hh s Hs s'. unfold try_except.
  destruct (m s) as [a s1|e' s1|] eqn:Hms.
  - simpl. intros [= <-]. eapply Hm; [exact Hs|]. by rewrite Hms.
  - assert (Hs1 : P s1) by (eapply Hm; [exact Hs|]; by rewrite Hms).
    destruct (decide (e' = e)); [by apply Hh|].
    simpl. by intros [= <-].
  - done.
Qed.

(** ** The unit-stripping loop *)

Lemma last_slice_snoc (t : bytes) (c : byte) : last_slice (t ++ [c]) = [c].
Proof. unfold last_slice. by rewrite List.rev_app_distr. Qed.

Lemma drop_last_snoc (t : bytes) (c : byte) : drop_last (t ++ [c]) = t.
Proof. unfold drop_last. apply removelast_last. Qed.

Lemma isdigit_single (c : byte) : isdigit [c] = byte_isdigit c.
Proof. unfold isdigit. simpl. by rewrite andb_true_r. Qed.

Lemma strip_units_nil fuel : strip_units fuel [] = Loop.
Proof. induction fuel as [|fuel IH]; [done|]. simpl. exact IH. Qed.

Lemma strip_units_snoc fuel (t : bytes) (c : byte) :
  strip_units (S fuel) (t ++ [c]) =
  if byte_isdigit c then Val (t ++ [c]) else strip_units fuel t.
Proof.
  cbn [strip_units]. rewrite last_slice_snoc, isdigit_single, drop_last_snoc.
  by destruct (byte_isdigit c).
Qed.

Lemma has_digit_snoc (t : bytes) (c : byte) :
  has_digit (t ++ [c]) = has_digit t || byte_isdigit c.
Proof. unfold has_digit. rewrite existsb_app. simpl. by rewrite orb_false_r. Qed.

Lemma rstrip_nondigit_snoc (t : bytes) (c : byte) :
  rstrip_nondigit (t ++ [c]) =
  if byte_isdigit c then t ++ [c] else rstrip_nondigit t.
Proof.
  unfold rstrip_nondigit. rewrite List.rev_app_distr. simpl.
  destruct (byte_isdigit c); [|done].
  simpl. by rewrite List.rev_involutive.
Qed.

(** Without a digit the loop never stops, whatever the fuel. *)
Lemma strip_units_no_digit (t : bytes) :
  has_digit t = false -> forall fuel, strip_units fuel t = Loop.
Proof.
  induction t as [|c t IH] using rev_ind; intros Hd fuel.
  - apply strip_units_nil.
  - rewrite has_digit_snoc in Hd. apply orb_false_elim in Hd as [Ht Hc].
    destruct fuel as [|fuel]; [done|].
    rewrite strip_units_snoc, Hc. by apply IH.
Qed.

(** With a digit it stops within [length t] turns, at the last digit. *)
Lemma strip_units_digit (t : bytes) :
  has_digit t = true ->
  forall fuel, (List.length t <= fuel)%nat ->
  strip_units fuel t = Val (rstrip_nondigit t).
Proof.
  induction t as [|c t IH] using rev_ind; intros Hd fuel Hf.
  - discriminate.
  - rewrite has_digit_snoc in Hd. rewrite length_app in Hf. simpl in Hf.
    destruct fuel as [|fuel]; [lia|].
    rewrite strip_units_snoc, rstrip_nondigit_snoc.
    destruct (byte_isdigit c) eqn:Hc; [done|].
    rewrite orb_false_r in Hd. apply IH; [done|lia].
Qed.

Lemma py_in_str_bytes (s : string) (toks : list bytes) :
  py_in (PyStr s) (map PyBytes toks) = false.
Proof. induction toks as [|t toks IH]; [done|]. simpl. exact IH. Qed.

Lemma py_in_str_split (s : string) (raw_line : bytes) :
  py_in (PyStr s) (py_split raw_line) = false.
Proof. apply py_in_str_bytes. Qed.

(** ** How [parse_line] goes, case by case *)

Lemma find_starting_item_bytes (toks : list bytes) (term : bytes) (v : pyval) :
  find_starting_item (map PyBytes toks) (PyBytes term) = Some v ->
  exists t, v = PyBytes t /\ In t toks /\ startswith t term = true.
Proof.
  induction toks as [|t toks IH]; [done|]. simpl.
  destruct (startswith t term) eqn:Hs.
  - intros [= <-]. exists t. auto.
  - intros H. destruct (IH H) as (t' & -> & Hin & Hs'). exists t'. auto.
Qed.

(** On a line of [bytes] tokens the [Unreachable] test is never taken, and
    the result is decided by the two tokens alone. *)
Lemma parse_line_bytes (E : Env) (fuel : nat) (toks : list bytes) :
  parse_line E fuel (map PyBytes toks) =
  match seq_token toks with
  | None => Exc TypeError
  | Some (PyStr _) => Exc SystemError
  | Some (PyBytes st) =>
      match int_of_bytes E (List.skipn 9 st) with
      | None => Exc ValueError
      | Some n =>
          match time_token toks with
          | None => Exc TypeError
          | Some (PyStr _) => Exc SystemError
          | Some (PyBytes tm) =>
              match strip_units fuel (List.skipn 5 tm) with
              | Loop => Loop
              | Exc e => Exc e
              | Val t =>
                  match float_of_bytes E t with
                  | None => Exc ValueError
                  | Some q => Val (n, Some q)
                  end
              end
          end
      end
  end.
Proof.
  unfold parse_line, seq_token, time_token. rewrite py_in_str_bytes.
  destruct (find_starting_item (map PyBytes toks) (PyBytes (B "icmp_seq=")))
    as [v|] eqn:Hseq; [|done].
  destruct (find_starting_item_bytes _ _ _ Hseq) as (st & -> & _). simpl.
  unfold py_int. destruct (int_of_bytes E (List.skipn 9 st)) as [n|]; [|done].
  simpl.
  destruct (find_starting_item (map PyBytes toks) (PyBytes (B "time=")))
    as [v|] eqn:Htime; [|done].
  destruct (find_starting_item_bytes _ _ _ Htime) as (tm & -> & _). simpl.
  destruct (strip_units fuel (List.skipn 5 tm)) as [t| |]; try done.
  simpl. unfold py_float. by destruct (float_of_bytes E t).
Qed.

(** A sample read from the process always carries a time. *)
Lemma parse_line_time_some (E : Env) (fuel : nat) (raw_line : bytes) (s : sample) :
  parse_line E fuel (py_split raw_line) = Val s -> is_Some (snd s).
Proof.
  unfold py_split. rewrite parse_line_bytes.
  destruct (seq_token _) as [[st|]|]; try done.
  destruct (int_of_bytes _ _); try done.
  destruct (time_token _) as [[tm|]|]; try done.
  destruct (strip_units _ _); try done.
  destruct (float_of_bytes _ _); try done.
  intros [= <-]. simpl. eauto.
Qed.

(** ** What [next] does with the line it read *)

(** The objects after a call of [next] are those the body leaves, or, on a
    finished generator, the objects before it. *)
Lemma next_store (E : Env) (fuel : nat) (h h' : heap) (g g' : generator) :
  store_after (next E fuel (h, g)) = Some (h', g') ->
  h' = h \/ store_after (gen_body E fuel g h) = Some h'.
Proof.
  unfold next.
  destruct (pc g); [| |simpl; intros [= <- _]; by left];
    (destruct (gen_body E fuel g h) as [[s c'] h1|e h1|]; simpl; try done;
     intros [= <- _]; by right).
Qed.

(** A call of [next] that returns has run the body to a [yield]. *)
Lemma next_returns (E : Env) (fuel : nat) (h : heap) (g : generator)
    (s : sample) (st' : heap * generator) :
  next E fuel (h, g) = Ret s st' ->
  exists c h', gen_body E fuel g h = Ret (s, c) h'
               /\ st' = (h', with_pc g (Suspended c)).
Proof.
  unfold next.
  destruct (pc g); [| |done];
    (destruct (gen_body E fuel g h) as [[s0 c'] h'|e h'|]; try done;
     intros [= <- <-]; eauto).
Qed.

Lemma strip_units_never_raises (fuel : nat) (time : bytes) (e : exn) :
  strip_units fuel time <> Exc e.
Proof.
  revert time. induction fuel as [|fuel IH]; intros time; simpl; [done|].
  destruct (negb (isdigit (last_slice time))); [apply IH | done].
Qed.

Lemma parse_line_exceptions (E : Env) (fuel : nat) (line : list pyval)
    (e : exn) :
  parse_line E fuel line = Exc e -> e = TypeError \/ e = ValueError.
Proof.
  assert (Hslice : forall x n e0, slice_from x n = Exc e0 -> e0 = TypeError).
  { intros [[b|s]|] n e0; simpl; try done. by intros [= <-]. }
  unfold parse_line, obind.
  destruct (slice_from _ 9) as [tok|e0|] eqn:Hseq.
  - unfold py_int. destruct (int_of_bytes E _) as [n|]; [|intros [= <-]; auto].
    destruct (py_in (PyStr "Unreachable") line); [done|].
    destruct (slice_from _ 5) as [[time|s]|e0|] eqn:Htime.
    + destruct (strip_units fuel time) as [t|e'|] eqn:Hstrip.
      * unfold py_float. destruct (float_of_bytes E t); [done|].
        intros [= <-]. auto.
      * by destruct (strip_units_never_raises fuel time e').
      * done.
    + intros [= <-]. auto.
    + intros [= <-]. left. by apply (Hslice _ _ _ Htime).
    + done.
  - intros [= <-]. left. by apply (Hslice _ _ _ Hseq).
  - done.
Qed.

Lemma leaving_body_parse (E : Env) (fuel : nat) (line : list pyval) (e : exn) :
  parse_line E fuel line = Exc e -> leaving_body e = e.
Proof.
  intros H. by destruct (parse_line_exceptions E fuel line e H) as [-> | ->].
Qed.

Lemma next_suspended (E : Env) (fuel : nat) (g : generator) (c : counter)
    (h h' : heap) (line : list pyval) :
  pc g = Suspended c -> c <> Range 0 ->
  read_line fuel g h = Ret line h' ->
  next E fuel (h, g) =
  match parse_line E fuel line with
  | Val s => Ret s (h', with_pc g (Suspended
                                    match c with
                                    | Count => Count
                                    | Range n => Range (Nat.pred n)
                                    end))
  | Exc e => Raise e (h', with_pc g Finished)
  | Loop => Diverge
  end.
Proof.
  intros Hpc Hc Hread. unfold next, gen_body. rewrite Hpc.
  destruct c as [|[|n]]; [| done |]; unfold gen_iteration, bind;
    rewrite Hread; unfold lift, ret;
    destruct (parse_line E fuel line) as [s|e|] eqn:Hparse; try done;
    by rewrite (leaving_body_parse E fuel line e Hparse).
Qed.

Lemma next_created (E : Env) (fuel : nat) (g : generator) (c : counter)
    (h h1 h' : heap) (line : list pyval) :
  pc g = Created -> gen_start E g h = Ret c h1 -> c <> Range 0 ->
  read_line fuel g h1 = Ret line h' ->
  next E fuel (h, g) =
  match parse_line E fuel line with
  | Val s => Ret s (h', with_pc g (Suspended
                                    match c with
                                    | Count => Count
                                    | Range n => Range (Nat.pred n)
                                    end))
  | Exc e => Raise e (h', with_pc g Finished)
  | Loop => Diverge
  end.
Proof.
  intros Hpc Hstart Hc Hread. unfold next, gen_body. rewrite Hpc.
  unfold bind at 1. rewrite Hstart.
  destruct c as [|[|n]]; [| done |]; unfold gen_iteration, bind;
    rewrite Hread; unfold lift, ret;
    destruct (parse_line E fuel line) as [s|e|] eqn:Hparse; try done;
    by rewrite (leaving_body_parse E fuel line e Hparse).
Qed.

(** C10, as stated, fails: a line whose [time=] token has a digit-free
    suffix but which has no [icmp_seq=] token does not reach the loop:
    line 165 raises [TypeError] first, whatever the fuel, and [next] raises
    it. *)
Lemma digit_free_suffix_counterexample :
  time_token (split (B "64 bytes from 10.0.0.1: ttl=64 time=ms"))
  = Some (PyBytes (B "time=" ++ B "ms"))
  /\ has_digit (B "ms") = false
  /\ (forall fuel,
        parse_line (Example.env (fun _ => [])) fuel
          (py_split (B "64 bytes from 10.0.0.1: ttl=64 time=ms"))
        = Exc TypeError)
  /\ (forall fuel,
        next (Example.env (fun _ => [])) fuel
          ([Example.started
              (B "64 bytes from 10.0.0.1: ttl=64 time=ms" ++ [newline]) []],
           with_pc (ping 0 None false) (Suspended Count))
        = Raise TypeError
            ([Example.started [] []], with_pc (ping 0 None false) Finished)).
Proof.
  split; [reflexivity|]. split; [reflexivity|].
  split; intros fuel; reflexivity.
Qed.

(** C10, amended: the loop that strips the unit from the suffix of the
    [time=] token stops if and only if the suffix holds an ASCII digit; on
    a line whose sequence number parses and whose [time=] token has a
    digit-free suffix, the parse, and with it [next], never returns and
    never raises. *)
Theorem strip_loop_stops_iff_digit (E : Env) (suffix : bytes) :
  ((exists fuel, strip_units fuel suffix <> Loop) <-> has_digit suffix = true)
  /\
  (has_digit suffix = false ->
   forall (toks : list bytes) (st : bytes) (n : Z),
     seq_token toks = Some (PyBytes st) ->
     int_of_bytes E (List.skipn 9 st) = Some n ->
     time_token toks = Some (PyBytes (B "time=" ++ suffix)) ->
     (forall fuel, parse_line E fuel (map PyBytes toks) = Loop)
     /\
     (forall fuel g c h h',
        pc g = Suspended c -> c <> Range 0 ->
        read_line fuel g h = Ret (map PyBytes toks) h' ->
        next E fuel (h, g) = Diverge)
     /\
     (forall fuel g c h h1 h',
        pc g = Created -> gen_start E g h = Ret c h1 -> c <> Range 0 ->
        read_line fuel g h1 = Ret (map PyBytes toks) h' ->
        next E fuel (h, g) = Diverge)).
Proof.
  split.
  - split.
    + intros [fuel Hf]. destruct (has_digit suffix) eqn:Hd; [done|].
      by rewrite strip_units_no_digit in Hf.
    + intros Hd. exists (List.length suffix).
      by rewrite strip_units_digit.
  - intros Hd toks st n Hseq Hint Htime.
    assert (Hparse : forall fuel, parse_line E fuel (map PyBytes toks) = Loop).
    { intros fuel. rewrite parse_line_bytes, Hseq, Hint, Htime.
      change (List.skipn 5 (B "time=" ++ suffix)) with suffix.
      by rewrite strip_units_no_digit. }
    split; [exact Hparse|]. split.
    + intros fuel g c h h' Hpc Hc Hread.
      rewrite (next_suspended E fuel g c h h' _ Hpc Hc Hread).
      by rewrite Hparse.
    + intros fuel g c h h1 h' Hpc Hstart Hc Hread.
      rewrite (next_created E fuel g c h h1 h' _ Hpc Hstart Hc Hread).
      by rewrite Hparse.
Qed.

Lemma strip_loop_stops_iff_digit_witness :
  has_digit (B "ms") = false /\
  parse_line (Example.env (fun _ => [])) 7
    (py_split (B "64 bytes from 10.0.0.1: icmp_seq=4 ttl=64 time=ms")) = Loop.
Proof.
  split; [reflexivity|].
  apply (proj2 (strip_loop_stops_iff_digit (Example.env (fun _ => [])) (B "ms"))
           eq_refl
           (split (B "64 bytes from 10.0.0.1: icmp_seq=4 ttl=64 time=ms"))
           (B "icmp_seq=4") 4 eq_refl eq_refl eq_refl).
Defined.

(** C2: a line with a token [icmp_seq=N] and the token [Unreachable] should
    yield [(N, None)].  The test on line 166 looks for the [str]
    ['Unreachable'] in a list of [bytes] (the module is Python 3: it uses
    [raise ... from]), so it never holds: no line read
    from the process yields a sample without a time, and the line of an
    unreachable host raises instead ([TypeError] from [None[5:]], or
    [ValueError] when the sequence number does not parse). *)
Theorem unreachable_line_raises :
  (forall (E : Env) (fuel : nat) (raw_line : bytes) (n : Z),
      parse_line E fuel (py_split raw_line) <> Val (n, None))
  /\
  (In (B "icmp_seq=3") (split (Example.unreachable_line "3")) /\
   In (B "Unreachable") (split (Example.unreachable_line "3")) /\
   forall (E : Env) (fuel : nat),
     parse_line E fuel (py_split (Example.unreachable_line "3")) = Exc TypeError
     \/ parse_line E fuel (py_split (Example.unreachable_line "3")) = Exc ValueError)
  /\
  parse_line (Example.env (fun _ => [])) 10
    (py_split (Example.unreachable_line "3")) = Exc TypeError.
Proof.
  split; [|split; [|reflexivity]].
  - intros E fuel raw_line n H.
    by destruct (parse_line_time_some E fuel raw_line _ H).
  - split; [vm_compute; tauto|]. split; [vm_compute; tauto|].
    intros E fuel. unfold py_split. rewrite parse_line_bytes.
    change (seq_token (split (Example.unreachable_line "3")))
      with (Some (PyBytes (B "icmp_seq=3"))).
    change (time_token (split (Example.unreachable_line "3")))
      with (@None pyval).
    cbv beta iota. destruct (int_of_bytes E _); auto.
Qed.

(** C6, as stated, fails: a line whose [icmp_seq=] token does not carry an
    integer makes [next] raise, although the line has an [icmp_seq=] token
    and a [time=] token whose remainder is numeric. *)
Lemma malformed_exactly_when_counterexample :
  ~ ((exists e,
        parse_line (Example.env (fun _ => [])) 10
          (map PyBytes (split (B "icmp_seq=x time=1.5ms"))) = Exc e)
     <->
     (seq_token (split (B "icmp_seq=x time=1.5ms")) = None
      \/ (~ In (B "Unreachable") (split (B "icmp_seq=x time=1.5ms"))
          /\ (time_token (split (B "icmp_seq=x time=1.5ms")) = None
              \/ exists tm,
                  time_token (split (B "icmp_seq=x time=1.5ms"))
                  = Some (PyBytes tm)
                  /\ float_of_bytes (Example.env (fun _ => []))
                       (rstrip_nondigit (List.skipn 5 tm)) = None)))).
Proof.
  intros [Hfail _].
  destruct Hfail as [Hseq | (_ & [Htime | (tm & Htime & Hfloat)])].
  - exists ValueError. reflexivity.
  - discriminate Hseq.
  - discriminate Htime.
  - injection Htime as <-. discriminate Hfloat.
Qed.

(** C6, amended: on a line without the token [Unreachable], whose [time=]
    token (if any) has a digit in its suffix, [next] raises exactly when
    there is no token with prefix [icmp_seq=], or the suffix of that token
    is not an integer, or there is no token with prefix [time=], or the
    suffix of that token without its trailing non-digits is not numeric;
    when it raises, no sample is yielded and the generator is finished. *)
Theorem malformed_line_raises_iff (E : Env) (fuel : nat) (toks : list bytes) :
  ~ In (B "Unreachable") toks ->
  (forall tm, time_token toks = Some (PyBytes tm) ->
              has_digit (List.skipn 5 tm) = true
              /\ (List.length (List.skipn 5 tm) <= fuel)%nat) ->
  ((exists e, parse_line E fuel (map PyBytes toks) = Exc e)
   <->
   (seq_token toks = None
    \/ (exists st, seq_token toks = Some (PyBytes st)
                   /\ int_of_bytes E (List.skipn 9 st) = None)
    \/ time_token toks = None
    \/ (exists tm, time_token toks = Some (PyBytes tm)
                   /\ float_of_bytes E (rstrip_nondigit (List.skipn 5 tm)) = None)))
  /\
  (forall e g c h h',
      parse_line E fuel (map PyBytes toks) = Exc e ->
      pc g = Suspended c -> c <> Range 0 ->
      read_line fuel g h = Ret (map PyBytes toks) h' ->
      next E fuel (h, g) = Raise e (h', with_pc g Finished)).
Proof.
  intros _ Hdigit. split.
  - rewrite parse_line_bytes.
    destruct (seq_token toks) as [v|] eqn:Hseq; [|split; eauto].
    destruct (find_starting_item_bytes _ _ _ Hseq) as (st & -> & _).
    destruct (int_of_bytes E (List.skipn 9 st)) as [n|] eqn:Hint;
      [|split; eauto 6].
    destruct (time_token toks) as [v|] eqn:Htime; [|split; eauto 6].
    destruct (find_starting_item_bytes _ _ _ Htime) as (tm & -> & _).
    destruct (Hdigit tm eq_refl) as [Hd Hlen].
    rewrite (strip_units_digit _ Hd fuel Hlen).
    destruct (float_of_bytes E (rstrip_nondigit (List.skipn 5 tm))) as [q|]
      eqn:Hfloat.
    + split.
      * intros [e He]. discriminate He.
      * intros [H | [(st' & H & Hint') | [H | (tm' & H & Hfloat')]]];
          try discriminate H.
        -- injection H as <-. congruence.
        -- injection H as <-. congruence.
    + split; [|eauto]. intros _. right. right. right. eauto.
  - intros e g c h h' Hparse Hpc Hc Hread.
    rewrite (next_suspended E fuel g c h h' _ Hpc Hc Hread).
    by rewrite Hparse.
Qed.

Lemma malformed_line_raises_iff_witness :
  exists e,
    parse_line (Example.env (fun _ => [])) 10
      (map PyBytes (split (B "icmp_seq=7 time=1.2.3ms"))) = Exc e.
Proof.
  assert (H1 : ~ In (B "Unreachable") (split (B "icmp_seq=7 time=1.2.3ms"))).
  { vm_compute. intuition discriminate. }
  assert (H2 : forall tm,
             time_token (split (B "icmp_seq=7 time=1.2.3ms")) = Some (PyBytes tm) ->
             has_digit (List.skipn 5 tm) = true
             /\ (List.length (List.skipn 5 tm) <= 10)%nat).
  { intros tm [= <-]. split; [reflexivity | vm_compute; lia]. }
  apply (proj2 (proj1 (malformed_line_raises_iff (Example.env (fun _ => [])) 10
                         (split (B "icmp_seq=7 time=1.2.3ms")) H1 H2))).
  right. right. right. exists (B "time=1.2.3ms"). split; reflexivity.
Defined.

(** ** Latest-only mode *)

(** C1: with two or more complete lines buffered, a latest-only [next]
    should return the sample of the newest one.  The loop on line 161 goes
    on only while more than one newline is buffered after the line just
    read, so it stops one line early: with lines 1 and 2 buffered the call
    returns sample 1 and the following call returns sample 2; with lines 1,
    2 and 3 buffered (after the banner) the first call drops line 1, returns
    sample 2 and leaves line 3 to the following call. *)
Theorem latest_returns_second_newest :
  let E := Example.env (fun _ => [Example.banner ++ Example.reply_line "1" "10.5"
                                   ++ Example.reply_line "2" "20.25"
                                   ++ Example.reply_line "3" "30.75"]) in
  (let h := [Example.started (Example.reply_line "1" "10.5"
                               ++ Example.reply_line "2" "20.25") []] in
   let h1 := [Example.started (Example.reply_line "2" "20.25") []] in
   let h2 := [Example.started [] []] in
   count_newlines (Example.reply_line "1" "10.5"
                     ++ Example.reply_line "2" "20.25") = 2%nat
   /\ next E 20 (h, Example.latest_gen) = Ret (1, Some (21 # 2)%Q) (h1, Example.latest_gen)
   /\ next E 20 (h1, Example.latest_gen) = Ret (2, Some (81 # 4)%Q) (h2, Example.latest_gen))
  /\
  (exists h0 h1 h2,
      Ping_init E "10.0.0.1" None true false [] = Ret 0%nat h0
      /\ next E 20 (h0, ping 0 None true) = Ret (2, Some (81 # 4)%Q) (h1, Example.latest_gen)
      /\ stdout_of 0 h1 = Some {| buffered := Example.reply_line "3" "30.75"; raw := [] |}
      /\ next E 20 (h1, Example.latest_gen) = Ret (3, Some (123 # 4)%Q) (h2, Example.latest_gen)).
Proof.
  split.
  - split; [reflexivity|]. split; vm_compute; reflexivity.
  - eexists _, _, _. split; [reflexivity|].
    split; [vm_compute; reflexivity|]. split; vm_compute; reflexivity.
Qed.

(** ** Stopping a stream *)


Lemma Ping_stop_not_started (h : heap) (self : nat) (p : Ping) :
  h !! self = Some p -> ping_command p = None -> Ping_stop self h = Ret tt h.
Proof.
  intros Hp Hc. unfold Ping_stop, try_except, get_ping_command, bind, deref.
  rewrite Hp, Hc. done.
Qed.

Lemma Ping_stop_started (h : heap) (self : nat) (p : Ping) (c : Popen) :
  h !! self = Some p -> ping_command p = Some c ->
  Ping_stop self h = Ret tt (<[self := with_ping_command p (kill c)]> h).
Proof.
  intros Hp Hc.
  unfold Ping_stop, try_except, get_ping_command, set_ping_command, bind, deref.
  rewrite Hp, Hc. unfold ret. by rewrite Hp.
Qed.



(** ** A started stream: bounded mode, latest-only mode *)

Section Bounded.

Variable E : Env.
Variable h0 : heap.
Variable self : nat.
Variable p : Ping.
Hypothesis Hself : h0 !! self = Some p.

Lemma self_in_range : (self < List.length h0)%nat.
Proof. by eapply lookup_lt_Some. Qed.

Lemma running_with_lookup (r : BufferedReader) :
  running_with h0 self p r !! self
  = Some (with_ping_command p {| stdout := r; running := true |}).
Proof. apply list_lookup_insert_eq, self_in_range. Qed.

Lemma stdout_of_running_with (r : BufferedReader) :
  stdout_of self (running_with h0 self p r) = Some r.
Proof. unfold stdout_of. by rewrite running_with_lookup. Qed.

Lemma stdout_readline_running (r : BufferedReader) :
  stdout_readline self (running_with h0 self p r)
  = Ret (fst (readline r)) (running_with h0 self p (snd (readline r))).
Proof.
  unfold stdout_readline, get_ping_command, set_ping_command, bind, deref.
  rewrite running_with_lookup. simpl. unfold ret.
  destruct (readline r) as [l r']. simpl.
  rewrite running_with_lookup. unfold running_with.
  by rewrite list_insert_insert_eq.
Qed.

Lemma gen_start_running (g : generator) :
  platform_windows E = false -> gen_self g = self ->
  gen_start E g h0
  = Ret (match packets g with
         | None => Count
         | Some k => Range (Z.to_nat k)
         end)
        (running_with h0 self p
           (reader_after 1 {| buffered := []; raw := ping_output E self |})).
Proof.
  intros Hwin Hg. unfold gen_start, run_ping. rewrite Hwin, Hg.
  unfold bind at 1. unfold ret at 1.
  unfold bind at 1. unfold set_ping_command, bind at 1, deref.
  rewrite Hself.
  fold (running_with h0 self p {| buffered := []; raw := ping_output E self |}).
  unfold bind. by rewrite stdout_readline_running.
Qed.

(** In bounded mode an iteration reads one line, whatever [latest] is. *)
Lemma read_line_bounded (fuel : nat) (g : generator) (k : Z) (r : BufferedReader) :
  gen_self g = self -> packets g = Some k ->
  read_line fuel g (running_with h0 self p r)
  = Ret (py_split (fst (readline r))) (running_with h0 self p (snd (readline r))).
Proof.
  intros Hg Hk. unfold read_line. rewrite Hk, Hg.
  rewrite bool_decide_eq_false_2 by done. simpl.
  unfold bind. by rewrite stdout_readline_running.
Qed.

Lemma stdout_peek_running (r : BufferedReader) :
  stdout_peek self (running_with h0 self p r)
  = Ret (fst (peek r)) (running_with h0 self p (snd (peek r))).
Proof.
  unfold stdout_peek, get_ping_command, set_ping_command, bind, deref.
  rewrite running_with_lookup. simpl. unfold ret.
  destruct (peek r) as [data r']. simpl.
  rewrite running_with_lookup. unfold running_with.
  by rewrite list_insert_insert_eq.
Qed.

Lemma cut_line_complete (body rest : bytes) :
  ~ In newline body ->
  cut_line (body ++ newline :: rest) = Some (body ++ [newline], rest).
Proof.
  induction body as [|c body IH]; intros Hnl; [done|]. simpl.
  destruct (Byte.eqb c newline) eqn:Hc.
  - apply Byte.byte_dec_bl in Hc. destruct Hnl. by left.
  - rewrite IH; [done|]. intros Hin. apply Hnl. by right.
Qed.

Lemma count_newlines_complete (body : bytes) :
  ~ In newline body -> count_newlines (body ++ [newline]) = 1%nat.
Proof.
  unfold count_newlines. induction body as [|c body IH]; intros Hnl; [done|].
  simpl. destruct (Byte.eqb newline c) eqn:Hc.
  - apply Byte.byte_dec_bl in Hc. destruct Hnl. by left.
  - apply IH. intros Hin. apply Hnl. by right.
Qed.

Lemma readline_from_cut (buf l rest : bytes) (chunks : list bytes) :
  cut_line buf = Some (l, rest) ->
  readline_from buf chunks = (l, {| buffered := rest; raw := chunks |}).
Proof. intros Hcut. destruct chunks; simpl; by rewrite Hcut. Qed.

(** In latest-only mode, with exactly two complete lines buffered, the
    iteration parses the first of them, the older one, and leaves the
    second in the buffer. *)
Lemma latest_two_lines_reads_older (fuel : nat) (g : generator)
    (body1 body2 : bytes) (chunks : list bytes) :
  ~ In newline body1 -> ~ In newline body2 ->
  gen_self g = self -> packets g = None -> latest g = true ->
  read_line (S fuel) g
    (running_with h0 self p
       {| buffered := body1 ++ newline :: body2 ++ [newline]; raw := chunks |})
  = Ret (py_split (body1 ++ [newline]))
        (running_with h0 self p
           {| buffered := body2 ++ [newline]; raw := chunks |}).
Proof.
  intros H1 H2 Hg Hpk Hlatest. unfold read_line. rewrite Hpk, Hlatest, Hg.
  rewrite bool_decide_eq_true_2 by done. cbn [andb]. cbv iota.
  unfold bind at 1. rewrite stdout_readline_running.
  unfold readline. simpl buffered. simpl raw.
  rewrite (readline_from_cut _ _ _ chunks (cut_line_complete body1 _ H1)).
  cbn [fst snd skip_stale]. unfold bind.
  rewrite stdout_peek_running.
  assert (Hpeek : peek {| buffered := body2 ++ [newline]; raw := chunks |}
                  = (body2 ++ [newline],
                     {| buffered := body2 ++ [newline]; raw := chunks |})).
  { unfold peek. simpl. by destruct body2. }
  rewrite Hpeek. cbn [fst snd].
  by rewrite (count_newlines_complete body2 H2).
Qed.

End Bounded.

(** The counter of a bounded generator goes down by one at each sample. *)
Lemma gen_start_counter (E : Env) (g : generator) :
  yields (gen_start E g)
         (fun c => c = match packets g with
                       | None => Count
                       | Some k => Range (Z.to_nat k)
                       end).
Proof.
  unfold gen_start.
  apply yields_bind with (Q1 := fun _ => True); [apply yields_any|].
  intros c _.
  apply yields_bind with (Q1 := fun _ => True); [apply yields_any|].
  intros _ _.
  apply yields_bind with (Q1 := fun _ => True); [apply yields_any|].
  intros _ _. by apply yields_ret.
Qed.

Lemma gen_iteration_counter (E : Env) (fuel : nat) (g : generator) (n : nat) :
  yields (gen_iteration E fuel g (Range n))
         (fun sc => n <> O /\ snd sc = Range (Nat.pred n)).
Proof.
  destruct n as [|n]; simpl; [apply yields_raise|].
  apply yields_bind with (Q1 := fun _ => True); [apply yields_any|].
  intros line _.
  apply yields_bind with (Q1 := fun _ => True); [apply yields_any|].
  intros s _. by apply yields_ret.
Qed.

Lemma bounded_step (E : Env) (fuel self K : nat) (latest_arg : bool) (j : nat)
    (st st' : heap * generator) :
  bounded_inv (ping self (Some (Z.of_nat K)) latest_arg) K j st ->
  store_after (next E fuel st) = Some st' ->
  bounded_inv (ping self (Some (Z.of_nat K)) latest_arg) K (S j) st'.
Proof.
  intros Hinv. destruct st as [h g]. unfold next.
  destruct (pc g) eqn:Hpc.
  - destruct (gen_body E fuel g h) as [[s c] h'|e h'|] eqn:Hbody; simpl;
      try done; intros [= <-]; [|right; by left].
    right. right. simpl. revert Hbody. unfold gen_body. rewrite Hpc.
    destruct Hinv as [[-> Hg]|[Hfin|Hsus]]; simpl in *; [|congruence..].
    subst g. unfold bind.
    destruct (gen_start E _ h) as [c0 h1|e h1|] eqn:Hstart; try done.
    apply gen_start_counter in Hstart. simpl in Hstart.
    rewrite Nat2Z.id in Hstart. subst c0.
    intros H. apply gen_iteration_counter in H as [_ H]. simpl in H.
    rewrite H. do 2 f_equal. lia.
  - destruct (gen_body E fuel g h) as [[s c'] h'|e h'|] eqn:Hbody; simpl;
      try done; intros [= <-]; [|right; by left].
    right. right. simpl. revert Hbody. unfold gen_body. rewrite Hpc.
    destruct Hinv as [[-> Hg]|[Hfin|Hsus]]; simpl in *.
    + subst g. discriminate Hpc.
    + congruence.
    + rewrite Hpc in Hsus. injection Hsus as ->.
      intros H. apply gen_iteration_counter in H as [_ H].
      simpl in H. rewrite H. do 2 f_equal. lia.
  - simpl. intros [= <-]. right. by left.
Qed.

(** After [K] calls that returned or raised, a further call raises: the
    generator has finished, or its counter is used up and the body runs
    into line 175. *)
Lemma bounded_exhausted (E : Env) (self K : nat) (latest_arg : bool)
    (fuels : nat -> nat) (states : nat -> heap * generator) :
  (0 < K)%nat ->
  snd (states O) = ping self (Some (Z.of_nat K)) latest_arg ->
  (forall j, (j < K)%nat ->
             store_after (next E (fuels j) (states j)) = Some (states (S j))) ->
  exists e,
    next E (fuels K) (states K)
    = Raise e (fst (states K), with_pc (snd (states K)) Finished)
    /\ (e = RuntimeError \/ e = StopIteration).
Proof.
  intros HK H0 Hchain.
  assert (Hinv : forall j, (j <= K)%nat ->
            bounded_inv (ping self (Some (Z.of_nat K)) latest_arg) K j (states j)).
  { induction j as [|j IH]; intros Hj.
    - left. done.
    - eapply bounded_step; [apply IH; lia|]. apply Hchain. lia. }
  specialize (Hinv K (le_n K)).
  destruct (states K) as [h g]. unfold bounded_inv in Hinv.
  unfold next, gen_body. simpl in *.
  destruct Hinv as [[-> _]|[Hfin|Hsus]]; [lia| |].
  - rewrite Hfin. eauto.
  - rewrite Hsus, Nat.sub_diag. simpl. eauto.
Qed.

(** C5, as stated, fails.  A bounded stream whose process writes a line
    that is no reply does not give [K] successful calls: with [K = 2] the
    first call already raises [TypeError].  And on a stream whose two lines
    are well formed the third call does not raise [StopIteration]: the
    [StopIteration] of line 175 leaves the generator as [RuntimeError]. *)
Lemma bounded_stream_counterexample :
  ~ (exists (fuel : nat) (states : nat -> heap * generator),
        states O = ([Example.unstarted], ping 0 (Some 2) false)
        /\ forall j, (j < 2)%nat ->
             exists s, next Example.garbled fuel (states j)
                       = Ret s (states (S j)))
  /\
  ~ (exists (st1 st2 st3 : heap * generator) (s1 s2 : sample),
        next Example.two_replies 20 ([Example.unstarted], ping 0 (Some 2) false)
        = Ret s1 st1
        /\ next Example.two_replies 20 st1 = Ret s2 st2
        /\ next Example.two_replies 20 st2 = Raise StopIteration st3).
Proof.
  split.
  - intros (fuel & states & H0 & Hcalls).
    destruct (Hcalls O) as [s Hs]; [lia|]. rewrite H0 in Hs.
    discriminate Hs.
  - intros (st1 & st2 & st3 & s1 & s2 & H1 & H2 & H3).
    vm_compute in H1. injection H1 as <- <-.
    vm_compute in H2. injection H2 as <- <-.
    vm_compute in H3. discriminate H3.
Qed.

(** C5, amended: for a stream made with packet count [K], after [K] calls
    of [next] that returned or raised a further call raises (the counter is
    used up or the generator has finished), whatever the process wrote; and
    when the process starts and writes [K] well-formed lines after the
    banner, the first [K] calls return the samples of these lines, each
    call reading exactly one line whatever the latest-only setting, call
    [K+1] fails and reads nothing (it raises [RuntimeError], which is what
    the [StopIteration] of line 175 becomes when it leaves the generator),
    and the call after it raises [StopIteration]. *)
Theorem bounded_stream_yields_K (E : Env) (h0 : heap) (self : nat)
    (K : nat) (latest_arg : bool) :
  (forall (fuels : nat -> nat) (states : nat -> heap * generator),
      (0 < K)%nat ->
      states O = (h0, ping self (Some (Z.of_nat K)) latest_arg) ->
      (forall j, (j < K)%nat ->
         store_after (next E (fuels j) (states j)) = Some (states (S j))) ->
      exists e s', next E (fuels K) (states K) = Raise e s'
                   /\ (e = RuntimeError \/ e = StopIteration))
  /\
  (forall (fuel : nat) (p : Ping) (samples : nat -> sample),
      platform_windows E = false ->
      h0 !! self = Some p ->
      (forall j, (j < K)%nat ->
         parse_line E fuel
           (py_split (nth_line (S j) {| buffered := []; raw := ping_output E self |}))
         = Val (samples j)) ->
      exists states : nat -> heap * generator,
        states O = (h0, ping self (Some (Z.of_nat K)) latest_arg)
        /\ (forall j, (j < K)%nat ->
              next E fuel (states j) = Ret (samples j) (states (S j))
              /\ stdout_of self (fst (states (S j)))
                 = Some (reader_after (S (S j))
                           {| buffered := []; raw := ping_output E self |}))
        /\ (exists s',
              next E fuel (states K) = Raise RuntimeError s'
              /\ stdout_of self (fst s')
                 = Some (reader_after (S K)
                           {| buffered := []; raw := ping_output E self |})
              /\ next E fuel s' = Raise StopIteration s')).
Proof.
  split.
  { intros fuels states HK H0 Hchain.
    destruct (bounded_exhausted E self K latest_arg fuels states HK)
      as (e & He & Hkind); [by rewrite H0 | exact Hchain | eauto]. }
  intros fuel p samples Hwin Hself Hlines.
  set (r0 := {| buffered := []; raw := ping_output E self |}) in *.
  set (g0 := ping self (Some (Z.of_nat K)) latest_arg).
  set (st := fun j : nat =>
               match j with
               | O => (h0, g0)
               | S _ => (running_with h0 self p (reader_after (S j) r0),
                         with_pc g0 (Suspended (Range (K - j))))
               end).
  assert (Hstart : gen_start E g0 h0
                   = Ret (Range K) (running_with h0 self p (reader_after 1 r0))).
  { rewrite (gen_start_running E h0 self p Hself g0 Hwin eq_refl).
    simpl. by rewrite Nat2Z.id. }
  exists st. split; [done|]. split.
  - intros j Hj. split; [|apply stdout_of_running_with; done].
    destruct j as [|j]; unfold st; cbv beta iota.
    + assert (HK : Range K <> Range 0) by (intros [= ->]; lia).
      pose proof (read_line_bounded h0 self p Hself fuel g0 (Z.of_nat K)
                    (reader_after 1 r0) eq_refl eq_refl) as Hread.
      rewrite (next_created E fuel g0 (Range K) h0 _ _ _ eq_refl Hstart HK Hread).
      fold (nth_line 1 r0). rewrite (Hlines 0%nat Hj).
      replace (Nat.pred K) with (K - 1)%nat by lia. reflexivity.
    + assert (HK : Range (K - S j) <> Range 0) by (intros [= Heq]; lia).
      set (g := with_pc g0 (Suspended (Range (K - S j)))).
      pose proof (read_line_bounded h0 self p Hself fuel g (Z.of_nat K)
                    (reader_after (S (S j)) r0) eq_refl eq_refl) as Hread.
      rewrite (next_suspended E fuel g (Range (K - S j)) _ _ _ eq_refl HK Hread).
      fold (nth_line (S (S j)) r0). rewrite (Hlines (S j) Hj).
      replace (Nat.pred (K - S j)) with (K - S (S j))%nat by lia. reflexivity.
  - destruct K as [|K].
    + eexists. split; [|split].
      * unfold st, next, gen_body. change (pc g0) with Created.
        cbv beta iota. unfold bind. rewrite Hstart. reflexivity.
      * apply stdout_of_running_with; done.
      * reflexivity.
    + eexists. split; [|split].
      * unfold st, next, gen_body. simpl pc. cbv beta iota.
        rewrite Nat.sub_diag. reflexivity.
      * apply stdout_of_running_with; done.
      * reflexivity.
Qed.

Lemma bounded_stream_yields_K_witness :
  exists states : nat -> heap * generator,
    states O = ([Example.unstarted], ping 0 (Some 2) true)
    /\ (forall j, (j < 2)%nat ->
          next Example.two_replies 20 (states j)
          = Ret (Example.two_samples j) (states (S j))
          /\ stdout_of 0 (fst (states (S j)))
             = Some (reader_after (S (S j))
                       {| buffered := [];
                          raw := ping_output Example.two_replies 0 |}))
    /\ (exists s',
          next Example.two_replies 20 (states 2%nat) = Raise RuntimeError s'
          /\ stdout_of 0 (fst s')
             = Some (reader_after 3
                       {| buffered := [];
                          raw := ping_output Example.two_replies 0 |})
          /\ next Example.two_replies 20 s' = Raise StopIteration s').
Proof.
  apply (proj2 (bounded_stream_yields_K Example.two_replies [Example.unstarted]
                  0 2 true)
           20%nat Example.unstarted Example.two_samples eq_refl eq_refl).
  intros j Hj. destruct j as [|[|j]]; [reflexivity | reflexivity | lia].
Defined.

(** ** Selecting an entry by its address *)

(** What [get] does with an address of the ledger: it advances the entry
    found, as [get] with its index does, and then advances every entry. *)
Lemma get_by_address_unfolds (E : Env) (fuel : nat) (s : string) (w : world)
    (k : nat) :
  index_of s (addresses (ledger w)) = Some k ->
  get E fuel (OStr s) w
  = (do _ <- get_int E fuel (Z.of_nat k);
     do w' <- get_store;
     do answer <- get_each E fuel (seq 0 (List.length (times (ledger w'))));
     ret (Many answer)) w.
Proof.
  intros Hk. unfold get, get_address_index, addresses_index, bind.
  rewrite Hk. destruct (get_int E fuel (Z.of_nat k) w) as [[q|] w1|e w1|]; done.
Qed.

(** C3: [get] with an address string should resolve the string to its
    index and then do what [get] with that index does.  Line 60 returns
    [self.get(index)], a time, where the index is meant; the time is not an
    [int], so [get] goes on to advance every entry.  [get] with a string
    never returns a single time, and on the ledger of ["a", "b"] [get("a")]
    advances entry 0 twice and entry 1 once and returns a list, where
    [get(0)] advances entry 0 once and returns its time. *)
Theorem get_by_address_advances_all :
  (forall (E : Env) (fuel : nat) (s : string) (w w' : world) (t : option Q),
      get E fuel (OStr s) w <> Ret (One t) w')
  /\
  (exists pt h w1 w2,
      PingTest_init Example.two_hosts ["a"; "b"] false [] = Ret pt h
      /\ index_of "a" (addresses pt) = Some 0%nat
      /\ get Example.two_hosts 20 (OInt 0) {| objects := h; ledger := pt |}
         = Ret (One (Some (21 # 2)%Q)) w1
      /\ responses (ledger w1) = [[Some (21 # 2)%Q]; []]
      /\ get Example.two_hosts 20 (OStr "a") {| objects := h; ledger := pt |}
         = Ret (Many [Some (81 # 4)%Q; Some (15 # 2)%Q]) w2
      /\ responses (ledger w2)
         = [[Some (21 # 2)%Q; Some (81 # 4)%Q]; [Some (15 # 2)%Q]]).
Proof.
  split.
  - intros E fuel s w w' t. unfold get, get_address_index, bind.
    destruct (addresses_index (OStr s) w) as [idx w1|e w1|]; try discriminate.
    destruct (get_int E fuel idx w1) as [r w2|e w2|]; try discriminate.
    unfold ret, get_store.
    destruct r as [q|]; simpl;
      by destruct (get_each E fuel _ w2).
  - eexists _, _, _, _. split; [vm_compute; reflexivity|].
    split; [reflexivity|]. split; [vm_compute; reflexivity|].
    split; [reflexivity|]. split; [vm_compute; reflexivity|]. reflexivity.
Qed.

(** ** Removing an entry *)


Lemma norm_index_lt (n : nat) (i : Z) (k : nat) :
  norm_index n i = Some k -> (k < n)%nat.
Proof.
  unfold norm_index.
  destruct (Z.leb_spec 0 i); destruct (Z.ltb_spec i (Z.of_nat n)); simpl;
    try (intros [= <-]; lia);
    destruct (Z.leb_spec (- Z.of_nat n) i); destruct (Z.ltb_spec i 0); simpl;
    try done; intros [= <-]; lia.
Qed.

(** [Ping.stop] returns on every object and leaves no running process. *)
Lemma Ping_stop_returns (h : heap) (self : nat) (obj : Ping) :
  h !! self = Some obj ->
  exists h1,
    Ping_stop self h = Ret tt h1
    /\ no_running_process self h1
    /\ List.length h1 = List.length h
    /\ (forall q, q <> self -> h1 !! q = h !! q).
Proof.
  intros Hobj. destruct (ping_command obj) as [c|] eqn:Hc.
  - exists (<[self := with_ping_command obj (kill c)]> h).
    split; [by apply Ping_stop_started|].
    split; [|split; [apply length_insert|]].
    + intros p' c' Hp' Hc'.
      rewrite list_lookup_insert_eq in Hp' by (by eapply lookup_lt_Some).
      injection Hp' as <-. simpl in Hc'. by injection Hc' as <-.
    + intros q Hq. by rewrite list_lookup_insert_ne.
  - exists h. split; [by apply Ping_stop_not_started with obj|].
    split; [|done]. intros p' c' Hp' Hc'. congruence.
Qed.

(** What lines 133 to 137 do with a valid integer index. *)
Lemma remove_at_int (w : world) (i : Z) (k p : nat) (h1 : heap) :
  let n := List.length (addresses (ledger w)) in
  List.length (times (ledger w)) = n ->
  List.length (pings (ledger w)) = n ->
  List.length (responses (ledger w)) = n ->
  norm_index n i = Some k ->
  pings (ledger w) !! k = Some p ->
  Ping_stop p (objects w) = Ret tt h1 ->
  remove_at (OInt i) w
  = Ret tt {| objects := h1;
              ledger := {| addresses := delete k (addresses (ledger w));
                           times := delete k (times (ledger w));
                           pings := delete k (pings (ledger w));
                           responses := delete k (responses (ledger w)) |} |}.
Proof.
  intros n Htimes Hpings Hresp Hk Hp Hstop.
  unfold remove_at, bind, ret, pop_at, item_at, py_pop, py_getitem,
    on_objects, lift.
  fold n. rewrite Hk. simpl. rewrite Htimes, Hk. simpl.
  rewrite Hpings, Hk, Hp. simpl. rewrite Hstop. simpl.
  rewrite Hpings, Hk. simpl. rewrite Hresp, Hk. reflexivity.
Qed.

(** ** Statistics over a history *)

Lemma Qltb_true (x y : Q) : Qltb x y = true -> (x < y)%Q.
Proof.
  unfold Qltb. intros H. apply Qnot_le_lt. intros Hle.
  apply Qle_bool_iff in Hle. rewrite Hle in H. discriminate.
Qed.

Lemma Qltb_false (x y : Q) : Qltb x y = false -> (y <= x)%Q.
Proof.
  unfold Qltb. intros H. apply Qle_bool_iff.
  by destruct (Qle_bool y x).
Qed.

(** [min] over a history of times returns an element that is below the
    others. *)
Lemma min_loop_least (qs : list Q) (x : Q) :
  exists m, min_loop (Some x) (map Some qs) = Val (Some m)
            /\ In m (x :: qs)
            /\ (m <= x)%Q
            /\ (forall q, In q qs -> (m <= q)%Q).
Proof.
  revert x. induction qs as [|item qs IH]; intros x.
  - exists x. simpl. split; [done|]. split; [auto|].
    split; [apply Qle_refl|]. intros q [].
  - simpl. destruct (Qltb item x) eqn:Hlt.
    + apply Qltb_true in Hlt.
      destruct (IH item) as (m & Hm & Hin & Hle & Hall).
      exists m. split; [exact Hm|]. split; [simpl in *; tauto|].
      split; [eapply Qle_trans; [exact Hle|by apply Qlt_le_weak]|].
      intros q [<-|Hq]; auto.
    + apply Qltb_false in Hlt.
      destruct (IH x) as (m & Hm & Hin & Hle & Hall).
      exists m. split; [exact Hm|]. split; [simpl in *; tauto|].
      split; [exact Hle|].
      intros q [<-|Hq]; [by eapply Qle_trans|auto].
Qed.

Lemma max_loop_greatest (qs : list Q) (x : Q) :
  exists m, max_loop (Some x) (map Some qs) = Val (Some m)
            /\ In m (x :: qs)
            /\ (x <= m)%Q
            /\ (forall q, In q qs -> (q <= m)%Q).
Proof.
  revert x. induction qs as [|item qs IH]; intros x.
  - exists x. simpl. split; [done|]. split; [auto|].
    split; [apply Qle_refl|]. intros q [].
  - simpl. destruct (Qltb x item) eqn:Hlt.
    + apply Qltb_true in Hlt.
      destruct (IH item) as (m & Hm & Hin & Hle & Hall).
      exists m. split; [exact Hm|]. split; [simpl in *; tauto|].
      split; [eapply Qle_trans; [by apply Qlt_le_weak|exact Hle]|].
      intros q [<-|Hq]; auto.
    + apply Qltb_false in Hlt.
      destruct (IH x) as (m & Hm & Hin & Hle & Hall).
      exists m. split; [exact Hm|]. split; [simpl in *; tauto|].
      split; [exact Hle|].
      intros q [<-|Hq]; [by eapply Qle_trans|auto].
Qed.

Lemma exact_sum_times (qs : list Q) : exact_sum (map Some qs) = Val (Qsum qs).
Proof. induction qs as [|q qs IH]; [done|]. simpl. by rewrite IH. Qed.

Lemma do_stat_index (E : Env) (fuel : nat)
    (stat : list (option Q) -> outcome (option Q)) (w : world) (i : Z)
    (k : nat) (hist : list (option Q)) :
  norm_index (List.length (responses (ledger w))) i = Some k ->
  responses (ledger w) !! k = Some hist ->
  do_stat E fuel stat (OInt i) w
  = match stat hist with
    | Val r => Ret (One r) w
    | Exc e => Raise e w
    | Loop => Diverge
    end.
Proof.
  intros Hk Hhist.
  unfold do_stat, get_address_index, bind, ret, do_stat_int, py_getitem, lift.
  rewrite Hk, Hhist. by destruct (stat hist).
Qed.

(** ** The conversion of a fraction to a float *)

Lemma inject_Z_succ (f : Z) : (inject_Z (f + 1) == inject_Z f + 1)%Q.
Proof. rewrite inject_Z_plus. reflexivity. Qed.

Lemma floor_bounds (x : Q) :
  (inject_Z (Qfloor x) <= x /\ x < inject_Z (Qfloor x) + 1)%Q.
Proof.
  split; [apply Qfloor_le|]. rewrite <- inject_Z_succ. apply Qlt_floor.
Qed.

Lemma round_half_even_cases (x : Q) :
  (round_half_even x = Qfloor x /\ (x - inject_Z (Qfloor x) <= 1 # 2)%Q)
  \/ (round_half_even x = Qfloor x + 1 /\ (1 # 2 <= x - inject_Z (Qfloor x))%Q).
Proof.
  unfold round_half_even.
  destruct (x - inject_Z (Qfloor x) ?= 1 # 2)%Q eqn:Hc.
  - apply Qeq_alt in Hc.
    destruct (Z.even (Qfloor x)); [left|right]; split; try done; lra.
  - apply Qlt_alt in Hc. left. split; [done|lra].
  - apply Qgt_alt in Hc. right. split; [done|lra].
Qed.

Lemma Qabs_cases (a : Q) :
  (0 <= a /\ Qabs a == a)%Q \/ (a <= 0 /\ Qabs a == - a)%Q.
Proof.
  destruct (Qlt_le_dec a 0) as [H|H].
  - right. split; [lra|]. apply Qabs_neg. lra.
  - left. split; [done|]. by apply Qabs_pos.
Qed.

(** Case analysis on the sign of every argument of [Qabs]. *)
Ltac qabs_at a :=
  lazymatch goal with
  | _ : (Qabs a == _)%Q |- _ => fail
  | _ => destruct (Qabs_cases a) as [[? ?]|[? ?]]
  end.
Ltac qabs :=
  repeat match goal with
         | |- context [Qabs ?a] => qabs_at a
         | _ : context [Qabs ?a] |- _ => qabs_at a
         end.

Lemma round_half_even_nearest (x : Q) (k : Z) :
  (Qabs (x - inject_Z (round_half_even x)) <= Qabs (x - inject_Z k))%Q.
Proof.
  destruct (floor_bounds x) as [Hlo Hhi].
  assert (Hk : k <= Qfloor x \/ Qfloor x + 1 <= k) by lia.
  assert (Hk' : (inject_Z k <= inject_Z (Qfloor x)
                 \/ inject_Z (Qfloor x) + 1 <= inject_Z k)%Q).
  { destruct Hk as [Hk|Hk]; [left|right].
    - by rewrite <- Zle_Qle.
    - rewrite <- inject_Z_succ. by rewrite <- Zle_Qle. }
  destruct (round_half_even_cases x) as [[-> Hr]|[-> Hr]];
    rewrite ?inject_Z_succ; qabs; lra.
Qed.

Lemma round_half_even_half (x : Q) :
  (Qabs (x - inject_Z (round_half_even x)) <= 1 # 2)%Q.
Proof.
  destruct (floor_bounds x) as [Hlo Hhi].
  destruct (round_half_even_cases x) as [[-> Hr]|[-> Hr]];
    rewrite ?inject_Z_succ; qabs; lra.
Qed.

Section FloatOfFraction.

Local Open Scope Q_scope.

Lemma pow2_pos (e : Z) : 0 < 2 ^ e.
Proof. by apply Qpower_0_lt. Qed.

Lemma pow2_succ (e : Z) : 2 ^ (e + 1) == 2 * 2 ^ e.
Proof. rewrite Qpower_plus by done. change (2 ^ 1) with 2. lra. Qed.

Lemma pow2_inject (n : Z) : (0 <= n)%Z -> inject_Z (2 ^ n) == 2 ^ n.
Proof. intros Hn. by rewrite Zpower_Qpower. Qed.

Lemma Qdiv_lt_cross (a b c d : Q) :
  0 < b -> 0 < d -> a * d < c * b -> a / b < c / d.
Proof.
  intros Hb Hd H. apply Qlt_shift_div_l; [done|].
  assert (Heq : a / b * d == a * d / b) by (field; lra).
  rewrite Heq.
  by apply Qlt_shift_div_r.
Qed.

Lemma mul_lt_le (a b c d : Q) :
  0 < a -> 0 < d -> a < c -> d <= b -> a * d < c * b.
Proof. intros. nra. Qed.

Lemma binade_spec (q : Q) :
  0 < q -> 2 ^ binade q <= q /\ q < 2 ^ (binade q + 1).
Proof.
  intros Hq. destruct q as [a b]. unfold binade. cbn [Qnum Qden].
  assert (Ha : (0 < a)%Z) by (unfold Qlt in Hq; simpl in Hq; lia).
  destruct (Z.log2_spec a Ha) as [Ha1 Ha2].
  destruct (Z.log2_spec (Zpos b) eq_refl) as [Hb1 Hb2].
  pose proof (Z.log2_nonneg a) as Hla. pose proof (Z.log2_nonneg (Zpos b)) as Hlb.
  set (la := Z.log2 a) in *. set (lb := Z.log2 (Zpos b)) in *.
  rewrite Zle_Qle in Ha1, Hb1. rewrite Zlt_Qlt in Ha2, Hb2.
  rewrite pow2_inject in Ha1, Ha2, Hb1, Hb2 by lia.
  assert (HA : inject_Z 0 < inject_Z a) by (by rewrite <- Zlt_Qlt).
  assert (HB : inject_Z 0 < inject_Z (Zpos b)) by (by rewrite <- Zlt_Qlt).
  change (inject_Z 0) with 0 in HA, HB.
  assert (Hup : a # b < 2 ^ (la - lb + 1)).
  { rewrite (Qmake_Qdiv a b).
    replace (la - lb + 1)%Z with (Z.succ la - lb)%Z by lia.
    rewrite Qpower_minus by done.
    apply Qdiv_lt_cross; [done | apply pow2_pos |].
    apply mul_lt_le; [done | apply pow2_pos | done | done]. }
  assert (Hdown : 2 ^ (la - lb - 1) < a # b).
  { rewrite (Qmake_Qdiv a b).
    replace (la - lb - 1)%Z with (la - Z.succ lb)%Z by lia.
    rewrite Qpower_minus by done.
    apply Qdiv_lt_cross; [apply pow2_pos | done |].
    assert (0 < 2 ^ la) by apply pow2_pos.
    nra. }
  destruct (Qle_bool (2 ^ (la - lb)) (a # b)) eqn:Hc.
  - apply Qle_bool_iff in Hc. split; [done|done].
  - assert (Hlt : a # b < 2 ^ (la - lb)).
    { apply Qnot_le_lt. intros Hle. apply Qle_bool_iff in Hle. congruence. }
    replace (la - lb - 1 + 1)%Z with (la - lb)%Z by lia.
    split; [by apply Qlt_le_weak | done].
Qed.

Lemma pow2_le (a b : Z) : (a <= b)%Z -> 2 ^ a <= 2 ^ b.
Proof. intros H. apply Qpower_le_compat_l; [done|]. lra. Qed.

Lemma Qabs_inject_Z (m : Z) : Qabs (inject_Z m) = inject_Z (Z.abs m).
Proof. reflexivity. Qed.

Lemma Qabs_scale (a : Q) (e : Z) : Qabs (a * 2 ^ e) == Qabs a * 2 ^ e.
Proof.
  rewrite Qabs_Qmult. rewrite (Qabs_pos (2 ^ e)); [reflexivity|].
  apply Qlt_le_weak, pow2_pos.
Qed.

Lemma Qabs_diff_scale (a b : Q) (e : Z) :
  Qabs (a * 2 ^ e - b * 2 ^ e) == Qabs (a - b) * 2 ^ e.
Proof.
  rewrite <- Qabs_scale. apply Qabs_wd. ring.
Qed.

Section Rounding.

Variable q : Q.
Hypothesis Hq : ~ q == 0.

Let e : Z := Z.max (binade (Qabs q) - 52) (-1074).
Let x : Q := q / 2 ^ e.
Let m : Z := round_half_even x.

Lemma Qabs_q_pos : 0 < Qabs q.
Proof using Hq.
  destruct (Qlt_le_dec 0 (Qabs q)) as [H|H]; [done|].
  destruct Hq. pose proof (Qabs_nonneg q) as H0.
  assert (Hz : Qabs q == 0) by lra.
  revert Hz. apply Qabs_case; intros; lra.
Qed.

Lemma q_scaled : q == x * 2 ^ e.
Proof using Type. unfold x. field. pose proof (pow2_pos e). lra. Qed.

Lemma x_abs : Qabs q == Qabs x * 2 ^ e.
Proof using Type. rewrite <- Qabs_scale. apply Qabs_wd, q_scaled. Qed.

Lemma x_upper : Qabs x < 2 ^ 53.
Proof using Hq.
  destruct (binade_spec (Qabs q) Qabs_q_pos) as [_ Hup].
  assert (Hle : 2 ^ (binade (Qabs q) + 1) <= 2 ^ (53 + e)).
  { apply pow2_le. unfold e. lia. }
  rewrite (Qpower_plus 2 53 e) in Hle by done.
  pose proof x_abs as Hx. pose proof (pow2_pos e) as Ht.
  apply Qnot_le_lt. intros Hge.
  assert (Hm : 2 ^ 53 * 2 ^ e <= Qabs x * 2 ^ e)
    by (apply Qmult_le_compat_r; lra).
  revert Hle Hup Hx Hm.
  generalize (2 ^ (binade (Qabs q) + 1)) (2 ^ 53 * 2 ^ e) (Qabs x * 2 ^ e)
    (Qabs q).
  intros. lra.
Qed.

Lemma x_lower : (-1074 < e)%Z -> 2 ^ 52 <= Qabs x.
Proof using Hq.
  intros He.
  destruct (binade_spec (Qabs q) Qabs_q_pos) as [Hlo _].
  assert (Heq : binade (Qabs q) = (52 + e)%Z) by (unfold e in *; lia).
  rewrite Heq, (Qpower_plus 2 52 e) in Hlo by done.
  pose proof x_abs as Hx. pose proof (pow2_pos e) as Ht.
  apply Qnot_lt_le. intros Hlt.
  assert (Hm : Qabs x * 2 ^ e < 2 ^ 52 * 2 ^ e)
    by (apply Qmult_lt_compat_r; lra).
  revert Hlo Hx Hm.
  generalize (2 ^ 52 * 2 ^ e) (Qabs x * 2 ^ e) (Qabs q).
  intros. lra.
Qed.

Lemma diff_scaled (y : Q) :
  Qabs (q - y * 2 ^ e) == Qabs (x - y) * 2 ^ e.
Proof using Type.
  rewrite <- Qabs_diff_scale. apply Qabs_wd.
  pose proof q_scaled as Hx. revert Hx. generalize (x * 2 ^ e). intros. lra.
Qed.

Lemma pow2_52 : inject_Z (2 ^ 52) == 2 ^ 52.
Proof using Type. by apply pow2_inject. Qed.

(** The rounded quotient is at least as near to [q] as any number
    [n * 2^e'] with [|n| < 2^53] and [-1074 <= e']. *)
Lemma rounded_nearest (n e' : Z) :
  (Z.abs n < 2 ^ 53)%Z -> (-1074 <= e')%Z ->
  Qabs (q - inject_Z m * 2 ^ e) <= Qabs (q - inject_Z n * 2 ^ e').
Proof using Hq.
  intros Hn He'. rewrite diff_scaled.
  pose proof (pow2_pos e) as Ht.
  destruct (Z_le_gt_dec e e') as [Hle|Hgt].
  - assert (Hd : inject_Z n * 2 ^ e'
                 == inject_Z (n * 2 ^ (e' - e)) * 2 ^ e).
    { rewrite inject_Z_mult, pow2_inject by lia.
      rewrite <- Qmult_assoc, <- Qpower_plus by done.
      by replace (e' - e + e)%Z with e' by lia. }
    rewrite Hd, diff_scaled.
    apply Qmult_le_compat_r; [|lra].
    apply round_half_even_nearest.
  - assert (Hlow : 2 ^ 52 <= Qabs x) by (apply x_lower; lia).
    set (y := inject_Z n * 2 ^ e' / 2 ^ e).
    assert (Hd : inject_Z n * 2 ^ e' == y * 2 ^ e) by (unfold y; field; lra).
    rewrite Hd, diff_scaled.
    apply Qmult_le_compat_r; [|lra].
    assert (Hy : Qabs y <= 2 ^ 52 - (1 # 2)).
    { assert (Hy2 : Qabs y * 2 ^ e <= (2 ^ 52 - (1 # 2)) * 2 ^ e).
      { rewrite <- Qabs_scale, <- Hd, Qabs_scale.
        change (Qabs (inject_Z n)) with (inject_Z (Z.abs n)).
        assert (Hn' : inject_Z (Z.abs n) <= 2 * 2 ^ 52 - 1).
        { rewrite <- pow2_52.
          change (2 * inject_Z (2 ^ 52) - 1) with (inject_Z (2 ^ 53 - 1)).
          rewrite <- Zle_Qle. lia. }
        assert (He1 : 2 ^ e' <= 2 ^ (e - 1)) by (apply pow2_le; lia).
        assert (He2 : 2 ^ (e - 1 + 1) == 2 * 2 ^ (e - 1)) by apply pow2_succ.
        replace (e - 1 + 1)%Z with e in He2 by lia.
        pose proof (pow2_pos e') as Ht'.
        assert (Hn0 : 0 <= inject_Z (Z.abs n)).
        { change 0 with (inject_Z 0). rewrite <- Zle_Qle. lia. }
        assert (Hc : 0 < 2 ^ 52) by apply pow2_pos.
        revert Hn' He1 He2 Ht' Hn0 Ht Hc.
        generalize (inject_Z (Z.abs n)) (2 ^ e') (2 ^ (e - 1)) (2 ^ e) (2 ^ 52).
        intros. nra. }
      apply Qnot_lt_le. intros Hlt.
      assert ((2 ^ 52 - (1 # 2)) * 2 ^ e < Qabs y * 2 ^ e)
        by (apply Qmult_lt_compat_r; lra).
      lra. }
    assert (Hm : Qabs (x - inject_Z m) <= Qabs x - 2 ^ 52).
    { destruct (Qlt_le_dec x 0) as [Hneg|Hpos].
      - eapply Qle_trans; [apply (round_half_even_nearest x (- 2 ^ 52))|].
        rewrite inject_Z_opp, pow2_52. qabs; lra.
      - eapply Qle_trans; [apply (round_half_even_nearest x (2 ^ 52))|].
        rewrite pow2_52. qabs; lra. }
    pose proof (Qabs_triangle_reverse x y). lra.
Qed.

Lemma m_half : Qabs (x - inject_Z m) <= 1 # 2.
Proof using Type. apply round_half_even_half. Qed.

Lemma m_upper : (Z.abs m <= 2 ^ 53)%Z.
Proof using Hq.
  destruct (Z_le_gt_dec (Z.abs m) (2 ^ 53)) as [H|H]; [done|].
  assert (H1 : (2 ^ 53 + 1 <= Z.abs m)%Z) by lia.
  rewrite Zle_Qle, inject_Z_plus, pow2_inject in H1 by lia.
  change (inject_Z (Z.abs m)) with (Qabs (inject_Z m)) in H1.
  pose proof x_upper as Hx. pose proof m_half as Hm.
  exfalso. change (inject_Z 1) with 1 in H1. qabs; lra.
Qed.

Lemma m_lower : (-1074 < e)%Z -> (2 ^ 52 <= Z.abs m)%Z.
Proof using Hq.
  intros He. pose proof (x_lower He) as Hlow.
  destruct (Z_le_gt_dec (2 ^ 52) (Z.abs m)) as [H|H]; [done|].
  assert (H1 : (Z.abs m + 1 <= 2 ^ 52)%Z) by lia.
  rewrite Zle_Qle, inject_Z_plus, pow2_inject in H1 by lia.
  change (inject_Z (Z.abs m)) with (Qabs (inject_Z m)) in H1.
  assert (Hm : Qabs (x - inject_Z m) <= Qabs x - 2 ^ 52).
  { destruct (Qlt_le_dec x 0) as [Hneg|Hpos].
    - eapply Qle_trans; [apply (round_half_even_nearest x (- 2 ^ 52))|].
      rewrite inject_Z_opp, pow2_52. qabs; lra.
    - eapply Qle_trans; [apply (round_half_even_nearest x (2 ^ 52))|].
      rewrite pow2_52. qabs; lra. }
  pose proof (Qabs_triangle_reverse x (inject_Z m)) as Htri.
  change (inject_Z 1) with 1 in H1. lra.
Qed.

Lemma pow2_1024 (a b : Z) : (a + b = 1024)%Z -> 2 ^ a * 2 ^ b == 2 ^ 1024.
Proof using Type. intros <-. by rewrite Qpower_plus. Qed.

Lemma rounded_abs : Qabs (inject_Z m * 2 ^ e) == inject_Z (Z.abs m) * 2 ^ e.
Proof using Type. by rewrite Qabs_scale. Qed.

Lemma rounded_is_float :
  Qabs (inject_Z m * 2 ^ e) < 2 ^ 1024 -> is_float (inject_Z m * 2 ^ e).
Proof using Hq.
  rewrite rounded_abs. intros Hfin.
  assert (He0 : (-1074 <= e)%Z) by (unfold e; lia).
  pose proof m_upper as Hup. pose proof (pow2_pos e) as Ht.
  destruct (Z_lt_le_dec (Z.abs m) (2 ^ 53)) as [Hlt|Hge].
  - exists m, e. split; [done|]. split; [|reflexivity].
    split; [done|].
    destruct (Z_le_gt_dec e 971) as [He|He]; [done|]. exfalso.
    assert (Hm : (2 ^ 52 <= Z.abs m)%Z) by (apply m_lower; lia).
    rewrite Zle_Qle, pow2_inject in Hm by lia.
    assert (Hp : 2 ^ 972 <= 2 ^ e) by (apply pow2_le; lia).
    pose proof (pow2_1024 52 972 eq_refl) as H1024.
    assert (H52 : 0 < 2 ^ 52) by apply pow2_pos.
    revert Hfin Hm Hp H1024 H52 Ht.
    generalize (inject_Z (Z.abs m)) (2 ^ e) (2 ^ 52) (2 ^ 972) (2 ^ 1024).
    intros. nra.
  - assert (Hm : Z.abs m = (2 ^ 53)%Z) by lia.
    exists (m / 2)%Z, (e + 1)%Z.
    assert (Hdiv : m = (2 * (m / 2))%Z).
    { destruct (Z.abs_eq_or_opp m) as [Ha|Ha]; rewrite Ha in Hm.
      - rewrite Hm. reflexivity.
      - assert (m = (- 2 ^ 53)%Z) as -> by lia. reflexivity. }
    split; [lia|]. split.
    + split; [lia|].
      destruct (Z_le_gt_dec (e + 1) 971) as [He|He]; [done|]. exfalso.
      rewrite Hm, pow2_inject in Hfin by lia.
      assert (Hp : 2 ^ 971 <= 2 ^ e) by (apply pow2_le; lia).
      pose proof (pow2_1024 53 971 eq_refl) as H1024.
      assert (H53 : 0 < 2 ^ 53) by apply pow2_pos.
      revert Hfin Hp H1024 H53 Ht.
      generalize (2 ^ e) (2 ^ 53) (2 ^ 971) (2 ^ 1024).
      intros. nra.
    + rewrite pow2_succ. rewrite Hdiv at 1. rewrite inject_Z_mult.
      change (inject_Z 2) with 2. ring.
Qed.

Lemma rounded_in_range :
  Qabs q <= max_float -> Qabs (inject_Z m * 2 ^ e) < 2 ^ 1024.
Proof using Hq.
  intros Hmax. rewrite rounded_abs.
  pose proof (pow2_pos e) as Ht. pose proof x_abs as Hx.
  assert (Hlt : max_float < 2 ^ 1024).
  { unfold max_float. rewrite <- (pow2_1024 53 971 eq_refl).
    apply Qmult_lt_compat_r; [apply pow2_pos|].
    rewrite <- pow2_inject by lia. rewrite <- Zlt_Qlt. lia. }
  destruct (Z_le_gt_dec e 971) as [He|He].
  - set (K := ((2 ^ 53 - 1) * 2 ^ (971 - e))%Z).
    assert (HK : inject_Z K * 2 ^ e == max_float).
    { unfold K, max_float. rewrite inject_Z_mult, pow2_inject by lia.
      rewrite <- Qmult_assoc, <- Qpower_plus by done.
      by replace (971 - e + e)%Z with 971%Z by lia. }
    assert (HxK : Qabs x <= inject_Z K).
    { apply Qnot_lt_le. intros Hc.
      assert (inject_Z K * 2 ^ e < Qabs x * 2 ^ e)
        by (apply Qmult_lt_compat_r; lra).
      lra. }
    assert (HmK : (Z.abs m <= K)%Z).
    { destruct (Z_le_gt_dec (Z.abs m) K) as [H|H]; [done|]. exfalso.
      assert (H1 : (K + 1 <= Z.abs m)%Z) by lia.
      rewrite Zle_Qle, inject_Z_plus in H1.
      change (inject_Z (Z.abs m)) with (Qabs (inject_Z m)) in H1.
      change (inject_Z 1) with 1 in H1.
      destruct (Qlt_le_dec (inject_Z m) 0) as [Hneg|Hpos].
      - pose proof (round_half_even_nearest x (- K)) as Hn.
        rewrite inject_Z_opp in Hn. fold m in Hn.
        qabs; lra.
      - pose proof (round_half_even_nearest x K) as Hn. fold m in Hn.
        qabs; lra. }
    rewrite Zle_Qle in HmK.
    assert (inject_Z (Z.abs m) * 2 ^ e <= inject_Z K * 2 ^ e)
      by (apply Qmult_le_compat_r; lra).
    lra.
  - exfalso.
    assert (Hlow : 2 ^ 52 <= Qabs x) by (apply x_lower; lia).
    assert (Hp : 2 ^ 972 <= 2 ^ e) by (apply pow2_le; lia).
    pose proof (pow2_1024 52 972 eq_refl) as H1024.
    assert (H52 : 0 < 2 ^ 52) by apply pow2_pos.
    assert (H972 : 0 < 2 ^ 972) by apply pow2_pos.
    revert Hmax Hlt Hx Hlow Hp H1024 H52 H972 Ht.
    generalize (Qabs q) (Qabs x) (2 ^ e) (2 ^ 52) (2 ^ 972) (2 ^ 1024) max_float.
    intros. nra.
Qed.

End Rounding.

Lemma is_float_wd (d d' : Q) : d == d' -> is_float d -> is_float d'.
Proof.
  intros Heq (m & e & Hm & He & Hd). exists m, e.
  split; [done|]. split; [done|]. by rewrite <- Heq.
Qed.

Lemma is_float_zero : is_float 0.
Proof. exists 0%Z, 0%Z. split; [done|]. split; [lia|reflexivity]. Qed.

(** What [float_of_fraction] returns: a float, and no float is nearer to
    [q]; it raises only [OverflowError], and only beyond the largest
    float. *)
Lemma float_of_fraction_spec (q : Q) :
  match float_of_fraction q with
  | Val r => is_float r /\ forall d, is_float d -> Qabs (q - r) <= Qabs (q - d)
  | Exc e => e = OverflowError /\ max_float < Qabs q
  | Loop => False
  end.
Proof.
  unfold float_of_fraction.
  destruct (Qeq_bool q 0) eqn:Hz.
  - apply Qeq_bool_iff in Hz. split; [apply is_float_zero|].
    intros d _. assert (H0 : Qabs (q - 0) == 0) by (rewrite Hz; reflexivity).
    rewrite H0. apply Qabs_nonneg.
  - assert (Hq : ~ q == 0).
    { intros H. apply Qeq_bool_iff in H. congruence. }
    set (e := Z.max (binade (Qabs q) - 52) (-1074)).
    set (r := inject_Z (round_half_even (q / 2 ^ e)) * 2 ^ e).
    destruct (Qle_bool (2 ^ 1024) (Qabs r)) eqn:Hover.
    + split; [done|]. apply Qle_bool_iff in Hover.
      apply Qnot_le_lt. intros Hmax.
      pose proof (rounded_in_range q Hq Hmax) as Hin. fold e r in Hin. lra.
    + assert (Hfin : Qabs r < 2 ^ 1024).
      { apply Qnot_le_lt. intros H. apply Qle_bool_iff in H. congruence. }
      split.
      * apply (is_float_wd r); [by rewrite Qred_correct|].
        by apply rounded_is_float.
      * intros d (n & e' & Hn & He' & Hd).
        assert (Heq : Qabs (q - Qred r) == Qabs (q - r))
          by (apply Qabs_wd; rewrite Qred_correct; reflexivity).
        assert (Heq' : Qabs (q - d) == Qabs (q - inject_Z n * 2 ^ e'))
          by (apply Qabs_wd; rewrite Hd; reflexivity).
        rewrite Heq, Heq'. apply rounded_nearest; [done | done | lia].
Qed.

Lemma is_float_bounded (d : Q) : is_float d -> Qabs d <= max_float.
Proof.
  intros (m & e & Hm & He & Hd). rewrite Hd, Qabs_scale. unfold max_float.
  change (Qabs (inject_Z m)) with (inject_Z (Z.abs m)).
  assert (H1 : inject_Z (Z.abs m) <= inject_Z (2 ^ 53 - 1))
    by (rewrite <- Zle_Qle; lia).
  assert (H2 : 2 ^ e <= 2 ^ 971) by (apply pow2_le; lia).
  assert (H3 : 0 <= inject_Z (Z.abs m)).
  { change 0 with (inject_Z 0). rewrite <- Zle_Qle. lia. }
  pose proof (pow2_pos e) as H4.
  revert H1 H2 H3 H4.
  generalize (inject_Z (Z.abs m)) (inject_Z (2 ^ 53 - 1)) (2 ^ e) (2 ^ 971).
  intros. nra.
Qed.

Lemma Qsum_bounded (M : Q) (qs : list Q) :
  Forall (fun q => Qabs q <= M) qs ->
  Qabs (Qsum qs) <= inject_Z (Z.of_nat (List.length qs)) * M.
Proof.
  induction 1 as [|q qs Hq _ IH].
  - change (Qabs (Qsum [])) with 0.
    change (inject_Z (Z.of_nat (List.length (@nil Q)))) with 0. lra.
  - change (Qsum (q :: qs)) with (q + Qsum qs).
    change (List.length (q :: qs)) with (S (List.length qs)).
    rewrite Nat2Z.inj_succ. unfold Z.succ. rewrite inject_Z_plus.
    change (inject_Z 1) with 1.
    pose proof (Qabs_triangle q (Qsum qs)).
    revert IH. generalize (inject_Z (Z.of_nat (List.length qs))). intros. 
    nra.
Qed.

Lemma mean_bounded (M : Q) (qs : list Q) :
  qs <> [] ->
  Forall (fun q => Qabs q <= M) qs ->
  Qabs (Qsum qs / inject_Z (Z.of_nat (List.length qs))) <= M.
Proof.
  intros Hne Hall. pose proof (Qsum_bounded M qs Hall) as Hs.
  assert (Hn : 0 < inject_Z (Z.of_nat (List.length qs))).
  { change 0 with (inject_Z 0). rewrite <- Zlt_Qlt.
    destruct qs; [done|]. simpl. lia. }
  revert Hs Hn. generalize (inject_Z (Z.of_nat (List.length qs))) (Qsum qs).
  intros n s Hs Hn.
  unfold Qdiv. rewrite Qabs_Qmult, Qabs_Qinv, (Qabs_pos n) by lra.
  apply Qle_shift_div_r; [done|]. lra.
Qed.

End FloatOfFraction.

(** The mean of a history of times is the conversion of their arithmetic
    mean. *)
Lemma py_mean_times (qs : list Q) :
  qs <> [] ->
  py_mean (map Some qs)
  = let* r := float_of_fraction (arithmetic_mean qs) in Val (Some r).
Proof.
  intros Hne. destruct qs as [|x qs]; [done|].
  unfold py_mean. change (map Some (x :: qs)) with (Some x :: map Some qs).
  cbv beta iota. change (Some x :: map Some qs) with (map Some (x :: qs)).
  rewrite exact_sum_times. simpl obind. by rewrite length_map.
Qed.

(** C9: for the entry at a valid index whose history is the times [qs]:
    when [qs] is not empty, [fastest] returns an element of [qs] below all
    the others, [slowest] an element above all the others, and [mean] the
    arithmetic mean of [qs] as a float, that is a float to which no float
    is nearer than it (the arithmetic mean itself when that is a float),
    the ledger unchanged; the conversion of the mean to a float raises
    [OverflowError] only on a history that holds a number that is no
    float.  When [qs] is empty, the three raise ([ValueError],
    [ValueError], [StatisticsError]).  On [10.0, 20.0, 30.0] they give
    10.0, 30.0 and 20.0; on [1.0, 2.0, 2.0] the mean is the float
    1.6666666666666667. *)
Theorem statistics_of_history (E : Env) (fuel : nat) (w : world) (i : Z)
    (k : nat) (qs : list Q) :
  norm_index (List.length (responses (ledger w))) i = Some k ->
  responses (ledger w) !! k = Some (map Some qs) ->
  (qs <> [] ->
   (exists lo, fastest E fuel (OInt i) w = Ret (One (Some lo)) w
               /\ In lo qs /\ forall q, In q qs -> (lo <= q)%Q)
   /\ (exists hi, slowest E fuel (OInt i) w = Ret (One (Some hi)) w
                  /\ In hi qs /\ forall q, In q qs -> (q <= hi)%Q)
   /\ ((exists r, mean E fuel (OInt i) w = Ret (One (Some r)) w
                  /\ is_float r
                  /\ (forall d, is_float d ->
                         (Qabs (arithmetic_mean qs - r)
                          <= Qabs (arithmetic_mean qs - d))%Q)
                  /\ (is_float (arithmetic_mean qs) ->
                      (r == arithmetic_mean qs)%Q))
       \/ (mean E fuel (OInt i) w = Raise OverflowError w
           /\ ~ Forall is_float qs)))
  /\
  (qs = [] ->
   fastest E fuel (OInt i) w = Raise ValueError w
   /\ slowest E fuel (OInt i) w = Raise ValueError w
   /\ mean E fuel (OInt i) w = Raise StatisticsError w)
  /\
  (py_min (map Some [10; 20; 30]%Q) = Val (Some 10%Q)
   /\ py_max (map Some [10; 20; 30]%Q) = Val (Some 30%Q)
   /\ py_mean (map Some [10; 20; 30]%Q) = Val (Some 20%Q)
   /\ py_mean (map Some [1; 2; 2]%Q)
      = Val (Some (7505999378950827 # 4503599627370496)%Q)).
Proof.
  intros Hk Hhist. unfold fastest, slowest, mean.
  rewrite !(do_stat_index E fuel _ w i k _ Hk Hhist).
  split; [|split].
  - intros Hne. split; [|split].
    + destruct qs as [|x qs]; [done|].
      destruct (min_loop_least qs x) as (m & Hm & Hin & Hle & Hall).
      exists m. simpl. rewrite Hm. split; [done|]. split; [exact Hin|].
      intros q [<-|Hq]; auto.
    + destruct qs as [|x qs]; [done|].
      destruct (max_loop_greatest qs x) as (m & Hm & Hin & Hle & Hall).
      exists m. simpl. rewrite Hm. split; [done|]. split; [exact Hin|].
      intros q [<-|Hq]; auto.
    + rewrite (py_mean_times qs Hne).
      pose proof (float_of_fraction_spec (arithmetic_mean qs)) as Hspec.
      destruct (float_of_fraction (arithmetic_mean qs)) as [r|e|];
        [left|right|done].
      * destruct Hspec as [Hr Hnear]. exists r.
        split; [done|]. split; [exact Hr|]. split; [exact Hnear|].
        intros Hmean. specialize (Hnear _ Hmean).
        assert (H0 : (Qabs (arithmetic_mean qs - arithmetic_mean qs) == 0)%Q).
        { rewrite (Qabs_wd _ 0%Q); [reflexivity|ring]. }
        destruct (Qabs_cases (arithmetic_mean qs - r)) as [[? ?]|[? ?]]; lra.
      * destruct Hspec as [-> Hbig]. split; [done|]. intros Hall.
        apply (Qlt_not_le _ _ Hbig). apply mean_bounded; [exact Hne|].
        eapply Forall_impl; [exact Hall|]. apply is_float_bounded.
  - intros ->. done.
  - repeat split; vm_compute; reflexivity.
Qed.

Lemma statistics_of_history_witness :
  exists lo,
    fastest Example.two_hosts 5 (OInt 0) Example.one_entry
    = Ret (One (Some lo)) Example.one_entry
    /\ In lo [10; 20; 30]%Q /\ forall q, In q [10; 20; 30]%Q -> (lo <= q)%Q.
Proof.
  assert (Hne : [10; 20; 30]%Q <> []) by discriminate.
  exact (proj1 (proj1 (statistics_of_history Example.two_hosts 5
                         Example.one_entry 0 0 [10; 20; 30]%Q eq_refl eq_refl)
                  Hne)).
Defined.

(** ** What a call keeps of the objects *)

Lemma unchanged_deref (self : nat) : unchanged (deref self).
Proof.
  intros h h'. unfold deref. destruct (h !! self); simpl; by intros [= <-].
Qed.

Lemma unchanged_get_ping_command (self : nat) :
  unchanged (get_ping_command self).
Proof.
  apply unchanged_bind; [apply unchanged_deref|]. intros p.
  destruct (ping_command p); [apply unchanged_ret | apply unchanged_raise].
Qed.

Lemma set_ping_command_length (n self : nat) (c : Popen) :
  keeps (has_length n) (set_ping_command self c).
Proof.
  apply keeps_bind; [apply keeps_unchanged, unchanged_deref|].
  intros p h Hh h'. simpl. intros [= <-].
  unfold has_length in *. by rewrite length_insert.
Qed.

Lemma stdout_readline_length (n self : nat) :
  keeps (has_length n) (stdout_readline self).
Proof.
  apply keeps_bind; [apply keeps_unchanged, unchanged_get_ping_command|].
  intros c. destruct (readline (stdout c)) as [l r].
  apply keeps_bind; [apply set_ping_command_length|].
  intros _. apply keeps_ret.
Qed.

Lemma stdout_peek_length (n self : nat) :
  keeps (has_length n) (stdout_peek self).
Proof.
  apply keeps_bind; [apply keeps_unchanged, unchanged_get_ping_command|].
  intros c. destruct (peek (stdout c)) as [data r].
  apply keeps_bind; [apply set_ping_command_length|].
  intros _. apply keeps_ret.
Qed.

Lemma skip_stale_length (n fuel self : nat) (line : list pyval) :
  keeps (has_length n) (skip_stale fuel self line).
Proof.
  revert line. induction fuel as [|fuel IH]; intros line; simpl.
  - by intros h Hh h'.
  - apply keeps_bind; [apply stdout_peek_length|]. intros data.
    destruct (1 <? count_newlines data)%nat; [|apply keeps_ret].
    apply keeps_bind; [apply stdout_readline_length|]. intros l. apply IH.
Qed.

Lemma read_line_length (n fuel : nat) (g : generator) :
  keeps (has_length n) (read_line fuel g).
Proof.
  unfold read_line. destruct (bool_decide (packets g = None) && latest g).
  - apply keeps_bind; [apply stdout_readline_length|]. intros l.
    apply skip_stale_length.
  - apply keeps_bind; [apply stdout_readline_length|]. intros l.
    apply keeps_ret.
Qed.

Lemma gen_start_length (E : Env) (n : nat) (g : generator) :
  keeps (has_length n) (gen_start E g).
Proof.
  unfold gen_start. apply keeps_bind.
  { apply keeps_unchanged. unfold run_ping.
    destruct (platform_windows E); [apply unchanged_raise | apply unchanged_ret]. }
  intros c. apply keeps_bind; [apply set_ping_command_length|].
  intros _. apply keeps_bind; [apply stdout_readline_length|].
  intros _. apply keeps_ret.
Qed.

Lemma gen_iteration_length (E : Env) (n fuel : nat) (g : generator)
    (c : counter) :
  keeps (has_length n) (gen_iteration E fuel g c).
Proof.
  assert (Hbody : forall c' : counter,
    keeps (has_length n)
          (do line <- read_line fuel g;
           do s <- lift (parse_line E fuel line); ret (s, c'))).
  { intros c'. apply keeps_bind; [apply read_line_length|]. intros line.
    apply keeps_bind; [apply keeps_unchanged, unchanged_lift|].
    intros s. apply keeps_ret. }
  destruct c as [|[|k]]; simpl;
    [apply Hbody | apply keeps_unchanged, unchanged_raise | apply Hbody].
Qed.

Lemma gen_body_length (E : Env) (n fuel : nat) (g : generator) :
  keeps (has_length n) (gen_body E fuel g).
Proof.
  unfold gen_body. destruct (pc g) as [|c|].
  - apply keeps_bind; [apply gen_start_length|]. intros c.
    apply gen_iteration_length.
  - apply gen_iteration_length.
  - apply keeps_unchanged, unchanged_raise.
Qed.

(** [next] keeps the number of objects and the object of the generator. *)
Lemma next_shape (E : Env) (fuel : nat) (h h' : heap) (g g' : generator) :
  store_after (next E fuel (h, g)) = Some (h', g') ->
  List.length h' = List.length h /\ gen_self g' = gen_self g.
Proof.
  unfold next.
  destruct (pc g) eqn:Hpc; [| |simpl; by intros [= <- <-]];
    (destruct (gen_body E fuel g h) as [[s c'] h1|e h1|] eqn:Hbody; simpl;
     try done; intros [= <- <-]; (split; [|done]);
     apply (gen_body_length E (List.length h) fuel g h eq_refl);
     by rewrite Hbody).
Qed.

Lemma Ping_stop_length (n self : nat) : keeps (has_length n) (Ping_stop self).
Proof.
  unfold Ping_stop. apply keeps_try_except; [|apply keeps_ret].
  apply keeps_bind; [apply keeps_unchanged, unchanged_get_ping_command|].
  intros c. apply set_ping_command_length.
Qed.

Lemma stop_each_length (n : nat) (l : list nat) :
  keeps (has_length n) (stop_each l).
Proof.
  induction l as [|p l IH]; simpl; [apply keeps_ret|].
  apply keeps_bind; [apply Ping_stop_length|]. intros _. exact IH.
Qed.

(** ** What a call keeps of the ledger *)

(** An invariant of the ledger that [get] with an integer, [stop], the
    body of [remove] and the constructor keep holds in every state the
    ledger reaches. *)
Section LedgerInvariant.

Variable E : Env.
Variable P : world -> Prop.
Hypothesis get_int_keeps : forall fuel address, keeps P (get_int E fuel address).
Hypothesis stop_keeps : keeps P stop.
Hypothesis remove_at_keeps : forall index, keeps P (remove_at index).
Hypothesis init_establishes :
  forall addrs latest_arg h0 pt h,
    PingTest_init E addrs latest_arg h0 = Ret pt h ->
    P {| objects := h; ledger := pt |}.

Lemma unchanged_addresses_index (address : pyobj) :
  unchanged (addresses_index address).
Proof.
  intros w w'. unfold addresses_index.
  destruct address as [| |s|]; simpl; try (by intros [= <-]).
  destruct (index_of s _); simpl; by intros [= <-].
Qed.

Lemma get_address_index_keeps (fuel : nat) (address : pyobj) :
  keeps P (get_address_index E fuel address).
Proof.
  assert (Hlookup : keeps P
            (do idx <- addresses_index address;
             do r <- get_int E fuel idx; ret (obj_of_time r))).
  { apply keeps_bind; [apply keeps_unchanged, unchanged_addresses_index|].
    intros idx. apply keeps_bind; [apply get_int_keeps|].
    intros r. apply keeps_ret. }
  destruct address; simpl; try apply keeps_ret; exact Hlookup.
Qed.

Lemma get_each_keeps (fuel : nat) (indices : list nat) :
  keeps P (get_each E fuel indices).
Proof.
  induction indices as [|index rest IH]; simpl; [apply keeps_ret|].
  apply keeps_bind; [apply get_int_keeps|]. intros r.
  apply keeps_bind; [exact IH|]. intros answer. apply keeps_ret.
Qed.

Lemma get_keeps (fuel : nat) (address : pyobj) : keeps P (get E fuel address).
Proof.
  unfold get. apply keeps_bind; [apply get_address_index_keeps|].
  assert (Hall : keeps P
            (do w <- get_store;
             do answer <- get_each E fuel (seq 0 (List.length (times (ledger w))));
             ret (Many answer))).
  { apply keeps_bind.
    - intros w Hw w'. simpl. by intros [= <-].
    - intros w. apply keeps_bind; [apply get_each_keeps|].
      intros answer. apply keeps_ret. }
  intros [|i|s|q]; try exact Hall.
  apply keeps_bind; [apply get_int_keeps|]. intros r. apply keeps_ret.
Qed.

Lemma unchanged_do_stat_int (stat : list (option Q) -> outcome (option Q))
    (address : Z) :
  unchanged (do_stat_int stat address).
Proof.
  intros w w'. unfold do_stat_int.
  destruct (py_getitem (responses (ledger w)) address) as [[k hist]|e|];
    simpl; try (by intros [= <-]).
  unfold lift. destruct (stat hist); simpl; by intros [= <-].
Qed.

Lemma unchanged_do_stat_each (stat : list (option Q) -> outcome (option Q))
    (indices : list nat) :
  unchanged (do_stat_each stat indices).
Proof.
  induction indices as [|index rest IH]; simpl; [apply unchanged_ret|].
  apply unchanged_bind; [apply unchanged_do_stat_int|]. intros r.
  apply unchanged_bind; [exact IH|]. intros answers. apply unchanged_ret.
Qed.

Lemma do_stat_keeps (fuel : nat)
    (stat : list (option Q) -> outcome (option Q)) (address : pyobj) :
  keeps P (do_stat E fuel stat address).
Proof.
  unfold do_stat. apply keeps_bind; [apply get_address_index_keeps|].
  assert (Hall : keeps P
            (do w <- get_store;
             do answers <- do_stat_each stat (seq 0 (List.length (times (ledger w))));
             ret (Many answers))).
  { apply keeps_bind.
    - intros w Hw w'. simpl. by intros [= <-].
    - intros w.
      apply keeps_bind; [apply keeps_unchanged, unchanged_do_stat_each|].
      intros answers. apply keeps_ret. }
  intros [|i|s|q]; try exact Hall.
  apply keeps_bind; [apply keeps_unchanged, unchanged_do_stat_int|].
  intros r. apply keeps_ret.
Qed.

Lemma remove_keeps (fuel : nat) (address : pyobj) :
  keeps P (remove E fuel address).
Proof.
  unfold remove. apply keeps_bind; [apply get_address_index_keeps|].
  apply remove_at_keeps.
Qed.

Lemma reachable_invariant (w : world) : reachable E w -> P w.
Proof.
  induction 1 as [addrs latest_arg h0 pt h Hinit | w fuel o w' _ IH Hrun].
  - by eapply init_establishes.
  - destruct o; simpl in Hrun.
    + by eapply get_keeps.
    + by eapply do_stat_keeps.
    + by eapply do_stat_keeps.
    + by eapply do_stat_keeps.
    + by eapply stop_keeps.
    + by eapply remove_keeps.
Qed.

End LedgerInvariant.

(** ** The histories hold numbers *)

Lemma skip_stale_yields (fuel self : nat) (line : list pyval) :
  is_split line -> yields (skip_stale fuel self line) is_split.
Proof.
  revert line. induction fuel as [|fuel IH]; intros line Hline; simpl.
  - by intros s a s'.
  - apply yields_bind with (Q1 := fun _ => True); [apply yields_any|].
    intros data _. destruct (1 <? count_newlines data)%nat.
    + apply yields_bind with (Q1 := fun _ => True); [apply yields_any|].
      intros l _. apply IH. by exists l.
    + by apply yields_ret.
Qed.

Lemma read_line_yields (fuel : nat) (g : generator) :
  yields (read_line fuel g) is_split.
Proof.
  unfold read_line. destruct (bool_decide (packets g = None) && latest g).
  - apply yields_bind with (Q1 := fun _ => True); [apply yields_any|].
    intros l _. apply skip_stale_yields. by exists l.
  - apply yields_bind with (Q1 := fun _ => True); [apply yields_any|].
    intros l _. apply yields_ret. by exists l.
Qed.

Lemma gen_iteration_yields (E : Env) (fuel : nat) (g : generator) (c : counter) :
  yields (gen_iteration E fuel g c) (fun sc => is_Some (snd (fst sc))).
Proof.
  assert (Hparse : forall c' : counter,
    yields (do line <- read_line fuel g;
            do s <- lift (parse_line E fuel line); ret (s, c'))
           (fun sc : sample * counter => is_Some (snd (fst sc)))).
  { intros c'. eapply yields_bind; [apply read_line_yields|].
    intros line [raw_line ->].
    apply yields_bind with (Q1 := fun s : sample => is_Some (snd s)).
    - apply yields_lift. intros s Hs.
      by apply (parse_line_time_some E fuel raw_line).
    - intros s Hs. by apply yields_ret. }
  destruct c as [|[|n]]; simpl; [apply Hparse | apply yields_raise | apply Hparse].
Qed.

(** Every sample [next] returns carries a time. *)
Lemma next_yields (E : Env) (fuel : nat) :
  yields (next E fuel) (fun s => is_Some (snd s)).
Proof.
  intros [h g] s st' Hnext.
  apply next_returns in Hnext as (c & h' & Hbody & _).
  revert Hbody. unfold gen_body.
  destruct (pc g) as [|c0|].
  - intros H.
    eapply (yields_bind (gen_start E g) _ (fun _ => True) _
              (yields_any _) (fun c1 _ => gen_iteration_yields E fuel g c1))
      in H. exact H.
  - intros H. by apply gen_iteration_yields in H.
  - done.
Qed.

Lemma advance_yields (E : Env) (fuel : nat) (address : Z) :
  yields (advance E fuel address) (fun s => is_Some (snd s)).
Proof.
  intros w s w'. unfold advance.
  destruct (py_getitem (times (ledger w)) address) as [[k g]|e|]; try done.
  destruct (next E fuel (objects w, g)) as [s0 [h g']|e [h g']|] eqn:Hnext;
    try done.
  intros [= <- _]. by apply next_yields in Hnext.
Qed.

Lemma advance_same_responses (E : Env) (fuel : nat) (address : Z)
    (w w' : world) :
  store_after (advance E fuel address w) = Some w' ->
  responses (ledger w') = responses (ledger w).
Proof.
  unfold advance.
  destruct (py_getitem (times (ledger w)) address) as [[k g]|e|];
    [|intros ?; by simplify_eq/=..].
  destruct (next E fuel (objects w, g)) as [s0 [h g']|e [h g']|];
    intros ?; by simplify_eq/=.
Qed.

Lemma py_getitem_lookup {A} (l : list A) (i : Z) (k : nat) (x : A) :
  py_getitem l i = Val (k, x) -> l !! k = Some x.
Proof.
  unfold py_getitem. destruct (norm_index (List.length l) i) as [k'|]; [|done].
  destruct (l !! k') as [x'|] eqn:Hl; [|done]. by intros [= <- <-].
Qed.

(** A step that leaves the histories as they are keeps [history_ok]. *)
Lemma keeps_same_responses {A} (m : M world A) :
  (forall w w', store_after (m w) = Some w' ->
                responses (ledger w') = responses (ledger w)) ->
  keeps history_ok m.
Proof.
  intros Hsame w Hw w' Hw'. unfold history_ok. by rewrite (Hsame w w' Hw').
Qed.

Lemma keeps_on_objects {A} (m : M heap A) : keeps history_ok (on_objects m).
Proof.
  apply keeps_same_responses. intros w w'. unfold on_objects.
  destruct (m (objects w)); simpl; by intros [= <-].
Qed.

Lemma get_int_history (E : Env) (fuel : nat) (address : Z) :
  keeps history_ok (get_int E fuel address).
Proof.
  intros w Hw w'. unfold get_int, bind.
  destruct (advance E fuel address w) as [s w1|e w1|] eqn:Hadv; [| |done].
  - assert (Hw1 : responses (ledger w1) = responses (ledger w)).
    { apply (advance_same_responses E fuel address). by rewrite Hadv. }
    pose proof (advance_yields E fuel address w s w1 Hadv) as Hs.
    unfold record_response.
    destruct (py_getitem (responses (ledger w1)) address) as [[k hist]|e|]
      eqn:Hget; simpl; try done.
    + intros [= <-]. unfold history_ok. simpl.
      apply py_getitem_lookup in Hget.
      apply Forall_insert.
      * by rewrite Hw1.
      * apply Forall_app. split; [|by apply Forall_singleton].
        eapply Forall_lookup_1; [|exact Hget]. by rewrite Hw1.
    + intros [= <-]. unfold history_ok. by rewrite Hw1.
  - simpl. intros [= <-]. unfold history_ok.
    rewrite (advance_same_responses E fuel address w w1); [done|].
    by rewrite Hadv.
Qed.

Lemma stop_history : keeps history_ok stop.
Proof. intros w Hw w'. unfold stop. by apply keeps_on_objects. Qed.

Lemma remove_at_history (index : pyobj) : keeps history_ok (remove_at index).
Proof.
  unfold remove_at. apply keeps_bind.
  { apply keeps_same_responses. intros w w'.
    destruct (pop_at (addresses (ledger w)) index); simpl; by intros [= <-]. }
  intros _. apply keeps_bind.
  { apply keeps_same_responses. intros w w'.
    destruct (pop_at (times (ledger w)) index); simpl; by intros [= <-]. }
  intros _. apply keeps_bind.
  { apply keeps_same_responses. intros w w'. unfold lift.
    destruct (item_at (pings (ledger w)) index); simpl; by intros [= <-]. }
  intros p. apply keeps_bind; [apply keeps_on_objects|].
  intros _. apply keeps_bind.
  { apply keeps_same_responses. intros w w'.
    destruct (pop_at (pings (ledger w)) index); simpl; by intros [= <-]. }
  intros _ w Hw w'.
  destruct (pop_at (responses (ledger w)) index) as [l|e|] eqn:Hpop; simpl;
    try (by intros [= <-]).
  intros [= <-]. unfold history_ok. simpl.
  destruct index as [|i|s|q]; simpl in Hpop; try done.
  unfold py_pop in Hpop.
  destruct (norm_index _ i) as [k|]; [|done].
  injection Hpop as <-. by apply Forall_delete.
Qed.

Lemma init_loop_history (E : Env) (latest_arg : bool) (addrs : list string) :
  keeps history_ok (init_loop E latest_arg addrs).
Proof.
  induction addrs as [|address rest IH]; simpl; [apply keeps_ret|].
  apply keeps_bind; [apply keeps_on_objects|]. intros p.
  apply keeps_bind.
  { apply keeps_same_responses. intros w w'. simpl. by intros [= <-]. }
  intros _. apply keeps_bind.
  { apply keeps_same_responses. intros w w'. simpl. by intros [= <-]. }
  intros _. apply keeps_bind; [|intros _; exact IH].
  intros w Hw w'. simpl. intros [= <-]. unfold history_ok. simpl.
  apply Forall_app. split; [exact Hw|]. by apply Forall_singleton.
Qed.

Lemma init_history (E : Env) (addrs : list string) (latest_arg : bool)
    (h0 h : heap) (pt : PingTest) :
  PingTest_init E addrs latest_arg h0 = Ret pt h ->
  history_ok {| objects := h; ledger := pt |}.
Proof.
  unfold PingTest_init.
  destruct (init_loop E latest_arg addrs _) as [u w|e w|] eqn:Hloop; try done.
  intros [= <- <-]. destruct w as [hw lw]. simpl.
  eapply (init_loop_history E latest_arg addrs); [|by rewrite Hloop].
  unfold history_ok. simpl. constructor.
Qed.

(** C4: in every state a ledger reaches, by its constructor and any calls
    of [get], [fastest], [slowest], [mean], [stop] and [remove] that return
    or raise, no history holds [None]: [get] appends a time only when
    [next] returned a sample, and a sample read from the process always
    carries a number, a line of an unreachable host making [next] raise
    before anything is appended. *)
Theorem histories_never_hold_none (E : Env) (w : world) :
  reachable E w ->
  forall hist, In hist (responses (ledger w)) -> ~ In None hist.
Proof.
  intros Hreach hist Hhist Hnone.
  assert (Hok : history_ok w).
  { apply (reachable_invariant E history_ok); try done.
    - apply get_int_history.
    - apply stop_history.
    - apply remove_at_history.
    - intros addrs latest_arg h0 pt h. apply init_history. }
  unfold history_ok in Hok.
  rewrite List.Forall_forall in Hok. specialize (Hok hist Hhist).
  rewrite List.Forall_forall in Hok. by destruct (Hok None Hnone).
Qed.

Lemma histories_never_hold_none_witness :
  responses (ledger Example.after_get) = [[Some (21 # 2)%Q]; []]
  /\ forall hist, In hist (responses (ledger Example.after_get)) ->
                  ~ In None hist.
Proof.
  split; [reflexivity|].
  apply (histories_never_hold_none Example.two_hosts).
  apply (reach_step Example.two_hosts Example.two_entries 20 (OpGet (OInt 0))).
  - by apply (reach_init Example.two_hosts ["a"; "b"] false []).
  - reflexivity.
Defined.

(** ** The ledger stays well formed *)

Lemma wf_set_objects (w : world) (h : heap) :
  ledger_wf w -> List.length h = List.length (objects w) ->
  ledger_wf (set_objects h w).
Proof.
  intros (Ht & Hp & Hr & Hobj & Halias) Hlen. unfold ledger_wf. simpl.
  rewrite Hlen. done.
Qed.

Lemma wf_replace_gen (w : world) (k : nat) (g g' : generator) (h : heap) :
  ledger_wf w ->
  times (ledger w) !! k = Some g ->
  gen_self g' = gen_self g ->
  List.length h = List.length (objects w) ->
  ledger_wf (set_times (<[k := g']> (times (ledger w))) (set_objects h w)).
Proof.
  intros (Ht & Hp & Hr & Hobj & Halias) Hk Hself Hlen.
  unfold ledger_wf. simpl. rewrite length_insert, Hlen.
  repeat split; try done.
  intros k0 g0 p0 Hg0 Hp0. destruct (decide (k0 = k)) as [->|Hne].
  - rewrite list_lookup_insert_eq in Hg0 by (by eapply lookup_lt_Some).
    injection Hg0 as <-. rewrite Hself. by apply (Halias k).
  - rewrite list_lookup_insert_ne in Hg0 by done. by apply (Halias k0).
Qed.

Lemma advance_wf (E : Env) (fuel : nat) (address : Z) :
  keeps ledger_wf (advance E fuel address).
Proof.
  intros w Hw w'. unfold advance.
  destruct (py_getitem (times (ledger w)) address) as [[k g]|e|] eqn:Hget;
    [|intros ?; by simplify_eq/=..].
  apply py_getitem_lookup in Hget.
  destruct (next E fuel (objects w, g)) as [s [h g']|e [h g']|] eqn:Hnext;
    [| |done].
  - simpl. intros [= <-].
    destruct (next_shape E fuel (objects w) h g g') as [Hlen Hself];
      [by rewrite Hnext|].
    by apply wf_replace_gen with g.
  - simpl. intros [= <-].
    destruct (next_shape E fuel (objects w) h g g') as [Hlen Hself];
      [by rewrite Hnext|].
    by apply wf_replace_gen with g.
Qed.

Lemma record_response_wf (address : Z) (response : option Q) :
  keeps ledger_wf (record_response address response).
Proof.
  intros w (Ht & Hp & Hr & Hobj & Halias) w'. unfold record_response.
  destruct (py_getitem (responses (ledger w)) address) as [[k hist]|e|];
    simpl; [|intros ?; by simplify_eq..].
  intros [= <-]. unfold ledger_wf. simpl. by rewrite length_insert.
Qed.

Lemma get_int_wf (E : Env) (fuel : nat) (address : Z) :
  keeps ledger_wf (get_int E fuel address).
Proof.
  unfold get_int. apply keeps_bind; [apply advance_wf|]. intros s.
  apply keeps_bind; [apply record_response_wf|]. intros _. apply keeps_ret.
Qed.

Lemma stop_wf : keeps ledger_wf stop.
Proof.
  intros w Hw w'. unfold stop, on_objects.
  destruct (stop_each (pings (ledger w)) (objects w)) as [u h|e h|] eqn:Hstop;
    simpl; [| |done]; intros [= <-]; apply wf_set_objects; try done;
    apply (stop_each_length (List.length (objects w)) (pings (ledger w))
             (objects w) eq_refl);
    by rewrite Hstop.
Qed.

Lemma wf_delete (w : world) (k : nat) (h1 : heap) :
  ledger_wf w -> (k < List.length (addresses (ledger w)))%nat ->
  List.length h1 = List.length (objects w) ->
  ledger_wf {| objects := h1;
               ledger := {| addresses := delete k (addresses (ledger w));
                            times := delete k (times (ledger w));
                            pings := delete k (pings (ledger w));
                            responses := delete k (responses (ledger w)) |} |}.
Proof.
  intros (Ht & Hp & Hr & Hobj & Halias) Hk Hlen. unfold ledger_wf. simpl.
  rewrite !length_delete by (apply lookup_lt_is_Some; lia).
  rewrite Ht, Hp, Hr, Hlen. repeat split; try done.
  - by apply Forall_delete.
  - intros k0 g0 p0 Hg0 Hp0. destruct (decide (k0 < k)%nat).
    + rewrite list_lookup_delete_lt in Hg0 by done.
      rewrite list_lookup_delete_lt in Hp0 by done.
      by apply (Halias k0).
    + rewrite list_lookup_delete_ge in Hg0 by lia.
      rewrite list_lookup_delete_ge in Hp0 by lia.
      by apply (Halias (S k0)).
Qed.

Lemma remove_at_wf (index : pyobj) : keeps ledger_wf (remove_at index).
Proof.
  intros w Hw w'.
  destruct index as [|i|s|q]; try (simpl; intros ?; by simplify_eq).
  destruct (norm_index (List.length (addresses (ledger w))) i) as [k|] eqn:Hk.
  - pose proof Hw as (Ht & Hp & Hr & Hobj & Halias).
    pose proof (norm_index_lt _ _ _ Hk) as Hlt.
    destruct (lookup_lt_is_Some_2 (pings (ledger w)) k) as [p Hpk]; [lia|].
    assert (Hpobj : (p < List.length (objects w))%nat).
    { rewrite List.Forall_forall in Hobj. apply Hobj.
      apply list_elem_of_In, list_elem_of_lookup. eauto. }
    destruct (lookup_lt_is_Some_2 (objects w) p Hpobj) as [obj Hobj'].
    destruct (Ping_stop_returns (objects w) p obj Hobj')
      as (h1 & Hstop & _ & Hlen & _).
    rewrite (remove_at_int w i k p h1 Ht Hp Hr Hk Hpk Hstop). simpl.
    intros [= <-]. by apply wf_delete.
  - unfold remove_at, bind, pop_at, py_pop. rewrite Hk. simpl.
    by intros [= <-].
Qed.

(** During construction the three lists grow together. *)
Lemma init_loop_wf (E : Env) (latest_arg : bool) (addrs : list string)
    (w w' : world) (u : unit) (m : nat) :
  List.length (times (ledger w)) = m ->
  List.length (pings (ledger w)) = m ->
  List.length (responses (ledger w)) = m ->
  Forall (fun p => (p < List.length (objects w))%nat) (pings (ledger w)) ->
  (forall k g p, times (ledger w) !! k = Some g ->
                 pings (ledger w) !! k = Some p -> gen_self g = p) ->
  init_loop E latest_arg addrs w = Ret u w' ->
  addresses (ledger w') = addresses (ledger w)
  /\ List.length (times (ledger w')) = (m + List.length addrs)%nat
  /\ List.length (pings (ledger w')) = (m + List.length addrs)%nat
  /\ List.length (responses (ledger w')) = (m + List.length addrs)%nat
  /\ Forall (fun p => (p < List.length (objects w'))%nat) (pings (ledger w'))
  /\ (forall k g p, times (ledger w') !! k = Some g ->
                    pings (ledger w') !! k = Some p -> gen_self g = p).
Proof.
  revert w m. induction addrs as [|address rest IH];
    intros w m Ht Hp Hr Hobj Halias.
  - simpl. intros [= _ <-]. rewrite Nat.add_0_r. done.
  - simpl. unfold bind at 1. unfold on_objects, Ping_init.
    destruct (getaddrinfo E address None) as [ip|]; [|done].
    unfold bind. intros Hloop.
    apply (IH _ (S m)) in Hloop; simpl.
    + simpl in Hloop. rewrite <- Nat.add_succ_comm. exact Hloop.
    + rewrite length_app. simpl. lia.
    + rewrite length_app. simpl. lia.
    + rewrite length_app. simpl. lia.
    + rewrite length_app. simpl. apply Forall_app. split.
      * eapply Forall_impl; [exact Hobj|]. simpl. intros. lia.
      * apply Forall_singleton. lia.
    + intros k g p Hg Hpk. destruct (decide (k < m)%nat) as [Hlt|Hge].
      * rewrite lookup_app_l in Hg by lia. rewrite lookup_app_l in Hpk by lia.
        by apply (Halias k).
      * rewrite lookup_app_r in Hg by lia. rewrite lookup_app_r in Hpk by lia.
        rewrite Ht in Hg. rewrite Hp in Hpk.
        destruct (k - m)%nat; simpl in *; [|done].
        by simplify_eq.
Qed.

Lemma init_wf (E : Env) (addrs : list string) (latest_arg : bool)
    (h0 h : heap) (pt : PingTest) :
  PingTest_init E addrs latest_arg h0 = Ret pt h ->
  ledger_wf {| objects := h; ledger := pt |}.
Proof.
  unfold PingTest_init.
  destruct (init_loop E latest_arg addrs _) as [u w|e w|] eqn:Hloop; try done.
  intros [= <- <-].
  apply (init_loop_wf E latest_arg addrs _ w u 0) in Hloop; simpl; try done.
  destruct Hloop as (Ha & Ht & Hp & Hr & Hobj & Halias). simpl in *.
  unfold ledger_wf. simpl. rewrite Ha. done.
Qed.

(** In every state a ledger reaches the addresses, the streams, the
    objects and the histories have the same length, every entry has its
    [Ping] object, and the stream of an entry reads from that object. *)
Lemma ledger_wf_reachable (E : Env) (w : world) : reachable E w -> ledger_wf w.
Proof.
  apply (reachable_invariant E ledger_wf).
  - apply get_int_wf.
  - apply stop_wf.
  - apply remove_at_wf.
  - intros addrs latest_arg h0 pt h. apply init_wf.
Qed.



(* ================================================================= *)
(** * Further properties of the code *)

(** ** [find_starting_item] *)

(** An item [find_starting_item] passes over: of another type than the
    search term, or not starting with it. *)
Lemma find_starting_item_none (iterable : list pyval) (term : pyval) :
  find_starting_item iterable term = None <->
  Forall (fun x => same_type x term && py_startswith x term = false) iterable.
Proof.
  induction iterable as [|item rest IH]; simpl.
  - split; [constructor | done].
  - destruct (same_type item term) eqn:Hty; simpl.
    + destruct (py_startswith item term) eqn:Hsw.
      * split; [done|]. intros H. inversion H as [|? ? Hx _]; subst.
        rewrite Hty, Hsw in Hx. discriminate.
      * rewrite IH. split.
        -- intros H. constructor; [by rewrite Hty, Hsw | done].
        -- intros H. by inversion H.
    + rewrite IH. split.
      * intros H. constructor; [by rewrite Hty | done].
      * intros H. by inversion H.
Qed.

(** [find_starting_item] returns the first item of the type of the search
    term that starts with it, whatever comes after it, and [None] exactly
    when the list holds no such item. *)
Theorem find_starting_item_first (iterable : list pyval) (term : pyval) :
  match find_starting_item iterable term with
  | Some item =>
      exists before after,
        iterable = before ++ item :: after
        /\ same_type item term = true
        /\ py_startswith item term = true
        /\ Forall (fun x => same_type x term && py_startswith x term = false)
                  before
  | None =>
      Forall (fun x => same_type x term && py_startswith x term = false)
             iterable
  end.
Proof.
  induction iterable as [|item rest IH]; simpl; [constructor|].
  destruct (same_type item term) eqn:Hty; simpl.
  - destruct (py_startswith item term) eqn:Hsw.
    + exists [], rest. repeat split; done || constructor.
    + destruct (find_starting_item rest term) as [found|].
      * destruct IH as (before & after & -> & Hty' & Hsw' & Hbefore).
        exists (item :: before), after. repeat split; try done.
        constructor; [by rewrite Hty, Hsw | done].
      * constructor; [by rewrite Hty, Hsw | done].
  - destruct (find_starting_item rest term) as [found|].
    + destruct IH as (before & after & -> & Hty' & Hsw' & Hbefore).
      exists (item :: before), after. repeat split; try done.
      constructor; [by rewrite Hty | done].
    + constructor; [by rewrite Hty | done].
Qed.

(** ** Parsing a well-formed line *)

(** The loop that strips the unit cuts the suffix off after its last digit:
    what it returns is a prefix of the suffix that ends with a digit, and
    what it removed holds no digit. *)
Theorem strip_units_cuts_after_last_digit (fuel : nat) (time : bytes) :
  has_digit time = true ->
  (List.length time <= fuel)%nat ->
  exists kept removed last,
    strip_units fuel time = Val (kept ++ [last])
    /\ time = kept ++ [last] ++ removed
    /\ byte_isdigit last = true
    /\ has_digit removed = false.
Proof.
  intros Hd Hf. rewrite (strip_units_digit time Hd fuel Hf). clear fuel Hf.
  induction time as [|c time IH] using rev_ind; [discriminate|].
  rewrite rstrip_nondigit_snoc. rewrite has_digit_snoc in Hd.
  destruct (byte_isdigit c) eqn:Hc.
  - exists time, [], c. by rewrite app_nil_r.
  - rewrite orb_false_r in Hd.
    destruct (IH Hd) as (kept & removed & last & Heq & Htime & Hlast & Hrem).
    exists kept, (removed ++ [c]), last. repeat split; try done.
    + rewrite Htime at 1. by rewrite <- !app_assoc.
    + by rewrite has_digit_snoc, Hrem, Hc.
Qed.

Lemma strip_units_cuts_after_last_digit_witness :
  exists kept removed last,
    strip_units 6 (B "10.5ms") = Val (kept ++ [last])
    /\ B "10.5ms" = kept ++ [last] ++ removed
    /\ byte_isdigit last = true
    /\ has_digit removed = false.
Proof.
  apply (strip_units_cuts_after_last_digit 6 (B "10.5ms") eq_refl).
  vm_compute. lia.
Defined.

(** A line whose first [icmp_seq=] token carries an integer [n] and whose
    first [time=] token carries, before its trailing non-digits, a number
    [q] parses to [(n, q)], whatever the other tokens are. *)
Theorem parse_line_well_formed (E : Env) (fuel : nat) (toks : list bytes)
    (st tm : bytes) (n : Z) (q : Q) :
  seq_token toks = Some (PyBytes st) ->
  int_of_bytes E (List.skipn 9 st) = Some n ->
  time_token toks = Some (PyBytes tm) ->
  has_digit (List.skipn 5 tm) = true ->
  (List.length (List.skipn 5 tm) <= fuel)%nat ->
  float_of_bytes E (rstrip_nondigit (List.skipn 5 tm)) = Some q ->
  parse_line E fuel (map PyBytes toks) = Val (n, Some q).
Proof.
  intros Hseq Hint Htime Hd Hf Hfloat.
  rewrite parse_line_bytes, Hseq, Hint, Htime.
  by rewrite (strip_units_digit _ Hd fuel Hf), Hfloat.
Qed.

Lemma parse_line_well_formed_witness :
  parse_line (Example.env (fun _ => [])) 10
    (map PyBytes (split (Example.reply_line "7" "10.5")))
  = Val (7, Some (21 # 2)%Q).
Proof.
  apply (parse_line_well_formed (Example.env (fun _ => [])) 10
           (split (Example.reply_line "7" "10.5"))
           (B "icmp_seq=7") (B "time=10.5") 7 (21 # 2)%Q);
    try reflexivity.
  vm_compute. lia.
Defined.

Lemma split_from_spaces (cur ws : bytes) :
  Forall (fun c => byte_isspace c = true) ws ->
  split_from cur ws = match cur with [] => [] | _ => [List.rev cur] end.
Proof.
  intros Hws. revert cur. induction Hws as [|c ws Hc _ IH]; intros cur; [done|].
  simpl. rewrite Hc, (IH []). by destruct cur.
Qed.

Lemma split_from_trailing (cur raw_line ws : bytes) :
  Forall (fun c => byte_isspace c = true) ws ->
  split_from cur (raw_line ++ ws) = split_from cur raw_line.
Proof.
  intros Hws. revert cur. induction raw_line as [|c rest IH]; intros cur.
  - simpl. by apply split_from_spaces.
  - simpl. destruct (byte_isspace c); [|apply IH].
    rewrite (IH []). done.
Qed.

Lemma split_leading (ws raw_line : bytes) :
  Forall (fun c => byte_isspace c = true) ws ->
  split (ws ++ raw_line) = split raw_line.
Proof.
  unfold split. induction 1 as [|c ws Hc _ IH]; [done|].
  simpl. by rewrite Hc.
Qed.

(** Whitespace before and after a line changes nothing: the tokens, and so
    the sample or the exception, are those of the line alone. *)
Theorem parse_line_ignores_outer_whitespace (E : Env) (fuel : nat)
    (before raw_line after : bytes) :
  Forall (fun c => byte_isspace c = true) before ->
  Forall (fun c => byte_isspace c = true) after ->
  py_split (before ++ raw_line ++ after) = py_split raw_line
  /\ parse_line E fuel (py_split (before ++ raw_line ++ after))
     = parse_line E fuel (py_split raw_line).
Proof.
  intros Hb Ha.
  assert (Heq : py_split (before ++ raw_line ++ after) = py_split raw_line).
  { unfold py_split. rewrite (split_leading before _ Hb). unfold split.
    by rewrite (split_from_trailing [] raw_line after Ha). }
  by rewrite Heq.
Qed.

Lemma parse_line_ignores_outer_whitespace_witness :
  parse_line (Example.env (fun _ => [])) 10
    (py_split (B "  " ++ B "icmp_seq=7 time=10.5 ms" ++ [newline]))
  = parse_line (Example.env (fun _ => [])) 10
      (py_split (B "icmp_seq=7 time=10.5 ms")).
Proof.
  apply (parse_line_ignores_outer_whitespace (Example.env (fun _ => [])) 10
           (B "  ") (B "icmp_seq=7 time=10.5 ms") [newline]).
  - repeat constructor.
  - repeat constructor.
Defined.

(** ** The stream from call to call *)

(** Once [next] has raised, the generator is finished: every later call
    raises [StopIteration] and changes nothing, whatever made the first
    call fail. *)
Theorem next_after_raise (E : Env) (fuel : nat) (st st' : heap * generator)
    (e : exn) :
  next E fuel st = Raise e st' ->
  forall fuel', next E fuel' st' = Raise StopIteration st'.
Proof.
  destruct st as [h g]. unfold next.
  destruct (pc g); [| |by intros [= _ <-]];
    (destruct (gen_body E fuel g h) as [[s c'] h1|e1 h1|]; try done;
     by intros [= _ <-] fuel').
Qed.

Lemma next_after_raise_witness :
  next (Example.env (fun _ => [])) 3
    ([Example.started [] []], with_pc Example.latest_gen Finished)
  = Raise StopIteration
      ([Example.started [] []], with_pc Example.latest_gen Finished).
Proof.
  apply (next_after_raise (Example.env (fun _ => [])) 5
           ([Example.started (B "garbage" ++ [newline]) []], Example.latest_gen)
           ([Example.started [] []], with_pc Example.latest_gen Finished)
           TypeError eq_refl 3%nat).
Defined.

(** On Windows the first [next] raises [NotImplementedError]: no process is
    started, no object changes and the generator is finished. *)
Theorem next_on_windows (E : Env) (fuel : nat) (h : heap) (self : nat)
    (packets_arg : option Z) (latest_arg : bool) :
  platform_windows E = true ->
  next E fuel (h, ping self packets_arg latest_arg)
  = Raise NotImplementedError
      (h, with_pc (ping self packets_arg latest_arg) Finished).
Proof.
  intros Hwin. unfold next, gen_body, gen_start, run_ping. simpl.
  rewrite Hwin. reflexivity.
Qed.

Lemma next_on_windows_witness :
  next Example.on_windows 5 ([Example.unstarted], ping 0 None true)
  = Raise NotImplementedError
      ([Example.unstarted], with_pc (ping 0 None true) Finished).
Proof.
  apply (next_on_windows Example.on_windows 5 [Example.unstarted] 0 None true).
  reflexivity.
Defined.

Section Started.

Variable E : Env.
Variable h0 : heap.
Variable self : nat.
Variable p : Ping.
Hypothesis Hself : h0 !! self = Some p.
Hypothesis Hwin : platform_windows E = false.

(** Outside latest-only mode an iteration reads one line. *)
Lemma read_line_one (fuel : nat) (g : generator) (r : BufferedReader) :
  gen_self g = self -> latest g = false ->
  read_line fuel g (running_with h0 self p r)
  = Ret (py_split (fst (readline r)))
        (running_with h0 self p (snd (readline r))).
Proof.
  intros Hg Hl. unfold read_line. rewrite Hl, Hg, andb_false_r.
  unfold bind. by rewrite (stdout_readline_running h0 self p Hself).
Qed.

(** A count of zero or less: the first [next] starts the process, reads the
    banner and runs into line 175. *)
Lemma next_nonpositive_count (fuel : nat) (k : Z) (latest_arg : bool) :
  k <= 0 ->
  next E fuel (h0, ping self (Some k) latest_arg)
  = Raise RuntimeError
      (running_with h0 self p
         (reader_after 1 {| buffered := []; raw := ping_output E self |}),
       with_pc (ping self (Some k) latest_arg) Finished).
Proof.
  intros Hk. set (g := ping self (Some k) latest_arg).
  unfold next, gen_body. change (pc g) with Created. cbv beta iota.
  unfold bind. rewrite (gen_start_running E h0 self p Hself g Hwin eq_refl).
  simpl. replace (Z.to_nat k) with O by lia. reflexivity.
Qed.

End Started.

(** A stream made with a packet count of zero or less yields nothing: its
    first [next] starts the process all the same, reads the banner and
    fails, with the [RuntimeError] that the [StopIteration] of line 175
    becomes when it leaves the generator; the calls after it raise
    [StopIteration]. *)
Theorem nonpositive_count_yields_nothing (E : Env) (fuel : nat) (h0 : heap)
    (self : nat) (p : Ping) (k : Z) (latest_arg : bool) :
  platform_windows E = false ->
  h0 !! self = Some p ->
  k <= 0 ->
  exists h1,
    next E fuel (h0, ping self (Some k) latest_arg)
    = Raise RuntimeError (h1, with_pc (ping self (Some k) latest_arg) Finished)
    /\ stdout_of self h1
       = Some (reader_after 1 {| buffered := []; raw := ping_output E self |})
    /\ (forall q, q <> self -> h1 !! q = h0 !! q)
    /\ (forall fuel',
          next E fuel' (h1, with_pc (ping self (Some k) latest_arg) Finished)
          = Raise StopIteration
              (h1, with_pc (ping self (Some k) latest_arg) Finished)).
Proof.
  intros Hwin Hself Hk. eexists. split; [|split; [|split]].
  - by apply (next_nonpositive_count E h0 self p Hself Hwin).
  - by apply stdout_of_running_with.
  - intros q Hq. unfold running_with. by rewrite list_lookup_insert_ne.
  - done.
Qed.

Lemma nonpositive_count_yields_nothing_witness :
  exists h1,
    next Example.two_replies 5 ([Example.unstarted], ping 0 (Some (-3)) false)
    = Raise RuntimeError (h1, with_pc (ping 0 (Some (-3)) false) Finished)
    /\ stdout_of 0 h1
       = Some (reader_after 1
                 {| buffered := []; raw := ping_output Example.two_replies 0 |})
    /\ (forall q, q <> 0%nat -> h1 !! q = [Example.unstarted] !! q)
    /\ (forall fuel',
          next Example.two_replies fuel'
            (h1, with_pc (ping 0 (Some (-3)) false) Finished)
          = Raise StopIteration
              (h1, with_pc (ping 0 (Some (-3)) false) Finished)).
Proof.
  apply (nonpositive_count_yields_nothing Example.two_replies 5
           [Example.unstarted] 0 Example.unstarted (-3) false eq_refl eq_refl).
  lia.
Defined.

(** An unbounded stream outside latest-only mode, on a platform where the
    process starts: as long as the lines after the banner are well formed,
    call [j] returns the sample of line [j], each call reading exactly one
    line and leaving the generator suspended; the banner is never parsed
    and no line is skipped. *)
Theorem unbounded_stream_in_order (E : Env) (fuel : nat) (h0 : heap)
    (self : nat) (p : Ping) (N : nat) (samples : nat -> sample) :
  platform_windows E = false ->
  h0 !! self = Some p ->
  (forall j, (j < N)%nat ->
     parse_line E fuel
       (py_split (nth_line (S j) {| buffered := []; raw := ping_output E self |}))
     = Val (samples j)) ->
  exists states : nat -> heap * generator,
    states O = (h0, ping self None false)
    /\ forall j, (j < N)%nat ->
         next E fuel (states j) = Ret (samples j) (states (S j))
         /\ stdout_of self (fst (states (S j)))
            = Some (reader_after (S (S j))
                      {| buffered := []; raw := ping_output E self |})
         /\ pc (snd (states (S j))) = Suspended Count.
Proof.
  intros Hwin Hself Hlines.
  set (r0 := {| buffered := []; raw := ping_output E self |}) in *.
  set (g0 := ping self None false).
  set (st := fun j : nat =>
               match j with
               | O => (h0, g0)
               | S _ => (running_with h0 self p (reader_after (S j) r0),
                         with_pc g0 (Suspended Count))
               end).
  assert (Hstart : gen_start E g0 h0
                   = Ret Count (running_with h0 self p (reader_after 1 r0))).
  { by rewrite (gen_start_running E h0 self p Hself g0 Hwin eq_refl). }
  exists st. split; [done|].
  intros j Hj. split; [|split; [by apply stdout_of_running_with | done]].
  destruct j as [|j]; unfold st; cbv beta iota.
  - pose proof (read_line_one h0 self p Hself fuel g0 (reader_after 1 r0)
                  eq_refl eq_refl) as Hread.
    rewrite (next_created E fuel g0 Count h0 _ _ _ eq_refl Hstart
               ltac:(discriminate) Hread).
    fold (nth_line 1 r0). by rewrite (Hlines 0%nat Hj).
  - set (g := with_pc g0 (Suspended Count)).
    pose proof (read_line_one h0 self p Hself fuel g
                  (reader_after (S (S j)) r0) eq_refl eq_refl) as Hread.
    rewrite (next_suspended E fuel g Count _ _ _ eq_refl
               ltac:(discriminate) Hread).
    fold (nth_line (S (S j)) r0). by rewrite (Hlines (S j) Hj).
Qed.

Lemma unbounded_stream_in_order_witness :
  exists states : nat -> heap * generator,
    states O = ([Example.unstarted], ping 0 None false)
    /\ forall j, (j < 2)%nat ->
         next Example.two_replies 20 (states j)
         = Ret (Example.two_samples j) (states (S j))
         /\ stdout_of 0 (fst (states (S j)))
            = Some (reader_after (S (S j))
                      {| buffered := [];
                         raw := ping_output Example.two_replies 0 |})
         /\ pc (snd (states (S j))) = Suspended Count.
Proof.
  apply (unbounded_stream_in_order Example.two_replies 20 [Example.unstarted]
           0 Example.unstarted 2 Example.two_samples eq_refl eq_refl).
  intros j Hj. destruct j as [|[|j]]; [reflexivity | reflexivity | lia].
Defined.

(** ** The loop of latest-only mode *)

Lemma eqb_newline_sym (c : byte) : Byte.eqb newline c = Byte.eqb c newline.
Proof.
  destruct (Byte.eqb c newline) eqn:H.
  - apply Byte.byte_dec_bl in H. by subst.
  - destruct (Byte.eqb newline c) eqn:H2; [|done].
    apply Byte.byte_dec_bl in H2. subst. discriminate.
Qed.

Lemma cut_line_newline (buf : bytes) :
  count_newlines buf <> O ->
  exists l rest, cut_line buf = Some (l, rest)
                 /\ count_newlines buf = S (count_newlines rest).
Proof.
  unfold count_newlines. induction buf as [|c buf IH]; [done|]. simpl.
  rewrite eqb_newline_sym. destruct (Byte.eqb c newline).
  - intros _. by exists [c], buf.
  - intros Hn. destruct (IH Hn) as (l & rest & -> & Hcount).
    by exists (c :: l), rest.
Qed.

Section Latest.

Variable h0 : heap.
Variable self : nat.
Variable p : Ping.
Hypothesis Hself : h0 !! self = Some p.

(** With [n] newlines in a buffer that is not empty, the loop stops within
    [n + 1] tests, leaving at most one newline buffered. *)
Lemma skip_stale_buffered (n : nat) :
  forall (buf : bytes) (chunks : list bytes) (line : list pyval),
    buf <> [] -> (count_newlines buf <= n)%nat ->
    exists line' buf',
      skip_stale (S n) self line
        (running_with h0 self p {| buffered := buf; raw := chunks |})
      = Ret line' (running_with h0 self p {| buffered := buf'; raw := chunks |})
      /\ (count_newlines buf' <= 1)%nat.
Proof.
  induction n as [|n IH]; intros buf chunks line Hbuf Hcount;
    cbn [skip_stale]; unfold bind at 1;
    rewrite (stdout_peek_running h0 self p Hself);
    (assert (Hpeek : peek {| buffered := buf; raw := chunks |}
                     = (buf, {| buffered := buf; raw := chunks |}))
       by (unfold peek; simpl; by destruct buf));
    rewrite Hpeek; cbn [fst snd].
  - rewrite (proj2 (Nat.ltb_ge 1 (count_newlines buf))) by lia.
    exists line, buf. split; [done | lia].
  - destruct (Nat.ltb_spec 1 (count_newlines buf)) as [Hmany|Hfew].
    + destruct (cut_line_newline buf) as (l & rest & Hcut & Hrest); [lia|].
      unfold bind. rewrite (stdout_readline_running h0 self p Hself).
      unfold readline. simpl buffered. simpl raw.
      rewrite (readline_from_cut buf l rest chunks Hcut). cbn [fst snd].
      apply IH; [|lia]. intros ->.
      change (count_newlines []) with O in Hrest. lia.
    + exists line, buf. split; [done | lia].
Qed.

End Latest.

(** In unbounded latest-only mode, whatever the process has written and
    however it arrives, the loop that skips stale lines comes to an end: a
    started stream always gets a line to parse, and when it does at most
    one complete line is left in the buffer. *)
Theorem latest_read_terminates (h0 : heap) (self : nat) (p : Ping)
    (g : generator) (r : BufferedReader) :
  h0 !! self = Some p ->
  gen_self g = self -> packets g = None -> latest g = true ->
  exists fuel line r',
    read_line fuel g (running_with h0 self p r)
    = Ret line (running_with h0 self p r')
    /\ (count_newlines (buffered r') <= 1)%nat.
Proof.
  intros Hself Hg Hpk Hl. unfold read_line. rewrite Hpk, Hl, Hg.
  rewrite bool_decide_eq_true_2 by done. cbn [andb]. cbv iota.
  unfold bind at 1. rewrite (stdout_readline_running h0 self p Hself).
  destruct (readline r) as [l [buf chunks]]. cbn [fst snd].
  destruct buf as [|c buf].
  - destruct chunks as [|chunk rest].
    + exists 1%nat, (py_split l), {| buffered := []; raw := [] |}.
      split; [|by apply Nat.le_0_l].
      cbn [skip_stale]. unfold bind.
      by rewrite (stdout_peek_running h0 self p Hself).
    + destruct (Nat.ltb_spec 1 (count_newlines chunk)) as [Hmany|Hfew].
      * destruct (skip_stale_buffered h0 self p Hself (count_newlines chunk)
                    chunk rest (py_split l))
          as (line' & buf' & Hskip & Hcount);
          [intros ->; change (count_newlines []) with O in Hmany; lia | lia |].
        exists (S (count_newlines chunk)), line',
          {| buffered := buf'; raw := rest |}.
        split; [|exact Hcount]. rewrite <- Hskip.
        cbn [skip_stale]. unfold bind at 1 3.
        rewrite !(stdout_peek_running h0 self p Hself).
        assert (Hpeek : peek {| buffered := chunk; raw := rest |}
                        = (chunk, {| buffered := chunk; raw := rest |})).
        { unfold peek. simpl. destruct chunk; [|done].
          change (count_newlines []) with O in Hmany. lia. }
        rewrite Hpeek. reflexivity.
      * exists 1%nat, (py_split l), {| buffered := chunk; raw := rest |}.
        split; [|exact Hfew].
        cbn [skip_stale]. unfold bind.
        rewrite (stdout_peek_running h0 self p Hself). simpl.
        by rewrite (proj2 (Nat.ltb_ge 1 (count_newlines chunk))) by lia.
  - destruct (skip_stale_buffered h0 self p Hself
                (count_newlines (c :: buf)) (c :: buf) chunks (py_split l))
      as (line' & buf' & Hskip & Hcount); [done | lia |].
    by exists (S (count_newlines (c :: buf))), line',
      {| buffered := buf'; raw := chunks |}.
Qed.

Lemma latest_read_terminates_witness :
  exists fuel line r',
    read_line fuel Example.latest_gen
      (running_with [Example.unstarted] 0 Example.unstarted
         {| buffered := Example.reply_line "1" "10.5";
            raw := [Example.reply_line "2" "20.25"
                      ++ Example.reply_line "3" "30.75"
                      ++ Example.reply_line "4" "40.5"] |})
    = Ret line (running_with [Example.unstarted] 0 Example.unstarted r')
    /\ (count_newlines (buffered r') <= 1)%nat.
Proof.
  apply (latest_read_terminates [Example.unstarted] 0 Example.unstarted
           Example.latest_gen _ eq_refl eq_refl eq_refl eq_refl).
Defined.

(** ** One entry at a time *)

(** What is true of the objects, and kept when the [ping_command] of
    [self] is set, is kept by every step of the generator of [self]. *)
Section HeapLocal.

Variable P : heap -> Prop.
Variable self : nat.
Hypothesis set_keeps : forall c, keeps P (set_ping_command self c).

Lemma stdout_readline_keeps : keeps P (stdout_readline self).
Proof.
  apply keeps_bind; [apply keeps_unchanged, unchanged_get_ping_command|].
  intros c. destruct (readline (stdout c)) as [l r].
  apply keeps_bind; [apply set_keeps|]. intros _. apply keeps_ret.
Qed.

Lemma stdout_peek_keeps : keeps P (stdout_peek self).
Proof.
  apply keeps_bind; [apply keeps_unchanged, unchanged_get_ping_command|].
  intros c. destruct (peek (stdout c)) as [data r].
  apply keeps_bind; [apply set_keeps|]. intros _. apply keeps_ret.
Qed.

Lemma skip_stale_keeps (fuel : nat) (line : list pyval) :
  keeps P (skip_stale fuel self line).
Proof.
  revert line. induction fuel as [|fuel IH]; intros line; simpl.
  - by intros h Hh h'.
  - apply keeps_bind; [apply stdout_peek_keeps|]. intros data.
    destruct (1 <? count_newlines data)%nat; [|apply keeps_ret].
    apply keeps_bind; [apply stdout_readline_keeps|]. intros l. apply IH.
Qed.

Lemma gen_body_keeps (E : Env) (fuel : nat) (g : generator) :
  gen_self g = self -> keeps P (gen_body E fuel g).
Proof.
  intros Hg.
  assert (Hread : keeps P (read_line fuel g)).
  { unfold read_line. rewrite Hg.
    destruct (bool_decide (packets g = None) && latest g).
    - apply keeps_bind; [apply stdout_readline_keeps|]. intros l.
      apply skip_stale_keeps.
    - apply keeps_bind; [apply stdout_readline_keeps|]. intros l.
      apply keeps_ret. }
  assert (Hiter : forall c, keeps P (gen_iteration E fuel g c)).
  { assert (Hbody : forall c' : counter,
      keeps P (do line <- read_line fuel g;
               do s <- lift (parse_line E fuel line); ret (s, c'))).
    { intros c'. apply keeps_bind; [exact Hread|]. intros line.
      apply keeps_bind; [apply keeps_unchanged, unchanged_lift|].
      intros s. apply keeps_ret. }
    intros [|[|k]]; simpl;
      [apply Hbody | apply keeps_unchanged, unchanged_raise | apply Hbody]. }
  unfold gen_body. destruct (pc g) as [|c|].
  - apply keeps_bind; [|exact Hiter].
    unfold gen_start. rewrite Hg. apply keeps_bind.
    { apply keeps_unchanged. unfold run_ping.
      destruct (platform_windows E); [apply unchanged_raise | apply unchanged_ret]. }
    intros c. apply keeps_bind; [apply set_keeps|].
    intros _. apply keeps_bind; [apply stdout_readline_keeps|].
    intros _. apply keeps_ret.
  - apply Hiter.
  - apply keeps_unchanged, unchanged_raise.
Qed.

End HeapLocal.

Lemma set_ping_command_other (self q : nat) (v : option Ping) (c : Popen) :
  q <> self -> keeps (fun h => h !! q = v) (set_ping_command self c).
Proof.
  intros Hq. apply keeps_bind; [apply keeps_unchanged, unchanged_deref|].
  intros p0 h Hh h'. simpl. intros [= <-]. by rewrite list_lookup_insert_ne.
Qed.

(** [next] changes no object but the one of its generator. *)
Lemma next_other_objects (E : Env) (fuel : nat) (h h' : heap)
    (g g' : generator) (q : nat) :
  store_after (next E fuel (h, g)) = Some (h', g') ->
  q <> gen_self g -> h' !! q = h !! q.
Proof.
  intros Hnext Hq.
  pose proof (gen_body_keeps (fun h1 => h1 !! q = h !! q) (gen_self g)
                (fun c => set_ping_command_other (gen_self g) q (h !! q) c Hq)
                E fuel g eq_refl h eq_refl) as Hkeep.
  destruct (next_store E fuel h h' g g' Hnext) as [->|Hbody]; [done|].
  by apply Hkeep.
Qed.

Lemma advance_shape (E : Env) (fuel : nat) (w : world) (i : Z) (k : nat)
    (g : generator) :
  py_getitem (times (ledger w)) i = Val (k, g) ->
  match advance E fuel i w with
  | Ret s w1 =>
      exists h' g', next E fuel (objects w, g) = Ret s (h', g')
                    /\ w1 = set_times (<[k := g']> (times (ledger w)))
                                      (set_objects h' w)
  | Raise e w1 =>
      exists h' g', next E fuel (objects w, g) = Raise e (h', g')
                    /\ w1 = set_times (<[k := g']> (times (ledger w)))
                                      (set_objects h' w)
  | Diverge => True
  end.
Proof.
  intros Hget. unfold advance. rewrite Hget.
  destruct (next E fuel (objects w, g)) as [s [h' g']|e [h' g']|]; eauto.
Qed.

Lemma py_getitem_at {A} (l : list A) (i : Z) (k : nat) (x : A) :
  norm_index (List.length l) i = Some k -> l !! k = Some x ->
  py_getitem l i = Val (k, x).
Proof. intros Hk Hx. unfold py_getitem. by rewrite Hk, Hx. Qed.

Lemma only_entry_changed_advance (w : world) (k p : nat) (h' : heap)
    (g' : generator) (resp' : list (list (option Q))) :
  (forall q, q <> p -> h' !! q = objects w !! q) ->
  (forall j, j <> k -> resp' !! j = responses (ledger w) !! j) ->
  only_entry_changed k p w
    {| objects := h';
       ledger := {| addresses := addresses (ledger w);
                    times := <[k := g']> (times (ledger w));
                    pings := pings (ledger w);
                    responses := resp' |} |}.
Proof.
  intros Hobj Hresp. unfold only_entry_changed. simpl.
  repeat split; try done.
  - by rewrite list_lookup_insert_ne.
  - by apply Hresp.
Qed.

(** On a well-formed ledger [get] with a valid integer index advances that
    entry alone: when it returns, the time it returns is the one appended
    to the history of the entry; when it raises, no history changes; either
    way the addresses, the other entries (streams and histories) and the
    other objects are as before. *)
Theorem get_by_index_touches_one_entry (E : Env) (fuel : nat) (w : world)
    (i : Z) (k p : nat) :
  ledger_wf w ->
  norm_index (List.length (addresses (ledger w))) i = Some k ->
  pings (ledger w) !! k = Some p ->
  match get E fuel (OInt i) w with
  | Ret r w' =>
      exists t hist,
        r = One t
        /\ responses (ledger w) !! k = Some hist
        /\ responses (ledger w') !! k = Some (hist ++ [t])
        /\ only_entry_changed k p w w'
  | Raise e w' =>
      responses (ledger w') = responses (ledger w)
      /\ only_entry_changed k p w w'
  | Diverge => True
  end.
Proof.
  intros Hwf Hk Hp. pose proof Hwf as (Ht & Hpn & Hr & Hobj & Halias).
  pose proof (norm_index_lt _ _ _ Hk) as Hlt.
  destruct (lookup_lt_is_Some_2 (times (ledger w)) k) as [g Hg]; [lia|].
  destruct (lookup_lt_is_Some_2 (responses (ledger w)) k) as [hist Hhist];
    [lia|].
  assert (Hgp : gen_self g = p) by (by apply (Halias k)).
  assert (Hget : py_getitem (times (ledger w)) i = Val (k, g)).
  { apply py_getitem_at; [by rewrite Ht | done]. }
  unfold get, get_address_index, get_int, bind, ret.
  pose proof (advance_shape E fuel w i k g Hget) as Hadv.
  destruct (advance E fuel i w) as [s w1|e w1|]; [| |done].
  - destruct Hadv as (h' & g' & Hnext & ->).
    unfold record_response. simpl.
    rewrite (py_getitem_at (responses (ledger w)) i k hist) by (by rewrite ?Hr).
    exists (snd s), hist. split; [done|]. split; [done|]. simpl. split.
    + apply list_lookup_insert_eq. by eapply lookup_lt_Some.
    + apply (only_entry_changed_advance w k p h' g'
               (<[k := hist ++ [snd s]]> (responses (ledger w)))).
      * intros q Hq. apply (next_other_objects E fuel _ _ g g').
        -- by rewrite Hnext.
        -- by rewrite Hgp.
      * intros j Hj. by rewrite list_lookup_insert_ne.
  - destruct Hadv as (h' & g' & Hnext & ->). simpl. split; [done|].
    apply (only_entry_changed_advance w k p h' g' (responses (ledger w)));
      [|done].
    intros q Hq. apply (next_other_objects E fuel _ _ g g').
    + by rewrite Hnext.
    + by rewrite Hgp.
Qed.

Lemma get_by_index_touches_one_entry_witness :
  exists t hist w',
    get Example.two_hosts 20 (OInt 1) Example.three_entries = Ret (One t) w'
    /\ responses (ledger Example.three_entries) !! 1%nat = Some hist
    /\ responses (ledger w') !! 1%nat = Some (hist ++ [t])
    /\ only_entry_changed 1 1 Example.three_entries w'.
Proof.
  assert (Hwf : ledger_wf Example.three_entries).
  { apply (ledger_wf_reachable Example.two_hosts).
    by apply (reach_init Example.two_hosts ["a"; "b"; "c"] false []). }
  pose proof (get_by_index_touches_one_entry Example.two_hosts 20
                Example.three_entries 1 1 1 Hwf eq_refl eq_refl) as H.
  destruct (get Example.two_hosts 20 (OInt 1) Example.three_entries)
    as [r w'|e w'|] eqn:Hget; [|discriminate Hget..].
  destruct H as (t & hist & -> & Hhist & Hhist' & Hother).
  by exists t, hist, w'.
Defined.

(** ** Selectors that select nothing *)

(** On a well-formed ledger an integer that is no valid index (at or above
    the number of entries, or below its negation; any integer when the
    ledger is empty) makes [get], [fastest], [slowest], [mean] and [remove]
    raise [IndexError], and nothing changes. *)
Theorem index_out_of_range (E : Env) (fuel : nat) (w : world) (i : Z) :
  ledger_wf w ->
  norm_index (List.length (addresses (ledger w))) i = None ->
  get E fuel (OInt i) w = Raise IndexError w
  /\ fastest E fuel (OInt i) w = Raise IndexError w
  /\ slowest E fuel (OInt i) w = Raise IndexError w
  /\ mean E fuel (OInt i) w = Raise IndexError w
  /\ remove E fuel (OInt i) w = Raise IndexError w.
Proof.
  intros (Ht & Hp & Hr & _ & _) Hi.
  assert (Hstat : forall stat, do_stat E fuel stat (OInt i) w = Raise IndexError w).
  { intros stat.
    unfold do_stat, get_address_index, bind, ret, do_stat_int, py_getitem.
    by rewrite Hr, Hi. }
  split; [|split; [apply Hstat | split; [apply Hstat | split; [apply Hstat|]]]].
  - unfold get, get_address_index, get_int, bind, ret, advance, py_getitem.
    by rewrite Ht, Hi.
  - unfold remove, get_address_index, remove_at, bind, ret, pop_at, py_pop.
    by rewrite Hi.
Qed.

Lemma index_out_of_range_witness :
  get Example.two_hosts 20 (OInt 3) Example.three_entries
  = Raise IndexError Example.three_entries
  /\ remove Example.two_hosts 20 (OInt (-4)) Example.three_entries
     = Raise IndexError Example.three_entries.
Proof.
  assert (Hwf : ledger_wf Example.three_entries).
  { apply (ledger_wf_reachable Example.two_hosts).
    by apply (reach_init Example.two_hosts ["a"; "b"; "c"] false []). }
  split.
  - exact (proj1 (index_out_of_range Example.two_hosts 20
                    Example.three_entries 3 Hwf eq_refl)).
  - exact (proj2 (proj2 (proj2 (proj2
             (index_out_of_range Example.two_hosts 20
                Example.three_entries (-4) Hwf eq_refl))))).
Defined.

(** A string that is none of the addresses makes [get], [fastest],
    [slowest], [mean] and [remove] raise [ValueError], and nothing
    changes. *)
Theorem unknown_address (E : Env) (fuel : nat) (w : world) (s : string) :
  index_of s (addresses (ledger w)) = None ->
  get E fuel (OStr s) w = Raise ValueError w
  /\ fastest E fuel (OStr s) w = Raise ValueError w
  /\ slowest E fuel (OStr s) w = Raise ValueError w
  /\ mean E fuel (OStr s) w = Raise ValueError w
  /\ remove E fuel (OStr s) w = Raise ValueError w.
Proof.
  intros Hs.
  assert (Hgai : get_address_index E fuel (OStr s) w = Raise ValueError w).
  { unfold get_address_index, bind, addresses_index. by rewrite Hs. }
  unfold get, fastest, slowest, mean, do_stat, remove, bind.
  by rewrite Hgai.
Qed.

Lemma unknown_address_witness :
  get Example.two_hosts 20 (OStr "z") Example.three_entries
  = Raise ValueError Example.three_entries.
Proof.
  exact (proj1 (unknown_address Example.two_hosts 20 Example.three_entries
                  "z" eq_refl)).
Defined.

Lemma get_int_same_addresses (E : Env) (fuel : nat) (i : Z) (w w' : world) :
  store_after (get_int E fuel i w) = Some w' ->
  addresses (ledger w') = addresses (ledger w)
  /\ pings (ledger w') = pings (ledger w)
  /\ List.length (times (ledger w')) = List.length (times (ledger w))
  /\ List.length (responses (ledger w')) = List.length (responses (ledger w)).
Proof.
  unfold get_int, bind.
  destruct (advance E fuel i w) as [s w1|e w1|] eqn:Hadv; [| |done].
  - assert (H1 : addresses (ledger w1) = addresses (ledger w)
                 /\ pings (ledger w1) = pings (ledger w)
                 /\ List.length (times (ledger w1)) = List.length (times (ledger w))
                 /\ responses (ledger w1) = responses (ledger w)).
    { revert Hadv. unfold advance.
      destruct (py_getitem (times (ledger w)) i) as [[k g]|e|]; try done.
      destruct (next E fuel (objects w, g)) as [s0 [h g']|e [h g']|]; try done.
      intros [= _ <-]. simpl. by rewrite length_insert. }
    destruct H1 as (Ha & Hp & Ht & Hr). unfold record_response.
    destruct (py_getitem (responses (ledger w1)) i) as [[k hist]|e|]; simpl;
      [| |done].
    + intros [= <-]. simpl. rewrite length_insert. by rewrite Hr.
    + intros [= <-]. by rewrite Hr.
  - simpl. intros [= <-]. revert Hadv. unfold advance.
    destruct (py_getitem (times (ledger w)) i) as [[k g]|e'|]; try done.
    + destruct (next E fuel (objects w, g)) as [s0 [h g']|e' [h g']|]; try done.
      intros [= _ <-]. simpl. by rewrite length_insert.
    + by intros [= _ <-].
Qed.

(** [remove] with a string never removes an entry: for a string that is an
    address it advances the stream of the entry found, as [get] does, and
    then raises, [TypeError] when the stream returned a time; the addresses
    and the [Ping] objects of the ledger are as before and no list changes
    its length. *)
Theorem remove_by_address_removes_nothing (E : Env) (fuel : nat) (s : string)
    (w : world) :
  match remove E fuel (OStr s) w with
  | Ret _ _ => False
  | Raise e w' =>
      addresses (ledger w') = addresses (ledger w)
      /\ pings (ledger w') = pings (ledger w)
      /\ List.length (times (ledger w')) = List.length (times (ledger w))
      /\ List.length (responses (ledger w')) = List.length (responses (ledger w))
  | Diverge => True
  end.
Proof.
  unfold remove, get_address_index, bind, addresses_index.
  destruct (index_of s (addresses (ledger w))) as [k|]; [|done].
  pose proof (get_int_same_addresses E fuel (Z.of_nat k) w) as Hsame.
  destruct (get_int E fuel (Z.of_nat k) w) as [r w1|e w1|]; [| |done].
  - specialize (Hsame w1 eq_refl). unfold ret.
    destruct r as [q|]; simpl; exact Hsame.
  - exact (Hsame w1 eq_refl).
Qed.

(** ** Every entry at once *)

Lemma norm_index_of_nat (n k k' : nat) :
  norm_index n (Z.of_nat k) = Some k' -> k' = k /\ (k < n)%nat.
Proof.
  unfold norm_index.
  destruct (Z.leb_spec 0 (Z.of_nat k)); [|lia].
  destruct (Z.ltb_spec (Z.of_nat k) (Z.of_nat n)); simpl.
  - intros [= <-]. lia.
  - destruct (Z.leb_spec (- Z.of_nat n) (Z.of_nat k));
      destruct (Z.ltb_spec (Z.of_nat k) 0); simpl; try done; lia.
Qed.

Lemma norm_index_nat_lt (n k : nat) :
  (k < n)%nat -> norm_index n (Z.of_nat k) = Some k.
Proof.
  intros Hk. unfold norm_index.
  rewrite (proj2 (Z.leb_le 0 (Z.of_nat k))) by lia.
  rewrite (proj2 (Z.ltb_lt (Z.of_nat k) (Z.of_nat n))) by lia.
  simpl. by rewrite Nat2Z.id.
Qed.

(** What a [get] that returns does to the histories. *)
Lemma get_int_appends (E : Env) (fuel : nat) (k : nat) (w w1 : world)
    (r : option Q) :
  get_int E fuel (Z.of_nat k) w = Ret r w1 ->
  exists hist,
    responses (ledger w) !! k = Some hist
    /\ responses (ledger w1) = <[k := hist ++ [r]]> (responses (ledger w)).
Proof.
  unfold get_int, bind.
  destruct (advance E fuel (Z.of_nat k) w) as [s w0|e w0|] eqn:Hadv; try done.
  assert (Hsame : responses (ledger w0) = responses (ledger w)).
  { apply (advance_same_responses E fuel (Z.of_nat k)). by rewrite Hadv. }
  unfold record_response, py_getitem. rewrite Hsame.
  destruct (norm_index _ (Z.of_nat k)) as [k'|] eqn:Hk; [|done].
  apply norm_index_of_nat in Hk as [-> Hlt].
  destruct (responses (ledger w) !! k) as [hist|] eqn:Hhist; [|done].
  unfold ret. intros [= <- <-]. by exists hist.
Qed.

Lemma get_each_seq (E : Env) (fuel : nat) (m : nat) :
  forall (a : nat) (w w' : world) (l : list (option Q)),
    get_each E fuel (seq a m) w = Ret l w' ->
    List.length l = m
    /\ List.length (responses (ledger w')) = List.length (responses (ledger w))
    /\ (forall j, (j < a \/ a + m <= j)%nat ->
          responses (ledger w') !! j = responses (ledger w) !! j)
    /\ (forall j, (j < m)%nat ->
          exists hist t,
            responses (ledger w) !! (a + j)%nat = Some hist
            /\ l !! j = Some t
            /\ responses (ledger w') !! (a + j)%nat = Some (hist ++ [t]))
    /\ addresses (ledger w') = addresses (ledger w)
    /\ pings (ledger w') = pings (ledger w).
Proof.
  induction m as [|m IH]; intros a w w' l.
  - simpl. intros [= <- <-]. repeat split; try done. intros j Hj. lia.
  - simpl. unfold bind.
    destruct (get_int E fuel (Z.of_nat a) w) as [r w1|e w1|] eqn:Hget;
      try done.
    destruct (get_each E fuel (seq (S a) m) w1) as [ans w2|e w2|] eqn:Hrest;
      try done.
    unfold ret. intros [= <- <-].
    destruct (get_int_appends E fuel a w w1 r Hget) as (hist & Hhist & Hw1).
    destruct (get_int_same_addresses E fuel (Z.of_nat a) w w1) as (Ha & Hp & _);
      [by rewrite Hget|].
    destruct (IH (S a) w1 w2 ans Hrest)
      as (Hlen & Hrlen & Hout & Hin & Ha2 & Hp2).
    assert (Halt : (a < List.length (responses (ledger w)))%nat)
      by (by eapply lookup_lt_Some).
    split; [simpl; lia|]. split; [by rewrite Hrlen, Hw1, length_insert|].
    split; [|split; [|split; [congruence | congruence]]].
    + intros j Hj. rewrite Hout by lia. rewrite Hw1.
      apply list_lookup_insert_ne. lia.
    + intros [|j] Hj.
      * exists hist, r. rewrite Nat.add_0_r. split; [done|]. split; [done|].
        rewrite Hout by lia. rewrite Hw1. by apply list_lookup_insert_eq.
      * destruct (Hin j) as (hist' & t & H1 & H2 & H3); [lia|].
        exists hist', t. replace (a + S j)%nat with (S a + j)%nat by lia.
        split; [|done]. rewrite Hw1 in H1.
        rewrite list_lookup_insert_ne in H1 by lia. done.
Qed.

(** On a well-formed ledger of [n] entries, [get] without a selector, when
    it returns, returns a list of [n] times in the order of the entries and
    has appended to the history of each entry exactly the time at its
    position, the addresses being as before. *)
Theorem get_all_appends_one_each (E : Env) (fuel : nat) (w w' : world)
    (r : reply) :
  ledger_wf w ->
  get E fuel ONone w = Ret r w' ->
  exists l,
    r = Many l
    /\ List.length l = List.length (addresses (ledger w))
    /\ (forall j, (j < List.length (addresses (ledger w)))%nat ->
          exists hist t,
            responses (ledger w) !! j = Some hist
            /\ l !! j = Some t
            /\ responses (ledger w') !! j = Some (hist ++ [t]))
    /\ addresses (ledger w') = addresses (ledger w)
    /\ List.length (responses (ledger w')) = List.length (responses (ledger w)).
Proof.
  intros (Ht & _ & _ & _ & _).
  unfold get, get_address_index, bind, ret, get_store. rewrite Ht.
  destruct (get_each E fuel (seq 0 _) w) as [l w1|e w1|] eqn:Heach; try done.
  intros [= <- <-].
  destruct (get_each_seq E fuel _ 0 w w1 l Heach)
    as (Hlen & Hrlen & _ & Hin & Ha & _).
  exists l. repeat split; try done.
Qed.

Lemma get_all_appends_one_each_witness :
  exists l w',
    get Example.two_hosts 20 ONone Example.three_entries = Ret (Many l) w'
    /\ List.length l = 3%nat
    /\ responses (ledger w') = [[Some (21 # 2)%Q]; [Some (15 # 2)%Q];
                                [Some (15 # 2)%Q]].
Proof.
  assert (Hwf : ledger_wf Example.three_entries).
  { apply (ledger_wf_reachable Example.two_hosts).
    by apply (reach_init Example.two_hosts ["a"; "b"; "c"] false []). }
  destruct (get Example.two_hosts 20 ONone Example.three_entries)
    as [r w'|e w'|] eqn:Hget; [|discriminate Hget..].
  destruct (get_all_appends_one_each Example.two_hosts 20
              Example.three_entries w' r Hwf Hget)
    as (l & -> & Hlen & _).
  exists l, w'. split; [done|]. split; [exact Hlen|].
  by injection Hget as _ <-.
Defined.

(** ** Statistics over every entry *)

Lemma do_stat_each_seq (stat : list (option Q) -> outcome (option Q))
    (w : world) (m : nat) :
  forall a : nat,
    (a + m <= List.length (responses (ledger w)))%nat ->
    match do_stat_each stat (seq a m) w with
    | Ret l w' =>
        w' = w
        /\ Forall2 (fun hist t => stat hist = Val t)
                   (take m (drop a (responses (ledger w)))) l
    | Raise e w' =>
        w' = w
        /\ exists k hist,
             (a <= k < a + m)%nat
             /\ responses (ledger w) !! k = Some hist
             /\ stat hist = Exc e
             /\ forall j, (a <= j < k)%nat ->
                  exists hist_j t, responses (ledger w) !! j = Some hist_j
                                   /\ stat hist_j = Val t
    | Diverge => True
    end.
Proof.
  induction m as [|m IH]; intros a Ha.
  - simpl. split; [done|]. constructor.
  - simpl. unfold bind, do_stat_int, py_getitem.
    rewrite norm_index_nat_lt by lia.
    destruct (lookup_lt_is_Some_2 (responses (ledger w)) a) as [hist Hhist];
      [lia|].
    rewrite Hhist. unfold lift.
    destruct (stat hist) as [t|e|] eqn:Hstat; [| |done].
    + specialize (IH (S a)).
      destruct (do_stat_each stat (seq (S a) m) w) as [ans w'|e w'|];
        [| |done].
      * destruct IH as [-> Hall]; [lia|]. unfold ret. split; [done|].
        rewrite (drop_S _ hist a Hhist). simpl. by constructor.
      * destruct IH as [-> (k & hist_k & Hk & Hhk & Hek & Hbefore)]; [lia|].
        split; [done|]. exists k, hist_k. split; [lia|]. split; [done|].
        split; [done|]. intros j Hj.
        destruct (decide (j = a)) as [->|Hne]; [by exists hist, t|].
        apply Hbefore. lia.
    + split; [done|]. exists a, hist. split; [lia|]. split; [done|].
      split; [done|]. intros j Hj. lia.
Qed.

(** On a well-formed ledger [fastest], [slowest] and [mean] without a
    selector (here: any statistic [stat]) change nothing; they return one
    value per entry, in the order of the entries, each the statistic of the
    history at its position, or raise what the statistic raises on the
    first history on which it fails (an empty one), the statistics of the
    entries before it having succeeded. *)
Theorem statistics_of_every_entry (E : Env) (fuel : nat)
    (stat : list (option Q) -> outcome (option Q)) (w : world) :
  ledger_wf w ->
  match do_stat E fuel stat ONone w with
  | Ret r w' =>
      w' = w
      /\ exists l, r = Many l
                   /\ Forall2 (fun hist t => stat hist = Val t)
                              (responses (ledger w)) l
  | Raise e w' =>
      w' = w
      /\ exists k hist,
           responses (ledger w) !! k = Some hist
           /\ stat hist = Exc e
           /\ forall j, (j < k)%nat ->
                exists hist_j t, responses (ledger w) !! j = Some hist_j
                                 /\ stat hist_j = Val t
  | Diverge => True
  end.
Proof.
  intros (Ht & _ & Hr & _ & _).
  unfold do_stat, get_address_index, bind, ret, get_store.
  pose proof (do_stat_each_seq stat w (List.length (times (ledger w))) 0) as H.
  destruct (do_stat_each stat (seq 0 (List.length (times (ledger w)))) w)
    as [l w'|e w'|]; [| |done].
  - destruct H as [-> Hall]; [lia|]. split; [done|]. exists l. split; [done|].
    rewrite drop_0, take_ge in Hall by lia. exact Hall.
  - destruct H as [-> (k & hist & Hk & Hhist & Hstat & Hbefore)]; [lia|].
    split; [done|]. exists k, hist. split; [done|]. split; [done|].
    intros j Hj. apply Hbefore. lia.
Qed.

Lemma statistics_of_every_entry_witness :
  fastest Example.two_hosts 5 ONone Example.three_entries
  = Raise ValueError Example.three_entries
  /\ match do_stat Example.two_hosts 5 py_min ONone Example.one_entry with
     | Ret r w' =>
         w' = Example.one_entry
         /\ exists l, r = Many l
                      /\ Forall2 (fun hist t => py_min hist = Val t)
                                 (responses (ledger Example.one_entry)) l
     | Raise e w' => False
     | Diverge => False
     end.
Proof.
  split; [reflexivity|].
  assert (Hwf : ledger_wf Example.one_entry).
  { unfold ledger_wf. simpl. repeat split; try done.
    - repeat constructor.
    - intros [|k] g p; simpl; [|done]. by intros [= <-] [= <-]. }
  pose proof (statistics_of_every_entry Example.two_hosts 5 py_min
                Example.one_entry Hwf) as H.
  destruct (do_stat Example.two_hosts 5 py_min ONone Example.one_entry)
    as [r w'|e w'|] eqn:Hstat; [exact H | discriminate Hstat..].
Defined.

(** With an integer or without a selector, a statistic reads the ledger
    and changes nothing, neither the ledger nor any object, whether it
    returns or raises. *)
Theorem statistics_read_only (E : Env) (fuel : nat)
    (stat : list (option Q) -> outcome (option Q)) (w : world) :
  (forall i, match do_stat E fuel stat (OInt i) w with
             | Ret _ w' => w' = w
             | Raise _ w' => w' = w
             | Diverge => True
             end)
  /\ match do_stat E fuel stat ONone w with
     | Ret _ w' => w' = w
     | Raise _ w' => w' = w
     | Diverge => True
     end.
Proof.
  assert (Hall : forall address,
            address = ONone \/ (exists i, address = OInt i) ->
            unchanged (do_stat E fuel stat address)).
  { intros address Haddr. unfold do_stat.
    apply unchanged_bind.
    { destruct Haddr as [->|[i ->]]; apply unchanged_ret. }
    intros [|i|s|q]; try (apply unchanged_bind;
      [intros w0 w1; simpl; by intros [= <-] |
       intros w0; apply unchanged_bind;
       [apply unchanged_do_stat_each | intros; apply unchanged_ret]]).
    apply unchanged_bind; [apply unchanged_do_stat_int|].
    intros r. apply unchanged_ret. }
  split.
  - intros i. pose proof (Hall (OInt i) (or_intror (ex_intro _ i eq_refl)) w) as H.
    destruct (do_stat E fuel stat (OInt i) w); try done; by apply H.
  - pose proof (Hall ONone (or_introl eq_refl) w) as H.
    destruct (do_stat E fuel stat ONone w); try done; by apply H.
Qed.

(** ** Stopping every stream *)





(** ** Constructing a ledger *)

Lemma init_loop_resolved (E : Env) (latest_arg : bool) (addrs : list string) :
  Forall (fun a => is_Some (getaddrinfo E a None)) addrs ->
  forall w : world,
    exists created,
      init_loop E latest_arg addrs w
      = Ret tt
          {| objects := objects w ++ created;
             ledger :=
               {| addresses := addresses (ledger w);
                  times := times (ledger w)
                           ++ map (fun id => ping id None latest_arg)
                                  (seq (List.length (objects w))
                                       (List.length addrs));
                  pings := pings (ledger w)
                           ++ seq (List.length (objects w)) (List.length addrs);
                  responses := responses (ledger w)
                               ++ replicate (List.length addrs) [] |} |}
      /\ List.length created = List.length addrs
      /\ Forall (fun p => ping_command p = None) created.
Proof.
  induction 1 as [|address rest [ip Hip] _ IH]; intros w.
  - exists []. simpl. destruct w as [h [a t p r]]. simpl.
    by rewrite !app_nil_r.
  - simpl. unfold bind at 1. unfold on_objects, Ping_init. rewrite Hip.
    unfold bind.
    set (obj := {| host := ip; ipv6 := ip_is_v6 E ip; adaptive := true;
                   timestamp := false; ping_command := None |}).
    match goal with
    | |- context [init_loop E latest_arg rest ?w1] =>
        destruct (IH w1) as (created & Hloop & Hlen & Hnone)
    end.
    exists (obj :: created). rewrite Hloop. simpl.
    rewrite !length_app. simpl. rewrite Nat.add_1_r.
    rewrite <- !app_assoc. simpl.
    split; [done|]. split; [by rewrite Hlen|]. by constructor.
Qed.

(** When every address resolves, the constructor returns a ledger with the
    addresses as given, one fresh [Ping] object and one stream per address
    in the order of the addresses, and empty histories; it starts no
    process, and the objects that existed before are unchanged. *)
Theorem init_builds_one_entry_per_address (E : Env) (addrs : list string)
    (latest_arg : bool) (h0 : heap) :
  Forall (fun a => is_Some (getaddrinfo E a None)) addrs ->
  exists pt h,
    PingTest_init E addrs latest_arg h0 = Ret pt h
    /\ addresses pt = addrs
    /\ pings pt = seq (List.length h0) (List.length addrs)
    /\ times pt = map (fun id => ping id None latest_arg) (pings pt)
    /\ responses pt = replicate (List.length addrs) []
    /\ List.length h = (List.length h0 + List.length addrs)%nat
    /\ (forall q, (q < List.length h0)%nat -> h !! q = h0 !! q)
    /\ (forall q, (List.length h0 <= q)%nat -> stdout_of q h = None).
Proof.
  intros Hres. unfold PingTest_init.
  destruct (init_loop_resolved E latest_arg addrs Hres
              {| objects := h0;
                 ledger := {| addresses := addrs; times := []; pings := [];
                              responses := [] |} |})
    as (created & Hloop & Hlen & Hnone).
  rewrite Hloop. simpl. eexists _, _. split; [reflexivity|]. simpl.
  repeat split; try done.
  - rewrite length_app. lia.
  - intros q Hq. by apply lookup_app_l.
  - intros q Hq. unfold stdout_of. rewrite lookup_app_r by done.
    destruct (created !! (q - List.length h0)%nat) as [obj|] eqn:Hobj; [|done].
    rewrite List.Forall_forall in Hnone.
    rewrite (Hnone obj); [done|].
    apply list_elem_of_In, list_elem_of_lookup. eauto.
Qed.

Lemma init_builds_one_entry_per_address_witness :
  exists pt h,
    PingTest_init Example.two_hosts ["a"; "b"; "a"] true [] = Ret pt h
    /\ addresses pt = ["a"; "b"; "a"]
    /\ pings pt = [0; 1; 2]%nat
    /\ responses pt = [[]; []; []]
    /\ List.length h = 3%nat.
Proof.
  destruct (init_builds_one_entry_per_address Example.two_hosts
              ["a"; "b"; "a"] true [])
    as (pt & h & Hinit & Ha & Hp & _ & Hr & Hlen & _).
  { repeat constructor; by eexists. }
  by exists pt, h.
Defined.

Lemma init_loop_unresolved (E : Env) (latest_arg : bool) (addrs : list string) :
  Exists (fun a => getaddrinfo E a None = None) addrs ->
  forall w : world,
    exists w', init_loop E latest_arg addrs w = Raise FindAddressError w'.
Proof.
  induction addrs as [|address rest IH]; intros Hex w.
  - inversion Hex.
  - simpl. unfold bind at 1. unfold on_objects, Ping_init.
    destruct (getaddrinfo E address None) as [ip|] eqn:Hip.
    + unfold bind. apply IH. inversion Hex as [? ? Hhere|? ? Hlater]; subst;
        [congruence | done].
    + by eexists.
Qed.

(** When one of the addresses does not resolve, the constructor raises
    [FindAddressError] and no ledger is made, whatever the other addresses
    are. *)
Theorem init_fails_on_unresolved_address (E : Env) (addrs : list string)
    (latest_arg : bool) (h0 : heap) :
  Exists (fun a => getaddrinfo E a None = None) addrs ->
  exists h, PingTest_init E addrs latest_arg h0 = Raise FindAddressError h.
Proof.
  intros Hex. unfold PingTest_init.
  destruct (init_loop_unresolved E latest_arg addrs Hex
              {| objects := h0;
                 ledger := {| addresses := addrs; times := []; pings := [];
                              responses := [] |} |}) as (w' & Hloop).
  rewrite Hloop. by eexists.
Qed.

Lemma init_fails_on_unresolved_address_witness :
  exists h,
    PingTest_init Example.one_unknown ["a"; "nowhere"; "b"] false []
    = Raise FindAddressError h.
Proof.
  apply (init_fails_on_unresolved_address Example.one_unknown
           ["a"; "nowhere"; "b"] false []).
  apply Exists_cons_tl, Exists_cons_hd. reflexivity.
Defined.

(** ** What a stream raises *)

(** Whatever the tokens of a line are, parsing it yields a sample, does not
    end, or raises [TypeError] or [ValueError]: no other exception comes
    out of a line. *)
Theorem parse_line_raises_type_or_value_error (E : Env) (fuel : nat)
    (line : list pyval) (e : exn) :
  parse_line E fuel line = Exc e -> e = TypeError \/ e = ValueError.
Proof. apply parse_line_exceptions. Qed.

Lemma parse_line_raises_type_or_value_error_witness :
  parse_line (Example.env (fun _ => [])) 5 (py_split (B "no sequence here"))
  = Exc TypeError
  /\ (TypeError = TypeError \/ TypeError = ValueError).
Proof.
  split; [reflexivity|].
  apply (parse_line_raises_type_or_value_error (Example.env (fun _ => [])) 5
           (py_split (B "no sequence here")) TypeError).
  reflexivity.
Defined.

Lemma gen_iteration_count (E : Env) (fuel : nat) (g : generator) :
  yields (gen_iteration E fuel g Count) (fun sc => snd sc = Count).
Proof.
  simpl. apply yields_bind with (Q1 := fun _ => True); [apply yields_any|].
  intros line _.
  apply yields_bind with (Q1 := fun _ => True); [apply yields_any|].
  intros s _. by apply yields_ret.
Qed.

(** The body of an unbounded generator that has not finished returns with
    its counter unbounded. *)
Lemma gen_body_unbounded (E : Env) (fuel : nat) (g : generator) :
  packets g = None -> pc g = Created \/ pc g = Suspended Count ->
  yields (gen_body E fuel g) (fun sc => snd sc = Count).
Proof.
  intros Hpk Hpc.
  assert (Hstart : yields (gen_start E g) (fun c => c = Count)).
  { intros h c h' Hc. apply gen_start_counter in Hc. by rewrite Hpk in Hc. }
  unfold gen_body. destruct Hpc as [-> | ->].
  - eapply yields_bind; [exact Hstart|]. intros c ->.
    apply gen_iteration_count.
  - apply gen_iteration_count.
Qed.

Lemma next_keeps_unbounded (E : Env) (fuel : nat) (h h' : heap)
    (g g' : generator) :
  unbounded_gen g ->
  store_after (next E fuel (h, g)) = Some (h', g') -> unbounded_gen g'.
Proof.
  intros [Hpk Hpc].
  destruct (next E fuel (h, g)) as [s st1|e st1|] eqn:Hnext; [| |done].
  - apply next_returns in Hnext as (c & h1 & Hbody & ->).
    simpl. intros [= _ <-]. split; [done|]. simpl. right. left.
    destruct Hpc as [Hc|[Hc|Hc]].
    + apply (gen_body_unbounded E fuel g Hpk (or_introl Hc)) in Hbody.
      simpl in Hbody. by rewrite Hbody.
    + apply (gen_body_unbounded E fuel g Hpk (or_intror Hc)) in Hbody.
      simpl in Hbody. by rewrite Hbody.
    + revert Hbody. unfold gen_body. by rewrite Hc.
  - revert Hnext. unfold next.
    destruct (pc g); [| |simpl; intros [= _ <-] [= _ <-]; split; simpl; auto];
      (destruct (gen_body E fuel g h) as [[s c'] h1|e1 h1|]; try done;
       simpl; intros [= _ <-] [= _ <-]; split; simpl; auto).
Qed.

(** Only a finished generator answers [next] with [StopIteration]: what the
    running body raises never reaches the caller as [StopIteration]. *)
Lemma next_stops_only_finished (E : Env) (fuel : nat) (h : heap)
    (g : generator) (st' : heap * generator) :
  next E fuel (h, g) = Raise StopIteration st' -> pc g = Finished.
Proof.
  unfold next.
  destruct (pc g); [| |done];
    (destruct (gen_body E fuel g h) as [[s c'] h1|e h1|]; try done;
     unfold leaving_body; intros [= He _]; by destruct (decide _)).
Qed.

Lemma get_int_unbounded (E : Env) (fuel : nat) (address : Z) :
  keeps (fun w => Forall unbounded_gen (times (ledger w)))
        (get_int E fuel address).
Proof.
  unfold get_int. apply keeps_bind.
  - intros w Hw w'. unfold advance.
    destruct (py_getitem (times (ledger w)) address) as [[k g]|e|] eqn:Hget;
      [|intros ?; by simplify_eq/=..].
    apply py_getitem_lookup in Hget.
    assert (Hg : unbounded_gen g) by (by eapply Forall_lookup_1).
    destruct (next E fuel (objects w, g)) as [s [h g']|e [h g']|] eqn:Hnext;
      [| |done]; simpl; intros [= <-]; simpl;
      (apply Forall_insert; [done|]);
      apply (next_keeps_unbounded E fuel (objects w) h g g' Hg);
      by rewrite Hnext.
  - intros s. apply keeps_bind; [|intros _; apply keeps_ret].
    intros w Hw w'. unfold record_response.
    destruct (py_getitem (responses (ledger w)) address) as [[k hist]|e|];
      simpl; intros ?; by simplify_eq/=.
Qed.

Lemma remove_at_unbounded (index : pyobj) :
  keeps (fun w => Forall unbounded_gen (times (ledger w))) (remove_at index).
Proof.
  unfold remove_at. apply keeps_bind.
  { intros w Hw w'.
    destruct (pop_at (addresses (ledger w)) index); simpl;
      intros ?; by simplify_eq/=. }
  intros _. apply keeps_bind.
  { intros w Hw w'.
    destruct (pop_at (times (ledger w)) index) as [l|e|] eqn:Hpop; simpl;
      intros ?; simplify_eq/=; [|done].
    destruct index as [|i|s|q]; simpl in Hpop; try done.
    unfold py_pop in Hpop. destruct (norm_index _ i) as [k|]; [|done].
    injection Hpop as <-. by apply Forall_delete. }
  intros _. apply keeps_bind.
  { intros w Hw w'. unfold lift.
    destruct (item_at (pings (ledger w)) index); simpl;
      intros ?; by simplify_eq/=. }
  intros p. apply keeps_bind.
  { intros w Hw w'. unfold on_objects.
    destruct (Ping_stop p (objects w)); simpl; intros ?; by simplify_eq/=. }
  intros _. apply keeps_bind.
  { intros w Hw w'.
    destruct (pop_at (pings (ledger w)) index); simpl;
      intros ?; by simplify_eq/=. }
  intros _ w Hw w'.
  destruct (pop_at (responses (ledger w)) index); simpl;
    intros ?; by simplify_eq/=.
Qed.

Lemma init_loop_unbounded (E : Env) (latest_arg : bool) (addrs : list string) :
  keeps (fun w => Forall unbounded_gen (times (ledger w)))
        (init_loop E latest_arg addrs).
Proof.
  induction addrs as [|address rest IH]; simpl; [apply keeps_ret|].
  apply keeps_bind.
  { intros w Hw w'. unfold on_objects.
    destruct (Ping_init E address None true false (objects w)); simpl;
      intros ?; by simplify_eq/=. }
  intros p. apply keeps_bind.
  { intros w Hw w'. simpl. by intros [= <-]. }
  intros _. apply keeps_bind.
  { intros w Hw w'. simpl. intros [= <-]. simpl.
    apply Forall_app. split; [done|]. apply Forall_singleton.
    split; [done|]. by left. }
  intros _. apply keeps_bind; [|intros _; exact IH].
  intros w Hw w'. simpl. by intros [= <-].
Qed.

Lemma unbounded_reachable (E : Env) (w : world) :
  reachable E w -> Forall unbounded_gen (times (ledger w)).
Proof.
  apply (reachable_invariant E
           (fun w => Forall unbounded_gen (times (ledger w)))).
  - apply get_int_unbounded.
  - intros w0 Hw0 w'. unfold stop, on_objects.
    destruct (stop_each _ _); simpl; intros ?; by simplify_eq/=.
  - apply remove_at_unbounded.
  - intros addrs latest_arg h0 pt h. unfold PingTest_init.
    destruct (init_loop E latest_arg addrs _) as [u w0|e w0|] eqn:Hloop;
      try done.
    intros [= <- <-]. simpl.
    eapply (init_loop_unbounded E latest_arg addrs); [|by rewrite Hloop].
    simpl. constructor.
Qed.

Lemma py_getitem_raises {A} (l : list A) (i : Z) (e : exn) :
  py_getitem l i = Exc e -> e = IndexError.
Proof.
  unfold py_getitem. destruct (norm_index (List.length l) i) as [k|].
  - destruct (l !! k); [done|]. by intros [= <-].
  - by intros [= <-].
Qed.

(** The streams of a ledger are unbounded and do not end by themselves: in
    every state a ledger reaches, [get] with an integer raises
    [StopIteration] only when the stream of that entry had finished
    before, that is, when an earlier call on it raised. *)
Theorem ledger_stream_ends_only_after_failure (E : Env) (w : world)
    (fuel : nat) (i : Z) (w' : world) :
  reachable E w ->
  get E fuel (OInt i) w = Raise StopIteration w' ->
  exists k g,
    norm_index (List.length (times (ledger w))) i = Some k
    /\ times (ledger w) !! k = Some g
    /\ packets g = None
    /\ pc g = Finished.
Proof.
  intros Hreach. apply unbounded_reachable in Hreach.
  unfold get, get_address_index, get_int, bind, ret, advance, py_getitem.
  destruct (norm_index _ i) as [k|]; [|done].
  destruct (times (ledger w) !! k) as [g|] eqn:Hg; [|done].
  assert (Hgu : unbounded_gen g) by (by eapply Forall_lookup_1).
  destruct (next E fuel (objects w, g)) as [s [h g']|e [h g']|] eqn:Hnext;
    [| |done].
  - unfold record_response.
    destruct (py_getitem _ i) as [[k2 hist]|e|] eqn:Hget; simpl; try done.
    intros [= -> _]. by apply py_getitem_raises in Hget.
  - intros [= -> _]. exists k, g. split; [done|]. split; [done|].
    split; [apply Hgu|].
    by apply (next_stops_only_finished E fuel (objects w) g (h, g')).
Qed.

Lemma ledger_stream_ends_only_after_failure_witness :
  exists pt h w1 w2,
    PingTest_init Example.garbled ["a"] false [] = Ret pt h
    /\ get Example.garbled 5 (OInt 0) {| objects := h; ledger := pt |}
       = Raise TypeError w1
    /\ get Example.garbled 5 (OInt 0) w1 = Raise StopIteration w2
    /\ exists k g,
         norm_index (List.length (times (ledger w1))) 0 = Some k
         /\ times (ledger w1) !! k = Some g
         /\ packets g = None
         /\ pc g = Finished.
Proof.
  eexists _, _, _, _. split; [vm_compute; reflexivity|].
  split; [vm_compute; reflexivity|]. split; [vm_compute; reflexivity|].
  eapply (ledger_stream_ends_only_after_failure Example.garbled _ 5 0).
  - eapply (reach_step Example.garbled _ 5 (OpGet (OInt 0))).
    + eapply (reach_init Example.garbled ["a"] false []).
      vm_compute. reflexivity.
    + vm_compute. reflexivity.
  - vm_compute. reflexivity.
Defined.

(** ** The lists of the ledger stay aligned *)

(** In every state a ledger reaches, by its constructor and any calls that
    return or raise, the addresses, the streams, the [Ping] objects and the
    histories have the same length, every [Ping] object of the ledger
    exists, and the stream of an entry is the one of the [Ping] object of
    that entry. *)
Theorem ledger_lists_stay_aligned (E : Env) (w : world) :
  reachable E w ->
  List.length (times (ledger w)) = List.length (addresses (ledger w))
  /\ List.length (pings (ledger w)) = List.length (addresses (ledger w))
  /\ List.length (responses (ledger w)) = List.length (addresses (ledger w))
  /\ Forall (fun p => (p < List.length (objects w))%nat) (pings (ledger w))
  /\ (forall k g p, times (ledger w) !! k = Some g ->
                    pings (ledger w) !! k = Some p -> gen_self g = p).
Proof.
  revert w. apply (reachable_invariant E ledger_wf).
  - apply get_int_wf.
  - apply stop_wf.
  - apply remove_at_wf.
  - intros addrs latest_arg h0 pt h. apply init_wf.
Qed.

Lemma ledger_lists_stay_aligned_witness :
  List.length (times (ledger Example.after_get)) = 2%nat
  /\ List.length (responses (ledger Example.after_get)) = 2%nat.
Proof.
  destruct (ledger_lists_stay_aligned Example.two_hosts Example.after_get)
    as (Ht & _ & Hr & _).
  { apply (reach_step Example.two_hosts Example.two_entries 20 (OpGet (OInt 0))).
    - by apply (reach_init Example.two_hosts ["a"; "b"] false []).
    - reflexivity. }
  split; [exact Ht | exact Hr].
Defined.
